(** * torchlft: layers, flow diagnostics and observables

    A shallow embedding of the four source files of torchlft

      - [lattice/scalar/layers.py]   (module [Layers])
      - [scalar/flows/coupling.py]   (module [Flows])
      - [nflow/utils.py]             (module [NflowUtils])
      - [observables.py]             (module [Observables])

    Python exceptions are values of [Py.exn]; a call that may raise returns
    a [Py.result].  A tensor is its shape with its entries, flat or as nested
    lists; where the arithmetic matters the entries are real numbers (the
    ideal semantics of the floating-point operations), elsewhere the entry
    type is left abstract. *)

From Stdlib Require Import ZArith Reals Lra Lia FunctionalExtensionality.
From stdpp Require Import base list strings gmap.

(** ** Python results and exceptions *)

Module Py.

Inductive exn : Type :=
  | ValueError (msg : string)
  | AssertionError
  | NameError (name : string)
  | IndexError
  | TypeError
  | AttributeError
  | RuntimeError
  | NotImplementedError.

Inductive result (A : Type) : Type :=
  | Ok (a : A)
  | Raise (e : exn).
Arguments Ok {A} a.
Arguments Raise {A} e.

Definition bind {A B : Type} (m : result A) (k : A → result B) : result B :=
  match m with
  | Ok a => k a
  | Raise e => Raise e
  end.

(** [assert c] of Python: nothing when [c] holds, [AssertionError] otherwise. *)
Definition assert (c : bool) : result unit :=
  if c then Ok tt else Raise AssertionError.

Definition is_ok {A : Type} (m : result A) : bool :=
  match m with Ok _ => true | Raise _ => false end.

End Py.

Import Py.

#[global] Instance result_bind : MBind result := λ A B k m, Py.bind m k.
#[global] Instance result_ret : MRet result := @Py.Ok.
#[global] Instance result_fmap : FMap result :=
  λ A B f m, match m with Ok a => Ok (f a) | Raise e => Raise e end.

(** A list comprehension whose body may raise. *)
Fixpoint mapM {A B : Type} (f : A → result B) (l : list A) : result (list B) :=
  match l with
  | [] => Ok []
  | x :: l' => y ← f x; ys ← mapM f l'; Ok (y :: ys)
  end.

(** ** Tensors of any rank

    Where the code only looks at the shape of a tensor or works along its
    leading axis, a tensor is its shape and its entries in row-major order. *)

Module Torch.

Record tensor (V : Type) : Type := Tensor {
  shape : list nat;
  data : list V
}.
Arguments Tensor {V} shape data.
Arguments shape {V} t.
Arguments data {V} t.

Definition numel_of (sh : list nat) : nat := foldr Nat.mul 1 sh.

Definition dim {V : Type} (t : tensor V) : nat := length (shape t).

(** A tensor holds as many entries as its shape says. *)
Definition well_formed {V : Type} (t : tensor V) : Prop :=
  length (data t) = numel_of (shape t).

(** Unpacking [a, b, c, d = t.shape] and [a, b, c, d, *_ = t.shape]. *)
Definition not_enough : string := "not enough values to unpack".
Definition too_many : string := "too many values to unpack".

Definition unpack4 (sh : list nat) : result (nat * nat * nat * nat) :=
  match sh with
  | [a; b; c; d] => Ok (a, b, c, d)
  | _ :: _ :: _ :: _ :: _ :: _ => Raise (ValueError too_many)
  | _ => Raise (ValueError not_enough)
  end.

Definition unpack4_star (sh : list nat) : result (nat * nat * nat * nat) :=
  match sh with
  | a :: b :: c :: d :: _ => Ok (a, b, c, d)
  | _ => Raise (ValueError not_enough)
  end.

(** [t.unsqueeze_(dim=0)] and [t.squeeze_(dim=0)] change the shape of the
    tensor they are called on; the entries stay. *)
Definition unsqueeze0 {V : Type} (t : tensor V) : tensor V :=
  Tensor (1 :: shape t) (data t).

Definition squeeze0 {V : Type} (t : tensor V) : tensor V :=
  match shape t with
  | 1 :: sh => Tensor sh (data t)
  | _ => t
  end.

(** The slices of a tensor along its leading axis, as [for x in t] and
    [t.unbind(0)] give them; a tensor of rank 0 cannot be iterated. *)
Definition slice0 {V : Type} (sh : list nat) (entries : list V) (k : nat) : tensor V :=
  Tensor sh (take (numel_of sh) (drop (k * numel_of sh) entries)).

Definition unbind0 {V : Type} (t : tensor V) : result (list (tensor V)) :=
  match shape t with
  | [] => Raise TypeError
  | n :: sh => Ok (map (slice0 sh (data t)) (seq 0 n))
  end.

(** [t[indices]] with a tensor of indices: the selected slices, stacked. *)
Definition index0 {V : Type} (t : tensor V) (indices : list nat) : result (tensor V) :=
  match shape t with
  | [] => Raise IndexError
  | n :: sh =>
      if forallb (fun i => i <? n) indices
      then Ok (Tensor (length indices :: sh)
                      (concat (map (fun i => data (slice0 sh (data t) i)) indices)))
      else Raise IndexError
  end.

(** [torch.stack(ts)]: at least one tensor, all of one shape. *)
Definition stack {V : Type} (ts : list (tensor V)) : result (tensor V) :=
  match ts with
  | [] => Raise RuntimeError
  | t :: _ =>
      if forallb (fun u => bool_decide (shape u = shape t)) ts
      then Ok (Tensor (length ts :: shape t) (concat (map data ts)))
      else Raise RuntimeError
  end.

(** [t.sum()] over a list of entries. *)
Definition sum_list (xs : list R) : R := foldr Rplus 0%R xs.

(** *** Code that mutates one object and may raise

    [St S A] is a computation that reads and updates a state [S] (the object
    the caller passed in) and returns an [A] or raises; the state at the
    moment of the raise is kept. *)
Definition St (S A : Type) : Type := S → S * result A.

Definition st_ret {S A : Type} (a : A) : St S A := fun s => (s, Ok a).

Definition st_bind {S A B : Type} (m : St S A) (k : A → St S B) : St S B :=
  fun s => match m s with
           | (s', Ok a) => k a s'
           | (s', Raise e) => (s', Raise e)
           end.

Definition st_lift {S A : Type} (r : result A) : St S A := fun s => (s, r).
Definition st_get {S : Type} : St S S := fun s => (s, Ok s).
Definition st_modify {S : Type} (f : S → S) : St S unit := fun s => (f s, Ok tt).

End Torch.

Import Torch.

(** ** lattice/scalar/layers.py *)

Module Layers.

(** *** [GlobalRescalingLayer] *)

Section Rescaling.
Open Scope R_scope.

(** [torch.nn.functional.softplus(x, beta)] with its default threshold 20:
    [ln (1 + exp (beta x)) / beta], and [x] itself above the threshold. *)
Definition softplus (beta x : R) : R :=
  if Rlt_dec 20 (beta * x) then x else ln (1 + exp (beta * x)) / beta.

(** The layer owns one parameter, [scale], a tensor of one entry. *)
Record GlobalRescalingLayer : Type := { scale : R }.

(** [__init__]: [scale = torch.zeros(1)]. *)
Definition GlobalRescalingLayer_init : GlobalRescalingLayer := {| scale := 0 |}.

(** [forward]: [φ = σ * z]; [z[0]] raises [IndexError] on a tensor of rank 0
    and on an empty batch; the log-det is [ln σ * numel(z[0])] expanded to
    shape [(batch, 1)]. *)
Definition GlobalRescalingLayer_forward (self : GlobalRescalingLayer) (z : tensor R)
  : result (tensor R * tensor R) :=
  let σ := softplus (ln 2) (scale self) in
  let φ := Tensor (match shape z with [] => [1%nat] | sh => sh end)
                  (map (Rmult σ) (data z)) in
  match shape z with
  | [] => Raise IndexError
  | O :: _ => Raise IndexError
  | S _ :: sample_shape =>
      let n := hd 0%nat (shape φ) in
      Ok (φ, Tensor [n; 1%nat] (replicate n (ln σ * INR (numel_of sample_shape))))
  end.

End Rescaling.

(** *** [DiagonalLinearLayer] and [TriangularLinearLayer] *)

Section Linear.
Open Scope R_scope.

Local Abbreviation matrix := (list (list R)).

(** [torch.diag_embed(d)] of a vector: the square matrix with [d] on its
    diagonal and zeros elsewhere. *)
Definition diag_embed (d : list R) : matrix :=
  imap (fun i x => <[i := x]> (replicate (length d) 0)) d.

(** [M.diag()] of a matrix: the entries [M[i][i]] that exist. *)
Definition diagonal (M : matrix) : list R :=
  omap (fun i => M !! i ≫= (.!! i)) (seq 0 (length M)).

(** [torch.zeros(size)] and [torch.empty(size)] refuse a negative size. *)
Definition check_size (size : Z) : result nat :=
  if (size <? 0)%Z then Raise RuntimeError else Ok (Z.to_nat size).

Record DiagonalLinearLayer : Type := { diag_weight : list R }.

Definition DiagonalLinearLayer_init (size : Z) : result DiagonalLinearLayer :=
  n ← check_size size;
  Ok {| diag_weight := replicate n 0 |}.

Definition DiagonalLinearLayer_get_weight (self : DiagonalLinearLayer) : matrix :=
  let diag := map (softplus (ln 2)) (diag_weight self) in
  diag_embed diag.

(** [torch.ones(D, D).tril(-1).bool()]: on strictly below the diagonal. *)
Definition tril_mask (D : nat) : list (list bool) :=
  map (fun i => map (fun j => bool_decide (j < i)%nat) (seq 0 D)) (seq 0 D).

(** [t.masked_scatter(mask, source)]: the entries of [source], in order, go
    to the places of [t] where [mask] is on, row after row; a source that
    runs out raises.  The mask has the shape of [t] here, as [__init__]
    builds it; broadcasting of a mask of another shape is not modelled, and
    such a mask is refused. *)
Fixpoint scatter_line {A : Type} (mask : list bool) (row src : list A)
  : result (list A * list A) :=
  match mask, row with
  | [], [] => Ok ([], src)
  | m :: mask', x :: row' =>
      if m
      then match src with
           | [] => Raise RuntimeError
           | v :: src' =>
               '(r, rest) ← scatter_line mask' row' src'; Ok (v :: r, rest)
           end
      else '(r, rest) ← scatter_line mask' row' src; Ok (x :: r, rest)
  | _, _ => Raise RuntimeError
  end.

Fixpoint scatter_lines {A : Type} (mask : list (list bool)) (t : list (list A))
    (src : list A) : result (list (list A) * list A) :=
  match mask, t with
  | [], [] => Ok ([], src)
  | m :: mask', row :: t' =>
      '(r, rest) ← scatter_line m row src;
      '(rs, rest') ← scatter_lines mask' t' rest;
      Ok (r :: rs, rest')
  | _, _ => Raise RuntimeError
  end.

Definition masked_scatter {A : Type} (mask : list (list bool)) (t : list (list A))
    (src : list A) : result (list (list A)) :=
  fst <$> scatter_lines mask t src.

Record TriangularLinearLayer : Type := {
  tri_diag : list R;
  tri_tril : list R;
  tri_mask : list (list bool)
}.

(** [__init__]: [uniform_(0, 1)] fills the two parameters; entry [i] of the
    draws is [uniform i]. *)
Definition TriangularLinearLayer_init (uniform : nat → R) (size : Z)
  : result TriangularLinearLayer :=
  let D := size in
  n ← check_size D;
  m ← check_size ((D ^ 2 - D) / 2);
  Ok {| tri_diag := map uniform (seq 0 n);
        tri_tril := map uniform (seq n m);
        tri_mask := tril_mask n |}.

Definition TriangularLinearLayer_get_weight (self : TriangularLinearLayer)
  : result matrix :=
  let diag := map (softplus (ln 2)) (tri_diag self) in
  masked_scatter (tri_mask self) (diag_embed diag) (tri_tril self).

(** [mv], the batched product of a matrix and a batch of vectors, is a
    helper of [torchlft.utils.linalg], which is not among the source files:
    the two [forward] methods are given it. *)
Context (mv : matrix → tensor R → result (tensor R)).

(** [.log().sum().expand(φ.shape[0], 1)]: the diagonal entries are values of
    [softplus], which are positive, where [torch.log] is [ln]; [φ.shape[0]]
    raises on a tensor of rank 0. *)
Definition log_det_column (M : matrix) (φ : tensor R) : result (tensor R) :=
  let s := sum_list (map ln (diagonal M)) in
  match shape φ with
  | [] => Raise IndexError
  | n :: _ => Ok (Tensor [n; 1%nat] (replicate n s))
  end.

Definition DiagonalLinearLayer_forward (self : DiagonalLinearLayer) (z : tensor R)
  : result (tensor R * tensor R) :=
  _ ← assert (dim z =? 2)%nat;
  let D := DiagonalLinearLayer_get_weight self in
  φ ← mv D z;
  log_det_dφdz ← log_det_column D φ;
  Ok (φ, log_det_dφdz).

Definition TriangularLinearLayer_forward (self : TriangularLinearLayer) (z : tensor R)
  : result (tensor R * tensor R) :=
  _ ← assert (dim z =? 2)%nat;
  L ← TriangularLinearLayer_get_weight self;
  φ ← mv L z;
  log_det_dφdz ← log_det_column L φ;
  Ok (φ, log_det_dφdz).

(** The number of entries strictly below the diagonal in the first [i] rows
    of a matrix. *)
Definition below (i : nat) : nat := (i * i - i) / 2.

(** A lower triangular matrix of size [D], row by row: row [i] takes its
    [i] entries left of the diagonal from [tril], in order. *)
Definition lower (D : nat) (diag tril : list R) : matrix :=
  imap (fun i d => take i (drop (below i) tril)
                   ++ softplus (ln 2) d :: replicate (D - S i) 0) diag.

(** A layer of size [D] as [__init__] leaves it, with whatever values its two
    parameters have taken since. *)
Definition built (self : TriangularLinearLayer) (D : nat) : Prop :=
  length (tri_diag self) = D
  ∧ length (tri_tril self) = below D
  ∧ tri_mask self = tril_mask D.

End Linear.

(** *** [DenseCouplingLayer] *)

Section Dense.
Context {V J C : Type}.

(** A rank-2 tensor [(N, D)]: its feature count and its rows. *)
Record tensor2 : Type := T2 {
  ncol : nat;
  rows : list (list V)
}.

(** A rank-3 tensor [(N, D, P)]. *)
Record tensor3 : Type := T3 {
  dims3 : nat * nat * nat;
  entries3 : list (list (list V))
}.

Definition well_formed2 (t : tensor2) : Prop :=
  Forall (fun r => length r = ncol t) (rows t).

(** [t.tensor_split(2, dim=1)]: the first section takes the extra column
    when the feature count is odd. *)
Definition tensor_split2 (t : tensor2) : tensor2 * tensor2 :=
  let k := (ncol t + 1) / 2 in
  (T2 k (map (take k) (rows t)), T2 (ncol t - k) (map (drop k) (rows t))).

(** [torch.cat([x, y], dim=1)]: the batch sizes must agree. *)
Definition cat1 (x y : tensor2) : result tensor2 :=
  if bool_decide (length (rows x) = length (rows y))
  then Ok (T2 (ncol x + ncol y) (zip_with app (rows x) (rows y)))
  else Raise RuntimeError.

(** Python truth of [layer_id % 2]. *)
Definition is_odd (layer_id : Z) : bool := negb (layer_id mod 2 =? 0)%Z.

Record DenseCouplingLayer : Type := {
  dense_transform : C → tensor3 → result (tensor3 * J);
  dense_net : tensor2 → result tensor2;
  dense_layer_id : Z
}.

Definition split (self : DenseCouplingLayer) (φ_in : tensor2) : tensor2 * tensor2 :=
  let '(φ_A, φ_B) := tensor_split2 φ_in in
  if is_odd (dense_layer_id self) then (φ_B, φ_A) else (φ_A, φ_B).

Definition join (self : DenseCouplingLayer) (φ_a φ_p : tensor2) : result tensor2 :=
  if is_odd (dense_layer_id self) then cat1 φ_p φ_a else cat1 φ_a φ_p.

(** [t.unsqueeze(-1)] and [t.squeeze(-1)].  A tensor whose last axis is not
    of size one is left at rank 3 by [squeeze], and [torch.cat] then refuses
    to join it with the rank-2 passive half. *)
Definition unsqueeze_last (t : tensor2) : tensor3 :=
  T3 (length (rows t), ncol t, 1) (map (map (fun x => [x])) (rows t)).

Definition only (l : list V) : result V :=
  match l with [x] => Ok x | _ => Raise RuntimeError end.

Definition squeeze_last (t : tensor3) : result tensor2 :=
  let '(_, d, p) := dims3 t in
  if bool_decide (p = 1)
  then rs ← mapM (mapM only) (entries3 t); Ok (T2 d rs)
  else Raise RuntimeError.

(** [forward]; [view_context] stands for the [view] of the net's output to
    the shape of [φ_a] with one more, inferred, axis: the context, whose
    type [C] is the transform module's business. *)
Definition DenseCouplingLayer_forward (view_context : tensor2 → nat * nat → result C)
    (self : DenseCouplingLayer) (φ_in : tensor2) : result (tensor2 * J) :=
  let D := ncol φ_in in
  _ ← assert (D mod 2 =? 0);
  let '(φ_a, φ_p) := split self φ_in in
  out ← dense_net self φ_p;
  context ← view_context out (length (rows φ_a), ncol φ_a);
  let transform := dense_transform self context in
  '(φ_a', ldj) ← transform (unsqueeze_last φ_a);
  φ_a'' ← squeeze_last φ_a';
  φ_out ← join self φ_a'' φ_p;
  Ok (φ_out, ldj).

End Dense.

(** *** [UpscalingLayer] *)

(** [forward] unpacks the shape, checks the channel count and falls off the
    end of the function: Python then returns [None], which is the [None] of
    the option here. *)
Definition UpscalingLayer_forward {V : Type} (φ_in : tensor V)
  : result (option (tensor V * tensor V)) :=
  '(_, L, T, n) ← unpack4 (shape φ_in);
  _ ← assert (n mod 4 =? 0);
  Ok None.

(** *** Index helpers of torch used by [CouplingLayer.__init__] *)

(** [torch.arange(a, b)]: the integers [a, a+1, ..., b-1]; torch refuses
    bounds in the wrong order. *)
Definition arange (a b : Z) : result (list Z) :=
  if (b <? a)%Z then Raise RuntimeError
  else Ok (map (fun i => (a + Z.of_nat i)%Z) (seq 0 (Z.to_nat (b - a)))).

(** [torch.meshgrid(a, b, indexing="xy")]: two grids of [length b] rows and
    [length a] columns, [X[i][j] = a[j]] and [Y[i][j] = b[i]]. *)
Definition meshgrid_xy (a b : list Z) : list (list Z) * list (list Z) :=
  (map (fun _ => a) b, map (fun y => map (fun _ => y) a) b).

(** [torch.stack((X, Y), dim=-1)] on two grids: the grid of pairs [[x, y]]. *)
Definition stack_last (g : list (list Z) * list (list Z)) : list (list (list Z)) :=
  zip_with (zip_with (fun x y => [x; y])) g.1 g.2.

(** Modelled from the spec: [checkerboard_mask] of [torchlft.utils.lattice],
    which is imported by layers.py but is not among the source files.  The
    spec describes it as a checkerboard pattern on a 2D shape with a
    configurable offset, whose sites that are on for offset 1 are the ones of
    parity opposite to the window centre; so site [(i, j)] is on exactly when
    [i + j + offset] is even. *)
Definition checkerboard_mask (shape : nat * nat) (offset : nat) : list (list bool) :=
  map (fun i => map (fun j => Nat.even (i + j + offset)) (seq 0 shape.2))
      (seq 0 shape.1).

(** The slice [m[:-1, :-1]]: drop the last row and the last column. *)
Definition drop_last2 {A : Type} (m : list (list A)) : list (list A) :=
  map (@removelast A) (@removelast (list A) m).

(** Boolean-mask indexing [t[mask]] over the two leading axes: the entries
    whose mask bit is set, in row-major order.  The mask must have the shape
    of the two leading axes, else torch raises [IndexError]. *)
Fixpoint select_row {A : Type} (mask : list bool) (row : list A) : result (list A) :=
  match mask, row with
  | [], [] => Ok []
  | b :: mask', x :: row' =>
      rest ← select_row mask' row';
      Ok (if b then x :: rest else rest)
  | _, _ => Raise IndexError
  end.

Fixpoint masked_select {A : Type} (mask : list (list bool)) (t : list (list A))
  : result (list A) :=
  match mask, t with
  | [], [] => Ok []
  | m :: mask', r :: t' =>
      here ← select_row m r;
      rest ← masked_select mask' t';
      Ok (here ++ rest)
  | _, _ => Raise IndexError
  end.

(** A grid given entry by entry, the form every grid of the constructor
    takes. *)
Definition tabulate {A : Type} (n m : nat) (f : nat → nat → A) : list (list A) :=
  map (fun i => map (fun j => f i j) (seq 0 m)) (seq 0 n).

(** *** [CouplingLayer.__init__]: the neighbour offsets [self.shifts] *)

Definition CouplingLayer_checker (radius : Z) : list (list bool) :=
  let K := (2 * radius + 1)%Z in
  drop_last2 (checkerboard_mask (Z.to_nat (K + 1), Z.to_nat (K + 1)) 1).

Definition CouplingLayer_shifts (radius : Z) : result (list (list Z)) :=
  xs ← arange (- radius) (radius + 1);
  ys ← arange (- radius) (radius + 1);
  let shifts := stack_last (meshgrid_xy xs ys) in
  masked_select (CouplingLayer_checker radius) shifts.

(** *** [CouplingLayer.__init__]: the [kernels] buffer *)

(** [torch.nn.functional.one_hot(t)] on a grid of class numbers: one class
    more than the largest entry, and each entry replaced by the vector that
    is one at its class and zero elsewhere.  An empty tensor and a negative
    entry are refused. *)
Definition one_hot (t : list (list Z)) : result (list (list (list Z))) :=
  let entries := concat t in
  if bool_decide (entries = []) then Raise RuntimeError
  else if forallb (fun e => (0 <=? e)%Z) entries
  then let num_classes := Z.to_nat (foldr Z.max 0%Z entries + 1) in
       Ok (map (map (fun e => map (fun c => if (Z.of_nat c =? e)%Z then 1%Z else 0%Z)
                                  (seq 0 num_classes))) t)
  else Raise RuntimeError.

(** [CouplingLayer.__init__], the [kernels] buffer: the sites of the window
    that are on in [checker] are numbered from 1 in row-major order, the
    numbers are turned into one-hot vectors and the class 0 of the sites that
    are off is dropped. *)
Definition CouplingLayer_kernels (radius : Z) : result (list (list (list R))) :=
  let K := (2 * radius + 1)%Z in
  n ← check_size K;
  source ← arange 1 (K ^ 2 / 2 + 1);
  elements ← masked_scatter (CouplingLayer_checker radius)
                            (tabulate n n (fun _ _ => 0%Z)) source;
  hot ← one_hot elements;
  Ok (map (map (fun v => map IZR (drop 1 v))) hot).

(** *** Rank-4 lattice batches and the coupling layers

    A rank-4 tensor [(batch, L, T, channel)] is kept with its shape and its
    entries as nested lists.  The entry type [V] stands for the floats;
    [mask_mul] is the product of a boolean with a float that
    [frozen_mask.unsqueeze(-1) * φ_in] computes entry by entry. *)

Section Coupling.
Context {V J : Type} (mask_mul : bool → V → V).

Local Abbreviation site := (list V).
Local Abbreviation grid := (list (list (list V))).
Local Abbreviation mask2 := (list (list bool)).

Record tensor4 : Type := T4 {
  dims4 : nat * nat * nat * nat;
  entries4 : list grid
}.

(** Tensors live in a store and are named by their position in it: [clone]
    allocates, an indexed assignment overwrites in place. *)
Local Abbreviation store := (list tensor4).
Local Abbreviation ref := nat.

Definition alloc (s : store) (t : tensor4) : store * ref := (s ++ [t], length s).

Definition read (s : store) (r : ref) : result tensor4 :=
  match s !! r with Some t => Ok t | None => Raise RuntimeError end.

(** [mask.unsqueeze(-1) * t]: a new tensor, each site scaled by its mask bit.
    The mask must have the shape [(L, T)] of the lattice axes. *)
Definition mul_grid (mask : mask2) (g : grid) : grid :=
  zip_with (zip_with (fun b => map (mask_mul b))) mask g.

Definition mask_shape_ok (mask : mask2) (L T : nat) : bool :=
  bool_decide (length mask = L) && forallb (fun r => bool_decide (length r = T)) mask.

Definition mul_mask4 (mask : mask2) (t : tensor4) : result tensor4 :=
  let '(_, L, T, _) := dims4 t in
  if mask_shape_ok mask L T
  then Ok (T4 (dims4 t) (map (mul_grid mask) (entries4 t)))
  else Raise RuntimeError.

(** [t[:, mask]]: per batch element, the sites selected by the mask. *)
Fixpoint select4 (mask : mask2) (gs : list grid) : result (list (list site)) :=
  match gs with
  | [] => Ok []
  | g :: gs' =>
      here ← masked_select mask g;
      rest ← select4 mask gs';
      Ok (here :: rest)
  end.

(** [t[:, mask] = vals], in place: the sites selected by the mask are
    overwritten by the rows of [vals], in row-major order; the other sites
    are not written.  [vals] must have the shape of [t[:, mask]]. *)
Fixpoint scatter_row (mask : list bool) (row : list site) (vals : list site)
  : result (list site * list site) :=
  match mask, row with
  | [], [] => Ok ([], vals)
  | true :: mask', x :: row' =>
      match vals with
      | v :: vals' =>
          if bool_decide (length v = length x)
          then p ← scatter_row mask' row' vals'; Ok (v :: p.1, p.2)
          else Raise RuntimeError
      | [] => Raise RuntimeError
      end
  | false :: mask', x :: row' =>
      p ← scatter_row mask' row' vals; Ok (x :: p.1, p.2)
  | _, _ => Raise IndexError
  end.

Fixpoint scatter_grid (mask : mask2) (g : grid) (vals : list site)
  : result (grid * list site) :=
  match mask, g with
  | [], [] => Ok ([], vals)
  | m :: mask', r :: g' =>
      p ← scatter_row m r vals;
      q ← scatter_grid mask' g' p.2;
      Ok (p.1 :: q.1, q.2)
  | _, _ => Raise IndexError
  end.

Fixpoint scatter4 (mask : mask2) (gs : list grid) (vals : list (list site))
  : result (list grid) :=
  match gs, vals with
  | [], [] => Ok []
  | g :: gs', v :: vals' =>
      p ← scatter_grid mask g v;
      match p.2 with
      | [] => rest ← scatter4 mask gs' vals'; Ok (p.1 :: rest)
      | _ :: _ => Raise RuntimeError
      end
  | _, _ => Raise RuntimeError
  end.

Definition setitem (s : store) (r : ref) (mask : mask2) (vals : list (list site))
  : result store :=
  t ← read s r;
  gs ← scatter4 mask (entries4 t) vals;
  Ok (<[r := T4 (dims4 t) gs]> s).

(** [t.clone()]: a new tensor with the entries of [t]. *)
Definition clone (s : store) (r : ref) : result (store * ref) :=
  t ← read s r; Ok (alloc s t).

(** [t.roll(shift, (1, 2))]: circular shift of the two lattice axes, entry
    [i] moving to [(i + shift) mod n]. *)
Definition roll_list {A : Type} (k : Z) (l : list A) : list A :=
  let n := length l in
  let sh := Z.to_nat (k mod Z.of_nat n) in
  drop (n - sh) l ++ take (n - sh) l.

Definition roll4 (shift : list Z) (t : tensor4) : result tensor4 :=
  match shift with
  | [dx; dy] =>
      Ok (T4 (dims4 t) (map (fun g => map (roll_list dy) (roll_list dx g)) (entries4 t)))
  | _ => Raise RuntimeError
  end.

(** [torch.cat(ts, dim=-1)] of tensors that agree on the other axes: the
    channel lists of each site are appended; an empty list is an error. *)
Definition cat_last2 (a b : tensor4) : tensor4 :=
  let '(n, L, T, c) := dims4 a in
  T4 (n, L, T, c + (dims4 b).2)
     (zip_with (zip_with (zip_with app)) (entries4 a) (entries4 b)).

Definition cat_last (ts : list tensor4) : result tensor4 :=
  match ts with
  | [] => Raise RuntimeError
  | t :: ts' => Ok (foldl cat_last2 t ts')
  end.

(** The elementwise transform module: from a context it builds a transform,
    which maps the selected values to new values and a log-det. *)
Definition transform_module : Type :=
  list (list site) → list (list site) → result (list (list site) * J).

Record ConvCouplingLayer : Type := {
  conv_partitioning : nat * nat → mask2 * mask2;
  conv_spatial_net : tensor4 → result tensor4;
  conv_transform : transform_module
}.

Record CouplingLayer : Type := {
  partitioning : nat * nat → mask2 * mask2;
  transform : transform_module;
  shifts : list (list Z)
}.

(** The constructors.  [Checkerboard2d] of [torchlft.nflow.partition] is not
    among the source files: it is a parameter, and nothing below depends on
    which masks it returns.  The [kernels] buffer of [CouplingLayer] is only
    used by the commented-out alternative; it is not a field here, and is
    modelled on its own as [CouplingLayer_kernels]. *)
Definition ConvCouplingLayer_init (Checkerboard2d : Z → nat * nat → mask2 * mask2)
    (tr : transform_module) (spatial_net : tensor4 → result tensor4) (layer_id : Z)
  : ConvCouplingLayer :=
  {| conv_partitioning := Checkerboard2d layer_id;
     conv_spatial_net := spatial_net;
     conv_transform := tr |}.

Definition CouplingLayer_init (Checkerboard2d : Z → nat * nat → mask2 * mask2)
    (tr : transform_module) (radius : Z) (layer_id : Z) : result CouplingLayer :=
  sh ← CouplingLayer_shifts radius;
  Ok {| partitioning := Checkerboard2d layer_id; transform := tr; shifts := sh |}.

(** [ConvCouplingLayer.forward]: the store after the call, and the returned
    pair (reference of [φ_out], [ldj]) or the exception raised. *)
Definition ConvCouplingLayer_forward (self : ConvCouplingLayer) (s : store) (φ_in : ref)
  : store * result (ref * J) :=
  match read s φ_in with
  | Raise e => (s, Raise e)
  | Ok t =>
    let '(_, L, T, _) := dims4 t in
    let '(active_mask, frozen_mask) := conv_partitioning self (L, T) in
    match (net_inputs ← mul_mask4 frozen_mask t;
           out ← conv_spatial_net self net_inputs;
           select4 active_mask (entries4 out)) with
    | Raise e => (s, Raise e)
    | Ok context =>
      let tr := conv_transform self context in
      match clone s φ_in with
      | Raise e => (s, Raise e)
      | Ok (s1, φ_out) =>
        match (x ← (t' ← read s1 φ_in; select4 active_mask (entries4 t')); tr x) with
        | Raise e => (s1, Raise e)
        | Ok (y, ldj) =>
          match setitem s1 φ_out active_mask y with
          | Raise e => (s1, Raise e)
          | Ok s2 => (s2, Ok (φ_out, ldj))
          end
        end
      end
    end
  end.

(** [CouplingLayer.forward] (the radius coupling): the context is the
    frozen-masked input rolled by every neighbour offset, stacked on the
    channel axis. *)
Definition CouplingLayer_forward (self : CouplingLayer) (s : store) (φ_in : ref)
  : store * result (ref * J) :=
  match read s φ_in with
  | Raise e => (s, Raise e)
  | Ok t =>
    let '(_, L, T, _) := dims4 t in
    let '(active_mask, frozen_mask) := partitioning self (L, T) in
    match (context ← mul_mask4 frozen_mask t;
           rolled ← mapM (fun shift => roll4 shift context) (shifts self);
           context ← cat_last rolled;
           select4 active_mask (entries4 context)) with
    | Raise e => (s, Raise e)
    | Ok context =>
      let tr := transform self context in
      match clone s φ_in with
      | Raise e => (s, Raise e)
      | Ok (s1, φ_out) =>
        match (x ← (t' ← read s1 φ_in; select4 active_mask (entries4 t')); tr x) with
        | Raise e => (s1, Raise e)
        | Ok (y, ldj) =>
          match setitem s1 φ_out active_mask y with
          | Raise e => (s1, Raise e)
          | Ok s2 => (s2, Ok (φ_out, ldj))
          end
        end
      end
    end
  end.

(** The two coupling layers behind the one [forward] interface of [Layer]. *)
Inductive coupling_layer : Type :=
  | Conv (l : ConvCouplingLayer)
  | Radius (l : CouplingLayer).

Definition forward (l : coupling_layer) : store → ref → store * result (ref * J) :=
  match l with
  | Conv c => ConvCouplingLayer_forward c
  | Radius r => CouplingLayer_forward r
  end.

Definition active_mask_of (l : coupling_layer) (t : tensor4) : mask2 :=
  let '(_, L, T, _) := dims4 t in
  match l with
  | Conv c => (conv_partitioning c (L, T)).1
  | Radius r => (partitioning r (L, T)).1
  end.

(** Reading one site [(b, i, j)] of a tensor, and one bit of a mask. *)
Definition site_at (t : tensor4) (b i j : nat) : option site :=
  g ← entries4 t !! b; r ← g !! i; r !! j.

Definition mask_at (m : mask2) (i j : nat) : option bool :=
  r ← m !! i; r !! j.

(** Shapes: a grid of [L] rows of [T] entries, and two nested lists whose
    innermost lists have the same lengths. *)
Definition grid_shape {A : Type} (L T : nat) (g : list (list A)) : Prop :=
  length g = L ∧ Forall (fun r => length r = T) g.

Definition same_shape (x y : list (list site)) : Prop :=
  Forall2 (Forall2 (fun a b : site => length a = length b)) x y.

(** What [forward] needs from the masks of the layer to return on a lattice
    of [L] by [T] sites: that they have that shape. *)
Definition masks_fit (l : coupling_layer) (L T : nat) : Prop :=
  let masks := match l with
               | Conv c => conv_partitioning c (L, T)
               | Radius r => partitioning r (L, T)
               end in
  grid_shape L T masks.1 ∧ grid_shape L T masks.2.

(** What [forward] guarantees about the store and the returned tensor. *)
Definition frame_ok (mask : mask2) (s s' : store) (φ_in φ_out : ref) : Prop :=
  ∃ t_in t_out,
    s !! φ_in = Some t_in ∧
    s' !! φ_in = Some t_in ∧
    (∀ r, r < length s → s' !! r = s !! r) ∧
    φ_out ≠ φ_in ∧
    s' !! φ_out = Some t_out ∧
    dims4 t_out = dims4 t_in ∧
    (∀ b i j, mask_at mask i j = Some false →
              site_at t_out b i j = site_at t_in b i j) ∧
    (∀ b i j, site_at t_out b i j ≠ site_at t_in b i j →
              mask_at mask i j = Some true).

(** The context the two [forward] methods hand to the transform module, on
    its own: the lines of [forward] up to the selection of the active part. *)
Definition ConvCouplingLayer_context (self : ConvCouplingLayer) (t : tensor4)
  : result (list (list site)) :=
  let '(_, L, T, _) := dims4 t in
  let '(active_mask, frozen_mask) := conv_partitioning self (L, T) in
  net_inputs ← mul_mask4 frozen_mask t;
  out ← conv_spatial_net self net_inputs;
  select4 active_mask (entries4 out).

Definition CouplingLayer_context (self : CouplingLayer) (t : tensor4)
  : result (list (list site)) :=
  let '(_, L, T, _) := dims4 t in
  let '(active_mask, frozen_mask) := partitioning self (L, T) in
  context ← mul_mask4 frozen_mask t;
  rolled ← mapM (fun shift => roll4 shift context) (shifts self);
  context ← cat_last rolled;
  select4 active_mask (entries4 context).

(** The context of [CouplingLayer.forward] before the active sites are
    selected from it: the frozen part of the input, rolled by each offset,
    the results joined along the last axis. *)
Definition CouplingLayer_stacked (self : CouplingLayer) (t : tensor4)
  : result tensor4 :=
  let '(_, L, T, _) := dims4 t in
  let '(_, frozen_mask) := partitioning self (L, T) in
  context ← mul_mask4 frozen_mask t;
  rolled ← mapM (fun shift => roll4 shift context) (shifts self);
  cat_last rolled.

(** The index [x] on a periodic axis of [n] sites. *)
Definition wrap (n : nat) (x : Z) : nat := Z.to_nat (x mod Z.of_nat n).
Definition context_of (l : coupling_layer) (t : tensor4) : result (list (list site)) :=
  match l with
  | Conv c => ConvCouplingLayer_context c t
  | Radius r => CouplingLayer_context r t
  end.

Definition frozen_mask_of (l : coupling_layer) (t : tensor4) : mask2 :=
  let '(_, L, T, _) := dims4 t in
  match l with
  | Conv c => (conv_partitioning c (L, T)).2
  | Radius r => (partitioning r (L, T)).2
  end.

Definition transform_of (l : coupling_layer) : transform_module :=
  match l with
  | Conv c => conv_transform c
  | Radius r => transform r
  end.

(** What [forward] needs from the net and the transform to return on the
    input [t], a lattice batch of [L] by [T] sites: that the net, on the
    masked input [forward] hands it, returns a tensor on that lattice (for
    the radius coupling: that there is at least one offset and each is a
    pair); and that the transform built from the context of [t] returns, on
    the active values of [t], values of their shape. *)
Definition net_fits (l : coupling_layer) (L T : nat) (t : tensor4) : Prop :=
  match l with
  | Conv c =>
      ∀ net_inputs, mul_mask4 (frozen_mask_of l t) t = Ok net_inputs →
        ∃ out, conv_spatial_net c net_inputs = Ok out
               ∧ Forall (grid_shape L T) (entries4 out)
  | Radius r => shifts r ≠ [] ∧ Forall (fun shift => length shift = 2) (shifts r)
  end.

Definition transform_fits (l : coupling_layer) (t : tensor4) : Prop :=
  ∀ context x,
    context_of l t = Ok context →
    select4 (active_mask_of l t) (entries4 t) = Ok x →
    ∃ y ldj, transform_of l context x = Ok (y, ldj) ∧ same_shape x y.

End Coupling.

(** *** A radius coupling layer on a 2x2 lattice, used in the examples *)

Section Examples.

(** Checkerboard masks: the active sites of layer [layer_id] are those whose
    parity is the one of [layer_id], the frozen sites are the others. *)
Definition parity_partition (layer_id : Z) (d : nat * nat) : list (list bool) * list (list bool) :=
  (checkerboard_mask d (Z.to_nat (layer_id mod 2)),
   checkerboard_mask d (S (Z.to_nat (layer_id mod 2)))).

Definition mask_mul_Z (b : bool) (x : Z) : Z := if b then x else 0%Z.

(** A shift by the first neighbour of the context, with log-det zero. *)
Definition shift_transform : @transform_module Z Z :=
  fun context x =>
    Ok (zip_with (zip_with (zip_with Z.add)) (map (map (take 1)) context) x, 0%Z).

Definition radius_1_layer : @CouplingLayer Z Z :=
  {| partitioning := parity_partition 0;
     transform := shift_transform;
     shifts := [[0; -1]; [-1; 0]; [1; 0]; [0; 1]]%Z |}.

(** The same layer with a transform that adds one to every active value,
    and the layer a radius of zero gives: it has no offset at all. *)
Definition increment_transform : @transform_module Z Z :=
  fun _ x => Ok (map (map (map (Z.add 1))) x, 0%Z).

Definition radius_1_increment : @CouplingLayer Z Z :=
  {| partitioning := parity_partition 0;
     transform := increment_transform;
     shifts := [[0; -1]; [-1; 0]; [1; 0]; [0; 1]]%Z |}.

Definition radius_0_layer : @CouplingLayer Z Z :=
  {| partitioning := parity_partition 0;
     transform := increment_transform;
     shifts := [] |}.

(** A convolutional coupling whose net moves every row of the lattice one
    step down, and the radius coupling with a transform that always fails. *)
Definition conv_roll_layer : @ConvCouplingLayer Z Z :=
  {| conv_partitioning := parity_partition 0;
     conv_spatial_net := roll4 [1; 0]%Z;
     conv_transform := shift_transform |}.

Definition failing_transform : @transform_module Z Z :=
  fun _ _ => Raise RuntimeError.

Definition radius_1_failing : @CouplingLayer Z Z :=
  {| partitioning := parity_partition 0;
     transform := failing_transform;
     shifts := [[0; -1]; [-1; 0]; [1; 0]; [0; 1]]%Z |}.

Definition lattice_2x2 : @tensor4 Z :=
  T4 (1, 2, 2, 1) [[[[1]; [2]]; [[3]; [4]]]]%Z.

(** The same lattice with other values at the active sites of layer 0. *)
Definition lattice_2x2_other : @tensor4 Z :=
  T4 (1, 2, 2, 1) [[[[9]; [2]]; [[3]; [8]]]]%Z.

(** What the four neighbours of each site give on that lattice, the active
    sites of layer 0 masked. *)
Definition lattice_2x2_stacked : @tensor4 Z :=
  T4 (1, 2, 2, 4) [[[[2; 3; 3; 2]; [0; 0; 0; 0]]; [[0; 0; 0; 0]; [3; 2; 2; 3]]]]%Z.

Definition lattice_2x2_out : @tensor4 Z :=
  T4 (1, 2, 2, 1) [[[[3]; [2]]; [[3]; [7]]]]%Z.

(** A dense coupling layer with an odd layer id, and a batch of one. *)
Definition dense_layer_1 : @DenseCouplingLayer Z Z unit :=
  {| dense_transform := fun _ t => Ok (t, 0%Z);
     dense_net := fun t => Ok t;
     dense_layer_id := 1 |}.

(** A stand-in for [mv] in the examples: the batch as it is, which is what
    the product with the identity matrix gives. *)
Definition keep_input (M : list (list R)) (z : tensor R) : result (tensor R) := Ok z.

Definition triangular_3 : TriangularLinearLayer :=
  {| tri_diag := [0; 0; 0]%R; tri_tril := [5; 6; 7]%R; tri_mask := tril_mask 3 |}.

(** A dense coupling layer with an odd layer id whose net returns its input
    and whose transform adds to every active value the first number of the
    context, the context being the first row of the net's output. *)
Definition first_row (out : @tensor2 Z) (sh : nat * nat) : result (list Z) :=
  Ok (hd [] (rows out)).

Definition dense_shift_1 : @DenseCouplingLayer Z Z (list Z) :=
  {| dense_transform := fun c x =>
       Ok (T3 (dims3 x) (map (map (map (Z.add (hd 0%Z c)))) (entries3 x)), 0%Z);
     dense_net := fun p => Ok p;
     dense_layer_id := 1 |}.

Definition features_4 : @tensor2 Z := T2 4 [[1; 2; 3; 4]]%Z.
Definition new_active_2 : @tensor2 Z := T2 2 [[30; 40]]%Z.

End Examples.

End Layers.

(** ** observables.py *)

Module Observables.

#[local] Instance St_ret {S : Type} : MRet (St S) := @st_ret S.
#[local] Instance St_bind {S : Type} : MBind (St S) := λ A B k m, st_bind m k.

(** *** Names of the module

    A name that a function does not assign is looked up in the globals of
    its module and then in the builtins; [NameError] when neither has it. *)

Inductive pyobj : Type :=
  | PyTensor (t : tensor R)
  | PyBool (b : bool)
  | PyFloat (x : R)
  | PyModule (name : string)
  | PyCallable (name : string).

(** The names observables.py binds at module level ([TYPE_CHECKING] is false
    at run time, so the starred import of [torchlft.typing] binds nothing). *)
Definition module_globals : gmap string pyobj :=
  list_to_map
    [ ("annotations", PyCallable "annotations");
      ("TYPE_CHECKING", PyBool false);
      ("π", PyFloat PI);
      ("prod", PyCallable "prod");
      ("sin", PyCallable "sin");
      ("torch", PyModule "torch");
      ("F", PyModule "torch.nn.functional");
      ("Field", PyCallable "Field");
      ("spherical_triangle_area", PyCallable "spherical_triangle_area");
      ("autocorrelation", PyCallable "autocorrelation");
      ("_Observables", PyCallable "_Observables");
      ("OnePointObservables", PyCallable "OnePointObservables");
      ("TwoPointObservables", PyCallable "TwoPointObservables") ].

(** The builtin functions and constants of Python 3; the builtin exception
    classes, whose names all start with a capital letter and end in [Error],
    [Exception], [Warning], [Exit], [Interrupt], [Group] or [Iteration], are
    not listed. *)
Definition builtins : list string :=
  [ "abs"; "aiter"; "all"; "anext"; "any"; "ascii"; "bin"; "bool";
    "breakpoint"; "bytearray"; "bytes"; "callable"; "chr"; "classmethod";
    "compile"; "complex"; "copyright"; "credits"; "delattr"; "dict"; "dir";
    "divmod"; "enumerate"; "eval"; "exec"; "exit"; "filter"; "float";
    "format"; "frozenset"; "getattr"; "globals"; "hasattr"; "hash"; "help";
    "hex"; "id"; "input"; "int"; "isinstance"; "issubclass"; "iter"; "len";
    "license"; "list"; "locals"; "map"; "max"; "memoryview"; "min"; "next";
    "object"; "oct"; "open"; "ord"; "pow"; "print"; "property"; "quit";
    "range"; "repr"; "reversed"; "round"; "set"; "setattr"; "slice";
    "sorted"; "staticmethod"; "str"; "sum"; "super"; "tuple"; "type";
    "vars"; "zip"; "__import__"; "__build_class__"; "__debug__"; "__doc__";
    "__loader__"; "__name__"; "__package__"; "__spec__"; "True"; "False";
    "None"; "Ellipsis"; "NotImplemented" ].

Definition load_global (name : string) : result pyobj :=
  match module_globals !! name with
  | Some v => Ok v
  | None =>
      if bool_decide (name ∈ builtins) then Ok (PyCallable name)
      else Raise (NameError name)
  end.

(** Calling a tensor method on an object: only a tensor has it. *)
Definition as_tensor (v : pyobj) : result (tensor R) :=
  match v with
  | PyTensor t => Ok t
  | _ => Raise AttributeError
  end.

(** *** [autocorrelation] *)

Section Autocorrelation.
Open Scope R_scope.

(** [t.movedim(0, -1).contiguous()]: the leading axis becomes the last. *)
Definition movedim_0_last (t : tensor R) : result (tensor R) :=
  match shape t with
  | [] => Raise IndexError
  | n :: sh =>
      let m := numel_of sh in
      Ok (Tensor (sh ++ [n])
                 (concat (map (fun j => map (fun k => nth (k * m + j)%nat (data t) 0)
                                            (seq 0 n)) (seq 0 m))))
  end.

(** [t.view(-1, 1, 1, n)]. *)
Definition view_series (t : tensor R) (n : nat) : result (tensor R) :=
  if bool_decide (n = 0%nat) then Raise RuntimeError
  else Ok (Tensor [(numel_of (shape t) / n)%nat; 1%nat; 1%nat; n] (data t)).

(** [F.pad(o, (0, k))]: [k] zeros after the last axis. *)
Definition pad_right (o : list R) (k : nat) : list R := o ++ replicate k 0.

(** [F.conv1d(x, w)] on one channel: the sliding dot product of [w] over [x],
    one output per position where [w] fits. *)
Definition conv1d (x w : list R) : list R :=
  map (fun k => foldr Rplus 0
                  (map (fun t => nth (k + t)%nat x 0 * nth t w 0) (seq 0 (length w))))
      (seq 0 (length x + 1 - length w)).

(** [t.squeeze()]: the axes of size one are dropped. *)
Definition squeeze_all (t : tensor R) : tensor R :=
  Tensor (filter (fun d => d ≠ 1%nat) (shape t)) (data t).

(** The rows of length [n] that a flat list of entries is made of. *)
Definition rows_of (n : nat) (entries : list R) : list (list R) :=
  map (fun k => take n (drop (k * n) entries)) (seq 0 (length entries / n)).

(** [a / a[..., 0:1]]: every series divided by its first entry. *)
Definition normalise (series : list R) : list R :=
  map (fun x => x / hd 0 series) series.

Definition autocorrelation (observable : tensor R) : result (tensor R) :=
  _ ← assert (0 <? dim observable)%nat;
  match shape observable with
  | [] => Raise (ValueError not_enough)
  | sample_size :: observable_shape =>
      observabe ← load_global "observabe";
      moved ← (t ← as_tensor observabe; movedim_0_last t);
      observable ← view_series moved sample_size;
      series ← unbind0 observable;
      let autocovariance :=
        map (fun o => squeeze_all
                        (Tensor [1%nat; sample_size]
                           (conv1d (pad_right (data o) (sample_size - 1)) (data o))))
            series in
      stacked ← stack autocovariance;
      let autocovariance :=
        Tensor (observable_shape ++ [sample_size]) (data stacked) in
      Ok (Tensor (shape autocovariance)
                 (concat (map normalise (rows_of sample_size (data autocovariance)))))
  end.

End Autocorrelation.

(** *** [_Observables.__init__] *)

Definition bootstrapping_message : string :=
  "Bootstrapping only supported for a single sample".

(** [torch.randint(0, n, [n])]: [n] indices below [n].  The generator is a
    function [rng]; [rng k i] is the raw number behind entry [i] of the
    [k]-th draw. *)
Definition randint (rng : nat → nat → nat) (k n : nat) : list nat :=
  map (fun i => rng k i mod n) (seq 0 n).

(** The loop variable [sample] after the loop: the last slice, and not bound
    at all when the loop body never ran. *)
Definition loop_variable {A : Type} (name : string) (l : list A) : result A :=
  match last l with
  | Some x => Ok x
  | None => Raise (NameError name)
  end.

Record _Observables : Type := {
  n_replica : nat;
  n_sample : nat;
  n_bootstrap : option Z;
  lattice_shape : nat * nat;
  func : tensor R → result (tensor R);
  _computed : tensor R
}.

(** The constructor.  Its state is the [samples] tensor of the caller, which
    [unsqueeze_] and [squeeze_] reshape in place. *)
Definition _Observables_init (rng : nat → nat → nat)
    (func : tensor R → result (tensor R))
    (contains_replicas : bool) (n_bootstrap : option Z)
  : St (tensor R) _Observables :=
  if contains_replicas && bool_decide (is_Some n_bootstrap)
  then st_lift (Raise (ValueError bootstrapping_message))
  else
    _ ← (if negb contains_replicas then st_modify unsqueeze0 else st_ret tt);
    samples ← st_get;
    '(n_replica, n_sample, lattice_L, lattice_T) ←
       st_lift (unpack4_star (shape samples));
    _ ← st_lift (assert (1 <? n_sample));
    slices ← st_lift (unbind0 samples);
    computed ← st_lift (mapM func slices);
    resampled ←
      match n_bootstrap with
      | None => st_ret []
      | Some nb =>
          _ ← st_modify squeeze0;
          st_lift (mapM (fun k => sample ← loop_variable "sample" slices;
                                  x ← index0 sample (randint rng k n_sample);
                                  func x)
                        (seq 0 (Z.to_nat nb)))
      end;
    stacked ← st_lift (stack (computed ++ resampled));
    st_ret {| n_replica := n_replica;
              n_sample := n_sample;
              n_bootstrap := n_bootstrap;
              lattice_shape := (lattice_L, lattice_T);
              func := func;
              _computed := stacked |}.

(** What the constructor returns once the first check has passed, as a
    function of the tensor it works on: the caller's, with the replica axis
    added when it had none. *)
Definition outcome_of (rng : nat → nat → nat) (func : tensor R → result (tensor R))
    (nb : option Z) (seen : tensor R) : result _Observables :=
  '(a, n, L, T) ← unpack4_star (shape seen);
  _ ← assert (1 <? n);
  slices ← unbind0 seen;
  computed ← mapM func slices;
  resampled ← match nb with
               | None => Ok []
               | Some k =>
                   mapM (fun k => sample ← loop_variable "sample" slices;
                                  x ← index0 sample (randint rng k n);
                                  func x)
                        (seq 0 (Z.to_nat k))
               end;
  stacked ← stack (computed ++ resampled);
  Ok {| n_replica := a; n_sample := n; n_bootstrap := nb;
        lattice_shape := (L, T); func := func; _computed := stacked |}.

(** *** [OnePointObservables.value] *)

Section Value.
Open Scope R_scope.

(** A float that [torch.std] may return: a number, or what a division by
    zero leaves. *)
Inductive float : Type :=
  | Finite (x : R)
  | Inf
  | NaN.

Definition mean (xs : list R) : R := sum_list xs / INR (length xs).

Definition sum_sq_dev (xs : list R) : R :=
  sum_list (map (fun x => (x - mean xs) * (x - mean xs)) xs).

(** [torch.std(xs, correction=c)]: the square root of the sum of squared
    deviations over [max(0, n - c)]. *)
Definition std (correction : Z) (xs : list R) : float :=
  let dof := (Z.of_nat (length xs) - correction)%Z in
  if (0 <? dof)%Z then Finite (sqrt (sum_sq_dev xs / IZR dof))
  else if Req_dec_T (sum_sq_dev xs) 0 then NaN else Inf.

(** The entries of a tensor of [n] slices of [m] entries each that sit at
    position [j] of their slice. *)
Definition column (m n : nat) (entries : list R) (j : nat) : list R :=
  map (fun k => nth (k * m + j)%nat entries 0) (seq 0 n).

(** [torch.std_mean(t, dim=0, correction=c)]: the pair (std, mean), each of
    the shape of one slice.  A tensor of rank 0 is reduced as one of shape
    [(1,)]. *)
Definition std_mean (t : tensor R) (correction : Z) : tensor float * tensor R :=
  let '(n, sh) := match shape t with [] => (1%nat, []) | n :: sh => (n, sh) end in
  let m := numel_of sh in
  (Tensor sh (map (fun j => std correction (column m n (data t) j)) (seq 0 m)),
   Tensor sh (map (fun j => mean (column m n (data t) j)) (seq 0 m))).

(** [reversed] of a pair: an iterator that gives the second component, then
    the first. *)
Definition reversed {A B : Type} (p : A * B) : B * A := (p.2, p.1).

Definition value (self : _Observables) : tensor R * tensor float :=
  reversed (std_mean (_computed self) 1).

(** The sample standard deviation with Bessel's correction, as the spec words
    it: the divisor is [n - 1]. *)
Definition bessel_std (xs : list R) : R :=
  sqrt (sum_list (map (fun x => (x - mean xs) ^ 2) xs) / (INR (length xs) - 1)).

End Value.

(** *** [TwoPointObservables]

    The class has no constructor of its own and no base class: [_computed]
    and [lattice_shape] exist on an object only once someone has set them.
    The computed statistic is a stack of correlators, of shape (rows, L, T),
    kept with that shape and its entries as nested lists. *)

Section TwoPoint.
Open Scope R_scope.

Record array3 : Type := A3 {
  dims : nat * nat * nat;
  cells : list (list (list R))
}.

Record array2 (V : Type) : Type := A2 {
  width : nat;
  lines : list (list V)
}.
Arguments A2 {V} width lines.
Arguments width {V} a.
Arguments lines {V} a.

Record TwoPointObservables : Type := {
  computed_attr : option array3;
  lattice_shape_attr : option (nat * nat)
}.

(** [TwoPointObservables()]: an object with no attribute set. *)
Definition TwoPointObservables_new : TwoPointObservables :=
  {| computed_attr := None; lattice_shape_attr := None |}.

Definition correlator (self : TwoPointObservables) : result array3 :=
  match computed_attr self with
  | Some c => Ok c
  | None => Raise AttributeError
  end.

(** [t.sum(dim=1)] on one correlator: the sum of its [L] rows of [T] entries,
    entry by entry. *)
Definition sum_rows (T : nat) (g : list (list R)) : list R :=
  foldr (zip_with Rplus) (replicate T 0) g.

Definition zero_momentum_correlator (self : TwoPointObservables)
  : result (array2 R) :=
  c ← correlator self;
  let '(_, _, T) := dims c in
  Ok (A2 T (map (sum_rows T) (cells c))).

(** [torch.acosh]: not a number below 1. *)
Definition acosh (x : R) : R := ln (x + sqrt (x * x - 1)).

(** One entry of the effective mass, [acosh((a + b) / (2 c))], with what a
    division by zero gives: infinity on a positive numerator, not a number
    otherwise.  The reals have one zero, which stands for the float [+0.0]. *)
Definition pole_mass (a b c : R) : float :=
  if Req_dec_T c 0 then (if Rlt_dec 0 (a + b) then Inf else NaN)
  else if Rle_dec 1 ((a + b) / (2 * c)) then Finite (acosh ((a + b) / (2 * c)))
  else NaN.

Definition zip_with3 {A B C D : Type} (f : A → B → C → D)
    (xs : list A) (ys : list B) (zs : list C) : list D :=
  zip_with (fun p z => f p.1 p.2 z) (zip xs ys) zs.

(** The slices [g[:, :-2]], [g[:, 2:]] and [g[:, 1:-1]] of a row of width
    [T]. *)
Definition effective_pole_mass (self : TwoPointObservables)
  : result (array2 float) :=
  g_0t ← zero_momentum_correlator self;
  let T := width g_0t in
  Ok (A2 (T - 2)
         (map (fun r => zip_with3 pole_mass
                          (take (T - 2) r) (drop 2 r) (take (T - 2) (drop 1 r)))
              (lines g_0t))).

(** [t.sum(dim=(1, 2))]: one number per row of the stack. *)
Definition susceptibility (self : TwoPointObservables) : result (list R) :=
  c ← correlator self;
  Ok (map (fun g => sum_list (map sum_list g)) (cells c)).

(** [(G[:, 1, 0] + G[:, 0, 1]) / 2]: both indices must exist. *)
Definition cell (g : list (list R)) (x t : nat) : result R :=
  match g !! x ≫= (.!! t) with
  | Some v => Ok v
  | None => Raise IndexError
  end.

Definition energy_density (self : TwoPointObservables) : result (list R) :=
  c ← correlator self;
  let '(_, L, T) := dims c in
  if (L <? 2)%nat || (T <? 2)%nat then Raise IndexError
  else mapM (fun g => a ← cell g 1 0; b ← cell g 0 1; Ok ((a + b) / 2)) (cells c).

(** A stack of correlators is well formed when it has the entries its shape
    announces. *)
Definition well_formed3 (c : array3) : Prop :=
  let '(n, L, T) := dims c in
  length (cells c) = n
  ∧ Forall (fun g => length g = L ∧ Forall (fun r => length r = T) g) (cells c).

End TwoPoint.

Arguments A2 {V} width lines.
Arguments width {V} a.
Arguments lines {V} a.

(** *** Sample sets used in the examples *)

Section Examples.
Open Scope R_scope.

(** Five replicas of two samples each on a 1x1 lattice; replica [i] holds
    the value [i] twice. *)
Definition five_replicas : tensor R :=
  Tensor [5; 2; 1; 1]%nat [1; 1; 2; 2; 3; 3; 4; 4; 5; 5].

(** The series 1..5 as it is, and as five samples on a 1x1 lattice. *)
Definition literal_series : tensor R := Tensor [5%nat] [1; 2; 3; 4; 5].
Definition lattice_series : tensor R := Tensor [5; 1; 1]%nat [1; 2; 3; 4; 5].

(** Two reducers: the identity, and the field value of the first sample. *)
Definition identity (t : tensor R) : result (tensor R) := Ok t.
Definition first_value (t : tensor R) : result (tensor R) :=
  Ok (Tensor [] (take 1 (data t))).

Definition no_rng (k i : nat) : nat := 0%nat.

(** One correlator on a lattice of one site by four times, decaying with
    mass 1, and one on a lattice of two by two. *)
Definition decaying : TwoPointObservables :=
  {| computed_attr :=
       Some (A3 (1, 1, 4)%nat [[map (fun t => 1 * exp (- (1 * INR t))) (seq 0 4)]]);
     lattice_shape_attr := Some (1, 4)%nat |}.

Definition two_by_two : TwoPointObservables :=
  {| computed_attr := Some (A3 (1, 2, 2)%nat [[[4; 1]; [3; 2]]]);
     lattice_shape_attr := Some (2, 2)%nat |}.

(** The sample set the constructor builds from [five_replicas] and
    [first_value]. *)
Definition five_replicas_set : _Observables :=
  {| n_replica := 5; n_sample := 2; n_bootstrap := None;
     lattice_shape := (1%nat, 1%nat); func := first_value;
     _computed := literal_series |}.

End Examples.

End Observables.

(** ** nflow/utils.py *)

Module NflowUtils.

Section Jacobian.

(** Automatic differentiation is not modelled: [jacobian f x] stands for the
    Jacobian of [f] at [x] as [torch.func.jacrev] computes it. *)
Context (jacobian : (tensor R → result (tensor R)) → tensor R → result (tensor R)).

(** [torch.func.jacrev(f, argnums=0, has_aux=True)]: [f] returns a pair; the
    result is the Jacobian of its first component, and its second component
    as it is. *)
Definition jacrev_has_aux (f : tensor R → result (tensor R * tensor R)) (x : tensor R)
  : result (tensor R * tensor R) :=
  out ← f x;
  jac ← jacobian (fun x' => fst <$> f x') x;
  Ok (jac, out.2).

(** [torch.vmap(f)]: [f] on every slice along the leading axis, the two
    outputs stacked. *)
Definition vmap (f : tensor R → result (tensor R * tensor R)) (inputs : tensor R)
  : result (tensor R * tensor R) :=
  slices ← unbind0 inputs;
  outs ← mapM f slices;
  a ← stack (outs.*1);
  b ← stack (outs.*2);
  Ok (a, b).

(** Anything with the two methods [get_model_jacobian] calls. *)
Record model : Type := {
  sample_base : nat → result (tensor R * tensor R);
  flow_forward : tensor R → result (tensor R * tensor R)
}.

(** What [get_jacobian] runs on one sample: the transform on a batch of
    one, its first output without the batch axis. *)
Definition per_sample (transform : tensor R → result (tensor R * tensor R))
    (input : tensor R) : result (tensor R) :=
  out ← transform (unsqueeze0 input); Ok (squeeze0 out.1).

Definition get_jacobian (transform : tensor R → result (tensor R * tensor R))
    (inputs : tensor R) : result (tensor R * tensor R * tensor R) :=
  let forward (input : tensor R) : result (tensor R * tensor R) :=
    out ← transform (unsqueeze0 input);
    let output := squeeze0 out.1 in
    Ok (output, output) in
  '(jac, outputs) ← vmap (jacrev_has_aux forward) inputs;
  Ok (jac, inputs, outputs).

Definition get_model_jacobian (m : model) (batch_size : nat)
  : result (tensor R * tensor R * tensor R) :=
  '(inputs, _) ← sample_base m batch_size;
  get_jacobian (flow_forward m) inputs.

End Jacobian.

End NflowUtils.

(** ** scalar/flows/coupling.py *)

Module Flows.

Section Model.
Open Scope R_scope.

(** The model owns its lattice length, the target action and the flow; the
    last two are built by code that is not among the source files. *)
Record Model : Type := {
  lattice_length : nat;
  target_action : tensor R → result (tensor R);
  flow : tensor R → result (tensor R * tensor R)
}.

Definition flow_forward (self : Model) (z : tensor R) : result (tensor R * tensor R) :=
  flow self z.

(** [base]: [normal_] fills the new tensor; entry [i] of the draw is
    [noise i].  [S_z] is half the sum of squares of each sample. *)
Definition base (noise : nat → R) (self : Model) (batch_size : nat)
  : tensor R * tensor R :=
  let sample_shape := [lattice_length self; lattice_length self; 1%nat] in
  let z := Tensor (batch_size :: sample_shape)
                  (map noise (seq 0 (numel_of (batch_size :: sample_shape)))) in
  let S_z :=
    Tensor [batch_size; 1%nat]
           (map (fun b => sum_list (map (fun x => 0.5 * x * x)
                                        (data (slice0 sample_shape (data z) b))))
                (seq 0 batch_size)) in
  (z, S_z).

Definition target (self : Model) (φ : tensor R) : result (tensor R) :=
  target_action self φ.

(** Modelled from the spec: [sample_base] belongs to the model base class
    [torchlft.nflow.model.Model], which is not among the source files; by the
    spec a model draws its base samples, with their base action, from its
    base distribution, which here is [base]. *)
Definition sample_base (noise : nat → R) (self : Model) (batch_size : nat)
  : result (tensor R * tensor R) :=
  Ok (base noise self batch_size).

(** The model as [get_model_jacobian] sees it. *)
Definition as_model (noise : nat → R) (self : Model) : NflowUtils.model :=
  {| NflowUtils.sample_base := sample_base noise self;
     NflowUtils.flow_forward := flow_forward self |}.

(** A model on a 2x2 lattice whose flow is the identity, and a stand-in for
    the derivative, used in the examples. *)
Definition identity_model : Model :=
  {| lattice_length := 2;
     target_action := fun φ => Ok φ;
     flow := fun z => Ok (z, Tensor [hd 0%nat (shape z); 1%nat]
                               (replicate (hd 0%nat (shape z)) 0)) |}.

Definition no_autodiff (f : tensor R → result (tensor R)) (x : tensor R)
  : result (tensor R) := Ok x.

End Model.

End Flows.

(** ** Theorems *)

(** Inversion of a bind that returned. *)
Lemma bind_Ok {A B : Type} (m : result A) (k : A → result B) (b : B) :
  (m ≫= k) = Ok b → ∃ a, m = Ok a ∧ k a = Ok b.
Proof. destruct m as [a|e]; simpl; [eauto | discriminate]. Qed.

Lemma bind_Ok_l {A B : Type} (a : A) (k : A → result B) : (Ok a ≫= k) = k a.
Proof. reflexivity. Qed.

Lemma bind_Raise_l {A B : Type} (e : exn) (k : A → result B) :
  (Raise e ≫= k) = Raise e.
Proof. reflexivity. Qed.

(** A comprehension returns when its body returns on every element. *)
Lemma mapM_total_in {A B : Type} (f : A → result B) (P : B → Prop) (l : list A) :
  (∀ x, x ∈ l → ∃ y, f x = Ok y ∧ P y) →
  ∃ ys, mapM f l = Ok ys ∧ length ys = length l ∧ Forall P ys.
Proof.
  induction l as [|x l IH]; intros Hf.
  - exists []. by repeat split.
  - destruct (Hf x) as (y & Hy & HP); [by left|].
    destruct IH as (ys & Hys & Hlen & HPs); [intros z Hz; apply Hf; by right|].
    exists (y :: ys). simpl. rewrite Hy. simpl. rewrite Hys. simpl.
    repeat split; [by f_equal | by constructor].
Qed.

Lemma mapM_ext {A B : Type} (f g : A → result B) (l : list A) :
  (∀ x, f x = g x) → mapM f l = mapM g l.
Proof.
  intros H. induction l as [|x l IH]; [done|]. simpl. by rewrite H, IH.
Qed.

Ltac inv_bind H :=
  let a := fresh "a" in
  let Ha := fresh "Ha" in
  apply bind_Ok in H; destruct H as (a & Ha & H).

Module LayersFacts.
Import Layers.

Example shifts_radius_1_value :
  CouplingLayer_shifts 1 = Ok [[0; -1]; [-1; 0]; [1; 0]; [0; 1]]%Z.
Proof. reflexivity. Qed.

(** *** [GlobalRescalingLayer] *)

Section RescalingFacts.
Open Scope R_scope.

Lemma ln_2_pos : 0 < ln 2.
Proof. rewrite <- ln_1. apply ln_increasing; lra. Qed.

(** The effective scale of a new layer is one. *)
Lemma softplus_ln2_0 : softplus (ln 2) 0 = 1.
Proof.
  unfold softplus. rewrite Rmult_0_r.
  destruct (Rlt_dec 20 0) as [H|_]; [lra|].
  rewrite exp_0. replace (1 + 1) with 2 by lra.
  field. pose proof ln_2_pos. lra.
Qed.

(** The effective scale is positive whatever the raw parameter, so the
    rescaling can be undone and its log-det is defined. *)
Lemma softplus_ln2_pos (x : R) : 0 < softplus (ln 2) x.
Proof.
  pose proof ln_2_pos as H2. unfold softplus.
  destruct (Rlt_dec 20 (ln 2 * x)) as [H|_].
  - destruct (Rle_or_lt x 0) as [Hx|Hx]; [|done].
    assert (ln 2 * x <= 0) by nra. lra.
  - apply Rdiv_lt_0_compat; [|done].
    rewrite <- ln_1. apply ln_increasing; [lra|].
    pose proof (exp_pos (ln 2 * x)). lra.
Qed.

Lemma map_Rmult_1 (l : list R) : map (Rmult 1) l = l.
Proof. induction l as [|x l IH]; simpl; [done|]. rewrite IH. f_equal. lra. Qed.

(** C2, as the code has it: with the scale parameter at zero and a batch of
    at least one sample, [forward] returns the input itself and a column of
    [batch] zeros, of shape [(batch, 1)]. *)
Theorem GlobalRescalingLayer_identity (n : nat) (sample_shape : list nat) (entries : list R) :
  GlobalRescalingLayer_forward GlobalRescalingLayer_init
      (Tensor (S n :: sample_shape) entries)
  = Ok (Tensor (S n :: sample_shape) entries,
        Tensor [S n; 1%nat] (replicate (S n) 0)).
Proof.
  unfold GlobalRescalingLayer_forward, GlobalRescalingLayer_init.
  cbn [scale shape data hd].
  rewrite softplus_ln2_0, map_Rmult_1, ln_1, Rmult_0_l. reflexivity.
Qed.

(** On an empty batch [z[0]] raises, so no output is returned there. *)
Lemma GlobalRescalingLayer_empty_batch :
  GlobalRescalingLayer_forward GlobalRescalingLayer_init (Tensor [0%nat; 4%nat] [])
  = Raise IndexError.
Proof. reflexivity. Qed.

End RescalingFacts.

(** *** [DenseCouplingLayer] *)

Section DenseFacts.
Context {V J C : Type}.
Local Abbreviation tensor2 := (@tensor2 V).
Local Abbreviation layer := (@DenseCouplingLayer V J C).

Lemma zip_take_drop (k : nat) (rs : list (list V)) :
  zip_with app (map (take k) rs) (map (drop k) rs) = rs.
Proof.
  induction rs as [|r rs IH]; simpl; [done|].
  by rewrite take_drop, IH.
Qed.

Lemma half_le (D : nat) : (D + 1) / 2 ≤ D.
Proof.
  pose proof (Nat.div_mod_eq (D + 1) 2).
  pose proof (Nat.mod_upper_bound (D + 1) 2). lia.
Qed.

Lemma cat1_tensor_split2 (t : tensor2) :
  cat1 (tensor_split2 t).1 (tensor_split2 t).2 = Ok t.
Proof.
  destruct t as [D rs]. unfold cat1, tensor_split2. cbn [fst snd ncol rows].
  rewrite bool_decide_eq_true_2 by (by rewrite !length_map).
  rewrite zip_take_drop. do 2 f_equal. pose proof (half_le D). lia.
Qed.

(** Splitting a row made of two pieces of known lengths gives them back. *)
Lemma split_zip_app (k : nat) (xs ys : list (list V)) :
  Forall (fun r => length r = k) xs →
  length xs = length ys →
  map (take k) (zip_with app xs ys) = xs ∧ map (drop k) (zip_with app xs ys) = ys.
Proof.
  intros Hk. revert ys. induction Hk as [|x xs Hx _ IH]; intros [|y ys] Hlen;
    simpl in *; try done.
  destruct (IH ys) as [-> ->]; [lia|].
  rewrite take_app_length', drop_app_length' by done. done.
Qed.

Lemma is_odd_Z_odd (layer_id : Z) : is_odd layer_id = Z.odd layer_id.
Proof.
  unfold is_odd. rewrite Zmod_odd. by destruct (Z.odd layer_id).
Qed.

Lemma half_even (D : nat) : Nat.even D = true → (D + 1) / 2 = D / 2 ∧ D - D / 2 = D / 2.
Proof.
  intros [h ->]%Nat.even_spec.
  assert ((2 * h + 1) / 2 = h) as -> by (symmetry; apply (Nat.div_unique _ 2 h 1); lia).
  assert ((2 * h) / 2 = h) as -> by (symmetry; apply (Nat.div_unique _ 2 h 0); lia).
  lia.
Qed.

(** C3.  On an even feature count [split] cuts the input into its first and
    its second half of the columns, each of half the width; the first half
    is the active one when [layer_id] is even and the passive one when it is
    odd.  [join] undoes [split], whatever the layer id and the input; and
    when the active half is replaced by a tensor of the same shape, as
    [forward] does, splitting the joined tensor gives back the replaced
    active half and the untouched passive half, each at the columns it came
    from. *)
Theorem DenseCouplingLayer_join_split (self : layer) (φ_in : tensor2) :
  join self (split self φ_in).1 (split self φ_in).2 = Ok φ_in
  ∧ (Nat.even (ncol φ_in) = true →
     let h := ncol φ_in / 2 in
     let first_half := T2 h (map (take h) (rows φ_in)) in
     let second_half := T2 h (map (drop h) (rows φ_in)) in
     split self φ_in
     = (if Z.odd (dense_layer_id self) then (second_half, first_half)
        else (first_half, second_half))
     ∧ ncol (split self φ_in).1 = h ∧ ncol (split self φ_in).2 = h
     ∧ ncol (split self φ_in).1 + ncol (split self φ_in).2 = ncol φ_in)
  ∧ (Nat.even (ncol φ_in) = true → well_formed2 φ_in →
     ∀ φ_a' : tensor2,
       well_formed2 φ_a' →
       ncol φ_a' = ncol (split self φ_in).1 →
       length (rows φ_a') = length (rows φ_in) →
       ∃ φ_out, join self φ_a' (split self φ_in).2 = Ok φ_out
                ∧ ncol φ_out = ncol φ_in
                ∧ split self φ_out = (φ_a', (split self φ_in).2)).
Proof.
  split; [|split].
  - unfold join, split.
    pose proof (cat1_tensor_split2 φ_in) as H.
    destruct (tensor_split2 φ_in) as [A B]. by destruct (is_odd _).
  - intros Heven h first_half second_half.
    destruct (half_even _ Heven) as [Hup Hrest]. fold h in Hup, Hrest.
    assert (Hsplit : split self φ_in
                     = (if Z.odd (dense_layer_id self) then (second_half, first_half)
                        else (first_half, second_half))).
    { unfold split, tensor_split2. rewrite is_odd_Z_odd, Hup, Hrest.
      by destruct (Z.odd (dense_layer_id self)). }
    split; [exact Hsplit|]. rewrite Hsplit.
    assert (Hh : h + h = ncol φ_in).
    { apply Nat.even_spec in Heven as [k Hk]. subst h. rewrite Hk.
      assert ((2 * k) / 2 = k) as -> by (symmetry; apply (Nat.div_unique _ 2 k 0); lia).
      lia. }
    by destruct (Z.odd (dense_layer_id self)).
  - intros Heven Hwf [w a'] Hwf' Hw Hlen.
    apply Nat.even_spec in Heven as [h Hh].
    destruct φ_in as [D rs]. cbn [ncol rows] in *. subst D.
    assert (Hk : (2 * h + 1) / 2 = h).
    { symmetry. apply (Nat.div_unique _ 2 h 1); lia. }
    unfold well_formed2 in *. cbn [ncol rows] in *.
    unfold join, split, tensor_split2, cat1 in *. cbn [ncol rows] in *.
    rewrite Hk in *.
    destruct (is_odd (dense_layer_id self)); cbn [fst snd ncol rows] in *; subst w.
    + rewrite bool_decide_eq_true_2 by (by rewrite length_map).
      eexists. split; [done|]. cbn [ncol rows]. split; [lia|].
      replace ((h + (2 * h - h) + 1) / 2) with h
        by (replace (h + (2 * h - h) + 1) with (2 * h + 1) by lia; done).
      destruct (split_zip_app h (map (take h) rs) a') as [-> ->].
      * apply Forall_map. eapply Forall_impl; [exact Hwf|].
        intros r Hr. simpl in *. rewrite length_take. lia.
      * by rewrite length_map.
      * do 2 f_equal. lia.
    + rewrite bool_decide_eq_true_2 by (by rewrite length_map).
      eexists. split; [done|]. cbn [ncol rows]. split; [lia|].
      replace ((h + (2 * h - h) + 1) / 2) with h
        by (replace (h + (2 * h - h) + 1) with (2 * h + 1) by lia; done).
      destruct (split_zip_app h a' (map (drop h) rs)) as [-> ->].
      * done.
      * by rewrite length_map.
      * do 2 f_equal. lia.
Qed.

(** [forward] refuses an odd feature count before it does anything else. *)
Lemma DenseCouplingLayer_forward_odd (view_context : tensor2 → nat * nat → result C)
    (self : layer) (φ_in : tensor2) :
  Nat.odd (ncol φ_in) = true →
  DenseCouplingLayer_forward view_context self φ_in = Raise AssertionError.
Proof.
  intros Hodd. unfold DenseCouplingLayer_forward.
  replace (ncol φ_in mod 2 =? 0) with false; [done|].
  symmetry. apply Nat.eqb_neq. intros H0.
  apply Nat.odd_spec in Hodd as [k Hk]. rewrite Hk in H0.
  replace (2 * k + 1) with (1 + k * 2) in H0 by lia.
  rewrite Nat.Div0.mod_add in H0. discriminate.
Qed.

End DenseFacts.

Lemma DenseCouplingLayer_forward_odd_witness :
  Nat.odd (ncol (T2 3 [[1; 2; 3]]%Z)) = true
  ∧ DenseCouplingLayer_forward (fun _ _ => Ok tt) dense_layer_1 (T2 3 [[1; 2; 3]]%Z)
    = Raise AssertionError.
Proof.
  split; [reflexivity|].
  apply (DenseCouplingLayer_forward_odd (fun _ _ => Ok tt) dense_layer_1).
  reflexivity.
Defined.

Lemma DenseCouplingLayer_join_split_witness :
  join dense_layer_1 (split dense_layer_1 features_4).1 (split dense_layer_1 features_4).2
  = Ok features_4
  ∧ split dense_layer_1 features_4 = (T2 2 [[3; 4]]%Z, T2 2 [[1; 2]]%Z)
  ∧ ∃ φ_out, join dense_layer_1 new_active_2 (split dense_layer_1 features_4).2 = Ok φ_out
             ∧ ncol φ_out = ncol features_4
             ∧ split dense_layer_1 φ_out
               = (new_active_2, (split dense_layer_1 features_4).2).
Proof.
  destruct (DenseCouplingLayer_join_split dense_layer_1 features_4)
    as (Hjoin & Hhalves & Hsplit).
  split; [exact Hjoin|]. split.
  - exact (proj1 (Hhalves eq_refl)).
  - apply Hsplit; try reflexivity; repeat constructor.
Defined.

(** *** [CouplingLayer.__init__] *)

Section SelectFacts.
Context {A : Type}.

(** Boolean-mask indexing returns exactly the entries whose bit is set. *)
Lemma select_row_elem (mask : list bool) :
  ∀ (row l : list A), select_row mask row = Ok l →
    ∀ x, x ∈ l ↔ ∃ j, mask !! j = Some true ∧ row !! j = Some x.
Proof.
  induction mask as [|b mask IH]; intros row l H x.
  - destruct row; [|discriminate]. injection H as <-.
    split; [by intros ?%elem_of_nil | by intros (j & ? & _)].
  - destruct row as [|y row]; [discriminate|]. simpl in H.
    inv_bind H. injection H as <-. specialize (IH _ _ Ha x).
    destruct b.
    + rewrite elem_of_cons, IH. split.
      * intros [->|(j & Hm & Hr)]; [by exists 0 | by exists (S j)].
      * intros ([|j] & Hm & Hr); simpl in *; [left; congruence | right; eauto].
    + rewrite IH. split.
      * intros (j & Hm & Hr). by exists (S j).
      * intros ([|j] & Hm & Hr); simpl in *; [discriminate | eauto].
Qed.

Lemma select_row_total (mask : list bool) :
  ∀ row : list A, length mask = length row → ∃ l, select_row mask row = Ok l.
Proof.
  induction mask as [|b mask IH]; intros [|y row] Hlen; simpl in *; try lia.
  - by exists [].
  - destruct (IH row) as [l ->]; [lia|]. simpl. eauto.
Qed.

Lemma masked_select_elem (mask : list (list bool)) :
  ∀ (t : list (list A)) (l : list A), masked_select mask t = Ok l →
    ∀ x, x ∈ l ↔ ∃ i j, mask_at mask i j = Some true ∧ (r ← t !! i; r !! j) = Some x.
Proof.
  induction mask as [|m mask IH]; intros t l H x.
  - destruct t; [|discriminate]. injection H as <-.
    split; [by intros ?%elem_of_nil | by intros (i & j & ? & _)].
  - destruct t as [|r t]; [discriminate|]. simpl in H.
    inv_bind H. inv_bind H. injection H as <-.
    rewrite elem_of_app, (select_row_elem _ _ _ Ha x), (IH _ _ Ha0 x).
    unfold mask_at. split.
    + intros [(j & Hm & Hr)|(i & j & Hm & Hr)]; [by exists 0, j | by exists (S i), j].
    + intros ([|i] & j & Hm & Hr); simpl in *; [left | right]; eauto.
Qed.

Lemma masked_select_total (mask : list (list bool)) :
  ∀ t : list (list A), Forall2 (fun m r => length m = length r) mask t →
    ∃ l, masked_select mask t = Ok l.
Proof.
  intros t H. induction H as [|m r mask t Hlen _ [l IH]]; simpl.
  - by exists [].
  - destruct (select_row_total m r Hlen) as [here ->]. rewrite IH. simpl. eauto.
Qed.

End SelectFacts.

Lemma lookup_map_seq {A : Type} (f : nat → A) (n i : nat) :
  map f (seq 0 n) !! i = if decide (i < n) then Some (f i) else None.
Proof.
  change (map f (seq 0 n)) with (f <$> seq 0 n). rewrite list_lookup_fmap.
  case_decide.
  - by rewrite lookup_seq_lt.
  - by rewrite lookup_seq_ge by lia.
Qed.

Lemma tabulate_lookup {A : Type} (n m : nat) (f : nat → nat → A) (i j : nat) :
  (r ← tabulate n m f !! i; r !! j)
  = if decide (i < n ∧ j < m) then Some (f i j) else None.
Proof.
  unfold tabulate. rewrite lookup_map_seq.
  destruct (decide (i < n)); simpl.
  - rewrite lookup_map_seq. repeat case_decide; try done; lia.
  - case_decide; [lia | done].
Qed.

Lemma removelast_map_seq {A : Type} (f : nat → A) (n : nat) :
  removelast (map f (seq 0 (S n))) = map f (seq 0 n).
Proof. rewrite seq_S, map_app. simpl. apply removelast_last. Qed.

Lemma drop_last2_tabulate {A : Type} (n m : nat) (f : nat → nat → A) :
  drop_last2 (tabulate (S n) (S m) f) = tabulate n m f.
Proof.
  unfold drop_last2, tabulate. rewrite removelast_map_seq, map_map.
  apply map_ext. intros i. apply removelast_map_seq.
Qed.

Lemma zip_with_diag {A B C : Type} (f : A → B → C) (h : A → B) (l : list A) :
  zip_with f l (map h l) = map (fun x => f x (h x)) l.
Proof. induction l as [|x l IH]; simpl; [done | by rewrite IH]. Qed.

Lemma zip_with_map_same {A B C D : Type} (f : B → C → D) (g : A → B) (h : A → C)
    (l : list A) :
  zip_with f (map g l) (map h l) = map (fun x => f (g x) (h x)) l.
Proof. induction l as [|x l IH]; simpl; [done | by rewrite IH]. Qed.

Lemma Forall2_map_same {A B C : Type} (R : B → C → Prop) (F : A → B) (G : A → C)
    (l : list A) :
  (∀ x, R (F x) (G x)) → Forall2 R (map F l) (map G l).
Proof. intros H. induction l; simpl; constructor; auto. Qed.

Lemma checker_tabulate (radius : Z) :
  CouplingLayer_checker radius
  = tabulate (Z.to_nat (2 * radius + 1)) (Z.to_nat (2 * radius + 1))
             (fun i j => Nat.even (i + j + 1)).
Proof.
  unfold CouplingLayer_checker, checkerboard_mask. cbn [fst snd].
  destruct (decide (0 ≤ 2 * radius + 1)%Z) as [Hr|Hr].
  - replace (Z.to_nat (2 * radius + 1 + 1)) with (S (Z.to_nat (2 * radius + 1))) by lia.
    apply (drop_last2_tabulate _ _ (fun i j => Nat.even (i + j + 1))).
  - replace (Z.to_nat (2 * radius + 1 + 1)) with 0 by lia.
    by replace (Z.to_nat (2 * radius + 1)) with 0 by lia.
Qed.

Lemma shifts_grid_tabulate (a b : Z) :
  let xs := map (fun i => (a + Z.of_nat i)%Z) (seq 0 (Z.to_nat (b - a))) in
  stack_last (meshgrid_xy xs xs)
  = tabulate (Z.to_nat (b - a)) (Z.to_nat (b - a))
             (fun i j => [a + Z.of_nat j; a + Z.of_nat i]%Z).
Proof.
  intros xs. unfold stack_last, meshgrid_xy, tabulate. cbn [fst snd].
  rewrite zip_with_map_same. unfold xs at 3. rewrite map_map.
  apply map_ext. intros i. rewrite zip_with_diag. unfold xs. by rewrite map_map.
Qed.

(** For every radius that is not negative the constructor keeps the offsets
    of the window whose two components have an odd sum, and no others. *)
Lemma CouplingLayer_shifts_any_radius (radius : Z) :
  (0 ≤ radius)%Z →
  ∃ l, CouplingLayer_shifts radius = Ok l
       ∧ ∀ shift, shift ∈ l ↔
           ∃ dx dy : Z, shift = [dx; dy]
             ∧ (- radius ≤ dx ≤ radius)%Z ∧ (- radius ≤ dy ≤ radius)%Z
             ∧ Z.odd (dx + dy) = true.
Proof.
  intros Hr. unfold CouplingLayer_shifts, arange.
  replace (radius + 1 <? - radius)%Z with false by (symmetry; apply Z.ltb_ge; lia).
  rewrite !bind_Ok_l, shifts_grid_tabulate, checker_tabulate.
  replace (radius + 1 - - radius)%Z with (2 * radius + 1)%Z by lia.
  set (n := Z.to_nat (2 * radius + 1)).
  destruct (masked_select_total
              (tabulate n n (fun i j => Nat.even (i + j + 1)))
              (tabulate n n (fun i j => [- radius + Z.of_nat j; - radius + Z.of_nat i]%Z)))
    as [l Hl].
  { apply Forall2_map_same. intros i. by rewrite !length_map. }
  exists l. split; [done|]. intros shift.
  rewrite (masked_select_elem _ _ _ Hl). split.
  - intros (i & j & Hm & Ht). rewrite tabulate_lookup in Ht.
    unfold mask_at in Hm. rewrite tabulate_lookup in Hm.
    case_decide as Hij; [|discriminate]. injection Ht as <-. injection Hm as Hm.
    exists (- radius + Z.of_nat j)%Z, (- radius + Z.of_nat i)%Z.
    split; [done|]. split; [lia|]. split; [lia|].
    apply Nat.even_spec in Hm as [k Hk].
    rewrite Z.odd_spec. exists (Z.of_nat k - radius - 1)%Z. lia.
  - intros (dx & dy & -> & Hx & Hy & Hodd).
    exists (Z.to_nat (dy + radius)), (Z.to_nat (dx + radius)).
    unfold mask_at. rewrite !tabulate_lookup.
    rewrite !decide_True by lia. split.
    + f_equal. apply Nat.even_spec. apply Z.odd_spec in Hodd as [k Hk].
      exists (Z.to_nat (k + radius + 1)). lia.
    + do 2 f_equal; [|f_equal]; lia.
Qed.

Lemma CouplingLayer_shifts_any_radius_witness :
  (0 ≤ 2)%Z
  ∧ ∃ l, CouplingLayer_shifts 2 = Ok l
         ∧ ∀ shift, shift ∈ l ↔
             ∃ dx dy : Z, shift = [dx; dy]
               ∧ (- 2 ≤ dx ≤ 2)%Z ∧ (- 2 ≤ dy ≤ 2)%Z
               ∧ Z.odd (dx + dy) = true.
Proof.
  assert (H : (0 ≤ 2)%Z) by lia.
  split; [exact H|]. exact (CouplingLayer_shifts_any_radius 2 H).
Defined.

(** C4.  With radius 1 the constructor derives exactly four offsets, the
    four orthogonal unit steps; the centre and the diagonals are not among
    them. *)
Theorem CouplingLayer_shifts_radius_1 :
  ∃ l : list (list Z),
    CouplingLayer_shifts 1 = Ok l ∧
    length l = 4 ∧
    (∀ shift, shift ∈ l ↔ shift ∈ [[1; 0]; [-1; 0]; [0; 1]; [0; -1]]%Z) ∧
    ([0; 0]%Z ∉ l) ∧
    (∀ dx dy : Z, Z.abs dx = 1%Z → Z.abs dy = 1%Z → [dx; dy] ∉ l).
Proof.
  exists [[0; -1]; [-1; 0]; [1; 0]; [0; 1]]%Z.
  split; [reflexivity|]. split; [reflexivity|]. split; [|split].
  - intros shift. rewrite !elem_of_cons, !elem_of_nil. tauto.
  - rewrite !elem_of_cons, elem_of_nil. intros [H|[H|[H|[H|[]]]]]; discriminate.
  - intros dx dy Hx Hy. rewrite !elem_of_cons, elem_of_nil.
    intros [H|[H|[H|[H|[]]]]]; injection H as -> ->; discriminate.
Qed.

(** *** [UpscalingLayer] *)

(** C9, as the code has it: on a rank-4 input [forward] returns [None]
    without raising when the channel count is a multiple of 4, and fails its
    assertion otherwise. *)
Theorem UpscalingLayer_forward_rank4 {V : Type} (N L T n : nat) (entries : list V) :
  UpscalingLayer_forward (Tensor [N; L; T; n] entries)
  = if (n mod 4 =? 0)%nat then Ok None else Raise AssertionError.
Proof.
  unfold UpscalingLayer_forward. cbn [shape unpack4].
  unfold mbind, result_bind, Py.bind, assert. cbv beta iota.
  destruct (n mod 4 =? 0)%nat; reflexivity.
Qed.

(** A batch with four channels: nothing is raised, and nothing is returned. *)
Lemma UpscalingLayer_forward_silent :
  UpscalingLayer_forward (Tensor [1; 2; 2; 4] (replicate 16 0%Z)) = Ok None
  ∧ UpscalingLayer_forward (Tensor [1; 2; 2; 4] (replicate 16 0%Z))
    ≠ Raise NotImplementedError.
Proof. split; [reflexivity | discriminate]. Qed.

Section CouplingFacts.
Context {V J : Type} (mask_mul : bool → V → V).
Local Abbreviation site := (list V).
Local Abbreviation grid := (list (list (list V))).
Local Abbreviation mask2 := (list (list bool)).
Local Abbreviation tensor4 := (@tensor4 V).
Local Abbreviation store := (list tensor4).
Local Abbreviation ref := nat.

(** An in-place masked write leaves every site whose mask bit is not set
    as it was, and keeps the length of the row. *)
Lemma scatter_row_frame (mask : list bool) :
  ∀ (row : list site) vals p,
    scatter_row mask row vals = Ok p →
    length p.1 = length row ∧ length mask = length row ∧
    ∀ j, mask !! j ≠ Some true → p.1 !! j = row !! j.
Proof.
  induction mask as [|b mask IH]; intros row vals p H.
  - destruct row; simpl in H; [|discriminate]. injection H as <-. simpl.
    repeat split. 
  - destruct row as [|x row]; [destruct b; discriminate|].
    destruct b; simpl in H.
    + destruct vals as [|v vals]; [discriminate|].
      case_bool_decide; [|discriminate].
      inv_bind H. injection H as <-. simpl.
      destruct (IH _ _ _ Ha) as (Hl & Hm & Hf).
      repeat split; [lia | lia |].
      intros [|j] Hj; simpl in *; [congruence | auto].
    + inv_bind H. injection H as <-. simpl.
      destruct (IH _ _ _ Ha) as (Hl & Hm & Hf).
      repeat split; [lia | lia |].
      intros [|j] Hj; simpl in *; [done | auto].
Qed.

Lemma scatter_grid_frame (mask : mask2) :
  ∀ (g : grid) vals p,
    scatter_grid mask g vals = Ok p →
    length p.1 = length g ∧
    ∀ i j, mask_at mask i j ≠ Some true →
           (r ← p.1 !! i; r !! j) = (r ← g !! i; r !! j).
Proof.
  induction mask as [|m mask IH]; intros g vals p H.
  - destruct g; simpl in H; [|discriminate]. injection H as <-. done.
  - destruct g as [|r g]; [discriminate|]. simpl in H.
    inv_bind H. inv_bind H. injection H as <-. simpl.
    destruct (scatter_row_frame _ _ _ _ Ha) as (_ & _ & Hrow).
    destruct (IH _ _ _ Ha0) as (Hl & Hg).
    split; [by f_equal|].
    intros [|i] j Hm; simpl in *; [apply Hrow, Hm | apply Hg, Hm].
Qed.

Lemma scatter4_frame (mask : mask2) :
  ∀ (gs : list grid) vals gs',
    scatter4 mask gs vals = Ok gs' →
    length gs' = length gs ∧
    ∀ b i j, mask_at mask i j ≠ Some true →
             (g ← gs' !! b; r ← g !! i; r !! j) = (g ← gs !! b; r ← g !! i; r !! j).
Proof.
  induction gs as [|g gs IH]; intros vals gs' H.
  - destruct vals; simpl in H; [|discriminate]. injection H as <-. done.
  - destruct vals as [|v vals]; [discriminate|]. simpl in H.
    inv_bind H. destruct (a.2) eqn:Hrest; [|discriminate].
    inv_bind H. injection H as <-.
    destruct (scatter_grid_frame _ _ _ _ Ha) as (_ & Hg).
    destruct (IH _ _ Ha0) as (Hl & Hgs).
    split; [simpl; by f_equal|].
    intros [|b] i j Hm; simpl; [apply Hg, Hm | apply Hgs, Hm].
Qed.

(** The part the two [forward] methods share: clone the input, transform
    the selected sites, write them into the clone. *)
Lemma write_active_frame (s s1 s2 : store) (φ_in φ_out : ref) (t : tensor4)
    (mask : mask2) (y : list (list site)) :
  s !! φ_in = Some t →
  clone s φ_in = Ok (s1, φ_out) →
  setitem s1 φ_out mask y = Ok s2 →
  φ_out = length s ∧
  (∀ r, r < length s → s2 !! r = s !! r) ∧
  ∃ t_out, s2 !! φ_out = Some t_out ∧ dims4 t_out = dims4 t ∧
    ∀ b i j, mask_at mask i j ≠ Some true → site_at t_out b i j = site_at t b i j.
Proof.
  intros Hin Hclone Hset.
  unfold clone, read in Hclone. rewrite Hin in Hclone. simpl in Hclone.
  injection Hclone as <- <-.
  unfold setitem, read in Hset.
  rewrite lookup_app_r in Hset by lia.
  replace (length s - length s) with 0 in Hset by lia. simpl in Hset.
  inv_bind Hset. injection Hset as <-.
  destruct (scatter4_frame _ _ _ _ Ha) as (_ & Hframe).
  split; [done|]. split.
  - intros r Hr. rewrite list_lookup_insert_ne by lia.
    by rewrite lookup_app_l.
  - eexists. split.
    + apply list_lookup_insert_eq. rewrite length_app. simpl. lia.
    + split; [done|]. intros b i j Hm. unfold site_at. simpl. by apply Hframe.
Qed.

Lemma read_Ok (s : store) (r : ref) (t : tensor4) : read s r = Ok t → s !! r = Some t.
Proof. unfold read. destruct (s !! r); [congruence | discriminate]. Qed.

Lemma frame_ok_intro (mask : mask2) (s s1 s2 : store) (φ_in φ_out : ref)
    (t : tensor4) (y : list (list site)) :
  s !! φ_in = Some t →
  clone s φ_in = Ok (s1, φ_out) →
  setitem s1 φ_out mask y = Ok s2 →
  frame_ok mask s s2 φ_in φ_out.
Proof.
  intros Hin Hclone Hset.
  destruct (write_active_frame _ _ _ _ _ _ _ _ Hin Hclone Hset)
    as (-> & Hold & t_out & Hout & Hdims & Hframe).
  assert (Hlt : φ_in < length s) by (eapply lookup_lt_Some; eauto).
  exists t, t_out. repeat split; auto.
  - by rewrite Hold.
  - lia.
  - intros b i j Hm. apply Hframe. congruence.
  - intros b i j Hne.
    destruct (decide (mask_at mask i j = Some true)) as [|Hm]; [done|].
    destruct Hne. by apply Hframe.
Qed.

Lemma ConvCouplingLayer_forward_frame (l : ConvCouplingLayer) (s s' : store)
    (φ_in φ_out : ref) (ldj : J) :
  ConvCouplingLayer_forward mask_mul l s φ_in = (s', Ok (φ_out, ldj)) →
  frame_ok (active_mask_of (Conv l) (default (T4 (0, 0, 0, 0) []) (s !! φ_in)))
           s s' φ_in φ_out.
Proof.
  unfold ConvCouplingLayer_forward, active_mask_of. intros H.
  destruct (read s φ_in) as [t|] eqn:Hread; [|by inversion H].
  apply read_Ok in Hread. rewrite Hread. simpl.
  destruct (dims4 t) as [[[n L] T] c].
  destruct (conv_partitioning l (L, T)) as [active frozen]. simpl.
  destruct (_ ≫= _) as [context|] in H; [|by inversion H].
  destruct (clone s φ_in) as [[s1 out]|] eqn:Hclone; [|by inversion H].
  destruct (_ ≫= _) as [[y ldj']|] in H; [|by inversion H].
  destruct (setitem s1 out active y) as [s2|] eqn:Hset; inversion H; subst.
  eapply frame_ok_intro; eauto.
Qed.

Lemma CouplingLayer_forward_frame (l : CouplingLayer) (s s' : store)
    (φ_in φ_out : ref) (ldj : J) :
  CouplingLayer_forward mask_mul l s φ_in = (s', Ok (φ_out, ldj)) →
  frame_ok (active_mask_of (Radius l) (default (T4 (0, 0, 0, 0) []) (s !! φ_in)))
           s s' φ_in φ_out.
Proof.
  unfold CouplingLayer_forward, active_mask_of. intros H.
  destruct (read s φ_in) as [t|] eqn:Hread; [|by inversion H].
  apply read_Ok in Hread. rewrite Hread. simpl.
  destruct (dims4 t) as [[[n L] T] c].
  destruct (partitioning l (L, T)) as [active frozen]. simpl.
  destruct (_ ≫= _) as [context|] in H; [|by inversion H].
  destruct (clone s φ_in) as [[s1 out]|] eqn:Hclone; [|by inversion H].
  destruct (_ ≫= _) as [[y ldj']|] in H; [|by inversion H].
  destruct (setitem s1 out active y) as [s2|] eqn:Hset; inversion H; subst.
  eapply frame_ok_intro; eauto.
Qed.

(** **** [forward] returns when the shapes fit *)

Lemma grid_shape_Forall2 {A B : Type} (L T : nat) (m : list (list A)) (g : list (list B)) :
  grid_shape L T m → grid_shape L T g →
  Forall2 (fun a b => length a = length b) m g.
Proof.
  intros [Hm Hrm] [Hg Hrg]. subst L. revert g Hg Hrg.
  induction Hrm as [|r m Hr _ IH]; intros [|r' g] Hg Hrg; simpl in *; try lia.
  - constructor.
  - inversion Hrg; subst. constructor; [congruence | apply IH; [lia | done]].
Qed.

Lemma select4_total (L T : nat) (mask : mask2) (gs : list grid) :
  grid_shape L T mask → Forall (grid_shape L T) gs →
  ∃ x, select4 mask gs = Ok x.
Proof.
  intros Hm Hgs. induction Hgs as [|g gs Hg _ [x IH]]; simpl.
  - by exists [].
  - destruct (masked_select_total mask g) as [here ->];
      [by eapply grid_shape_Forall2|].
    rewrite IH. simpl. eauto.
Qed.

Lemma scatter_row_total (mask : list bool) :
  ∀ (row xs ys rest : list site),
    select_row mask row = Ok xs →
    Forall2 (fun a b : site => length a = length b) xs ys →
    ∃ r, scatter_row mask row (ys ++ rest) = Ok (r, rest).
Proof.
  induction mask as [|b mask IH]; intros row xs ys rest Hsel Hxy.
  - destruct row; [|discriminate]. injection Hsel as <-. inversion Hxy; subst.
    by exists [].
  - destruct row as [|x row]; [discriminate|]. simpl in Hsel.
    inv_bind Hsel. injection Hsel as <-. destruct b; simpl.
    + inversion Hxy as [|x' y xs' ys' Hlen Hrest]; subst. simpl.
      rewrite bool_decide_eq_true_2 by done.
      destruct (IH _ _ _ rest Ha Hrest) as [r ->]. simpl. eauto.
    + destruct (IH _ _ _ rest Ha Hxy) as [r ->]. simpl. eauto.
Qed.

Lemma scatter_grid_total (mask : mask2) :
  ∀ (g : grid) (xs ys rest : list site),
    masked_select mask g = Ok xs →
    Forall2 (fun a b : site => length a = length b) xs ys →
    ∃ g', scatter_grid mask g (ys ++ rest) = Ok (g', rest).
Proof.
  induction mask as [|m mask IH]; intros g xs ys rest Hsel Hxy.
  - destruct g; [|discriminate]. injection Hsel as <-. inversion Hxy; subst.
    by exists [].
  - destruct g as [|r g]; [discriminate|]. simpl in Hsel.
    inv_bind Hsel. inv_bind Hsel. injection Hsel as <-.
    apply Forall2_app_inv_l in Hxy as (ys1 & ys2 & H1 & H2 & ->).
    simpl. rewrite <- app_assoc.
    destruct (scatter_row_total _ _ _ _ (ys2 ++ rest) Ha H1) as [r' ->]. simpl.
    destruct (IH _ _ _ rest Ha0 H2) as [g' ->]. simpl. eauto.
Qed.

Lemma scatter4_total (mask : mask2) :
  ∀ (gs : list grid) (x y : list (list site)),
    select4 mask gs = Ok x → same_shape x y →
    ∃ gs', scatter4 mask gs y = Ok gs'.
Proof.
  induction gs as [|g gs IH]; intros x y Hsel Hxy; simpl in Hsel.
  - injection Hsel as <-. inversion Hxy; subst. by exists [].
  - inv_bind Hsel. inv_bind Hsel. injection Hsel as <-.
    inversion Hxy as [|x' y' xs' ys' Hhead Hrest]; subst. simpl.
    destruct (scatter_grid_total _ _ _ _ [] Ha Hhead) as [g' Hg'].
    rewrite app_nil_r in Hg'. rewrite Hg'. simpl.
    destruct (IH _ _ Ha0 Hrest) as [gs' ->]. simpl. eauto.
Qed.

Lemma mask_shape_ok_true (L T : nat) (mask : mask2) :
  grid_shape L T mask → mask_shape_ok mask L T = true.
Proof.
  intros [Hl Hr]. unfold mask_shape_ok.
  rewrite bool_decide_eq_true_2 by done. simpl.
  apply forallb_forall. intros r Hin. apply bool_decide_eq_true_2.
  rewrite Forall_forall in Hr. apply Hr. by apply list_elem_of_In.
Qed.

Lemma Forall_zip_with {A B C : Type} (P : A → Prop) (Q : B → Prop) (R : C → Prop)
    (f : A → B → C) (a : list A) (b : list B) :
  (∀ x y, P x → Q y → R (f x y)) →
  Forall P a → Forall Q b → Forall R (zip_with f a b).
Proof.
  intros Hf Ha. revert b. induction Ha as [|x a Hx _ IH]; intros b Hb; simpl.
  - constructor.
  - destruct Hb as [|y b Hy Hb]; constructor; auto.
Qed.

Lemma grid_shape_zip_with {A B C : Type} (L T : nat) (f : A → B → C)
    (a : list (list A)) (b : list (list B)) :
  grid_shape L T a → grid_shape L T b →
  grid_shape L T (zip_with (zip_with f) a b).
Proof.
  intros [Hla Hra] [Hlb Hrb]. split.
  - rewrite length_zip_with. lia.
  - eapply (Forall_zip_with _ _ _ _ _ _ _ Hra Hrb).
    Unshelve. intros x y Hx Hy. simpl in *. rewrite length_zip_with. lia.
Qed.

Lemma roll_list_length {A : Type} (k : Z) (l : list A) :
  length (roll_list k l) = length l.
Proof.
  unfold roll_list. rewrite length_app, length_drop, length_take. lia.
Qed.

Lemma roll_list_Forall {A : Type} (P : A → Prop) (k : Z) (l : list A) :
  Forall P l → Forall P (roll_list k l).
Proof.
  intros H. unfold roll_list. apply Forall_app. split.
  - by apply Forall_drop.
  - by apply Forall_take.
Qed.

Lemma grid_shape_roll {A : Type} (L T : nat) (dx dy : Z) (g : list (list A)) :
  grid_shape L T g → grid_shape L T (map (roll_list dy) (roll_list dx g)).
Proof.
  intros [Hl Hr]. split.
  - by rewrite length_map, roll_list_length.
  - apply Forall_map. apply roll_list_Forall.
    eapply Forall_impl; [exact Hr|]. intros r Hlen. simpl.
    by rewrite roll_list_length.
Qed.

Lemma rolled_total (L T : nat) (context : tensor4) (shs : list (list Z)) :
  Forall (grid_shape L T) (entries4 context) →
  Forall (fun shift => length shift = 2) shs →
  ∃ rolled, mapM (fun shift => roll4 shift context) shs = Ok rolled
            ∧ length rolled = length shs
            ∧ Forall (fun t => Forall (grid_shape L T) (entries4 t)) rolled.
Proof.
  intros Hctx Hshs. apply mapM_total_in. intros shift Hin.
  rewrite Forall_forall in Hshs.
  specialize (Hshs shift Hin).
  destruct shift as [|dx [|dy [|]]]; simpl in Hshs; try lia.
  eexists. split; [reflexivity|]. simpl. apply Forall_map.
  eapply Forall_impl; [exact Hctx|]. intros g Hg. by apply grid_shape_roll.
Qed.

Lemma cat_last_total (L T : nat) (ts : list tensor4) :
  ts ≠ [] →
  Forall (fun t => Forall (grid_shape L T) (entries4 t)) ts →
  ∃ context, cat_last ts = Ok context ∧ Forall (grid_shape L T) (entries4 context).
Proof.
  intros Hne Hts. destruct ts as [|t ts]; [done|]. simpl.
  eexists. split; [reflexivity|].
  inversion Hts as [|? ? Ht Hrest]; subst. clear Hts Hne.
  revert t Ht. induction Hrest as [|u ts Hu _ IH]; intros t Ht; simpl; [done|].
  apply IH. unfold cat_last2. destruct (dims4 t) as [[[n L'] T'] c]. simpl.
  eapply (Forall_zip_with _ _ _ _ _ _ _ Ht Hu).
  Unshelve. intros x y Hx Hy. by apply grid_shape_zip_with.
Qed.

(** The part after the context: clone, select, transform, write. *)
Lemma write_active_total (L T : nat) (s : store) (φ_in : ref) (t : tensor4)
    (active : mask2) (tr : list (list site) → result (list (list site) * J)) :
  s !! φ_in = Some t →
  grid_shape L T active → Forall (grid_shape L T) (entries4 t) →
  (∀ x, ∃ y ldj, tr x = Ok (y, ldj) ∧ same_shape x y) →
  ∃ s1 φ_out y ldj s2,
    clone s φ_in = Ok (s1, φ_out)
    ∧ (x ← (t' ← read s1 φ_in; select4 active (entries4 t')); tr x) = Ok (y, ldj)
    ∧ setitem s1 φ_out active y = Ok s2.
Proof.
  intros Hin Hactive Ht Htr.
  assert (Hlt : φ_in < length s) by (eapply lookup_lt_Some; eauto).
  destruct (select4_total L T active (entries4 t) Hactive Ht) as [x Hx].
  destruct (Htr x) as (y & ldj & Hy & Hshape).
  destruct (scatter4_total _ _ _ _ Hx Hshape) as [gs' Hgs'].
  exists (s ++ [t]), (length s), y, ldj. eexists. split; [|split].
  - unfold clone, read. by rewrite Hin.
  - unfold read. rewrite lookup_app_l, Hin by done. simpl.
    rewrite Hx. simpl. exact Hy.
  - unfold setitem, read. rewrite lookup_app_r by lia.
    replace (length s - length s) with 0 by lia. simpl.
    rewrite Hgs'. reflexivity.
Qed.

(** C1.  Both coupling layers: when [forward] returns, the input tensor is
    still in the store with the entries it had (and so is every other tensor
    of the caller), the output is a different, new tensor of the same shape,
    it agrees with the input at every site whose active-mask bit is off, and
    a site where output and input differ has its active-mask bit on. *)
Theorem coupling_forward_frame (l : coupling_layer) (s s' : store)
    (φ_in φ_out : ref) (ldj : J) :
  forward mask_mul l s φ_in = (s', Ok (φ_out, ldj)) →
  ∃ t_in t_out,
    s !! φ_in = Some t_in ∧
    s' !! φ_in = Some t_in ∧
    (∀ r, r < length s → s' !! r = s !! r) ∧
    φ_out ≠ φ_in ∧
    s' !! φ_out = Some t_out ∧
    dims4 t_out = dims4 t_in ∧
    (∀ b i j, mask_at (active_mask_of l t_in) i j = Some false →
              site_at t_out b i j = site_at t_in b i j) ∧
    (∀ b i j, site_at t_out b i j ≠ site_at t_in b i j →
              mask_at (active_mask_of l t_in) i j = Some true).
Proof.
  intros H.
  assert (Hf : frame_ok (active_mask_of l (default (T4 (0, 0, 0, 0) []) (s !! φ_in)))
                        s s' φ_in φ_out).
  { destruct l as [c|r]; simpl in H.
    - by eapply ConvCouplingLayer_forward_frame.
    - by eapply CouplingLayer_forward_frame. }
  destruct Hf as (t_in & t_out & Hin & Hrest).
  rewrite Hin in Hrest. simpl in Hrest.
  exists t_in, t_out. by split.
Qed.

End CouplingFacts.

Lemma same_shape_map (f : Z → Z) (x : list (list (list Z))) :
  same_shape x (map (map (map f)) x).
Proof.
  unfold same_shape. induction x as [|r x IH]; simpl; constructor; [|exact IH].
  induction r as [|a r IHr]; simpl; constructor; [|exact IHr].
  by rewrite length_map.
Qed.

Lemma coupling_forward_frame_witness :
  CouplingLayer_init parity_partition shift_transform 1 0 = Ok radius_1_layer
  ∧ forward mask_mul_Z (Radius radius_1_layer) [lattice_2x2] 0
    = ([lattice_2x2; lattice_2x2_out], Ok (1, 0%Z))
  ∧ ∃ t_in t_out,
      [lattice_2x2] !! 0 = Some t_in ∧
      [lattice_2x2; lattice_2x2_out] !! 0 = Some t_in ∧
      (∀ r, r < length [lattice_2x2] →
            [lattice_2x2; lattice_2x2_out] !! r = [lattice_2x2] !! r) ∧
      1 ≠ 0 ∧
      [lattice_2x2; lattice_2x2_out] !! 1 = Some t_out ∧
      dims4 t_out = dims4 t_in ∧
      (∀ b i j, mask_at (active_mask_of (Radius radius_1_layer) t_in) i j = Some false →
                site_at t_out b i j = site_at t_in b i j) ∧
      (∀ b i j, site_at t_out b i j ≠ site_at t_in b i j →
                mask_at (active_mask_of (Radius radius_1_layer) t_in) i j = Some true).
Proof.
  split; [reflexivity|]. split; [reflexivity|].
  apply (coupling_forward_frame mask_mul_Z (Radius radius_1_layer)
           [lattice_2x2] [lattice_2x2; lattice_2x2_out] 0 1 0%Z).
  reflexivity.
Defined.

End LayersFacts.

(** *** observables.py *)

Module ObservablesFacts.
Import Observables.

(** **** [autocorrelation] *)

Lemma load_global_observabe : load_global "observabe" = Raise (NameError "observabe").
Proof. reflexivity. Qed.

(** No tensor makes [autocorrelation] return: rank 0 fails the assertion. *)
Lemma autocorrelation_never_returns (t r : tensor R) : autocorrelation t ≠ Ok r.
Proof.
  unfold autocorrelation, dim.
  destruct (shape t) as [|n sh]; discriminate.
Qed.

(** C6.  On every tensor of rank at least one, [autocorrelation] raises
    [NameError] for the name [observabe], the misspelt [observable] of the
    line that moves the sample axis, and so returns no result. *)
Theorem autocorrelation_NameError (observable : tensor R) :
  (0 < dim observable)%nat →
  autocorrelation observable = Raise (NameError "observabe")
  ∧ ∀ r, autocorrelation observable ≠ Ok r.
Proof.
  intros Hdim. split; [|intros r; apply autocorrelation_never_returns].
  unfold autocorrelation, dim in *.
  destruct (shape observable) as [|n sh]; [simpl in Hdim; lia|].
  reflexivity.
Qed.

Lemma autocorrelation_NameError_witness :
  (0 < dim literal_series)%nat
  ∧ autocorrelation literal_series = Raise (NameError "observabe")
  ∧ ∀ r, autocorrelation literal_series ≠ Ok r.
Proof.
  assert (Hdim : (0 < dim literal_series)%nat) by (unfold dim; simpl; lia).
  split; [exact Hdim|].
  exact (autocorrelation_NameError literal_series Hdim).
Defined.

(** **** [_Observables.__init__] *)

Ltac st_unfold :=
  unfold mbind, mret, St_bind, St_ret, st_bind, st_ret, st_lift, st_get, st_modify in *.

Ltac case_step :=
  match goal with
  | |- context [match unpack4_star ?a with _ => _ end] =>
      destruct (unpack4_star a) as [[[[? ?] ?] ?]|] eqn:?
  | |- context [match assert ?a with _ => _ end] => destruct (assert a) eqn:?
  | |- context [match unbind0 ?a with _ => _ end] => destruct (unbind0 a) eqn:?
  | |- context [match loop_variable ?a ?b with _ => _ end] =>
      destruct (loop_variable a b) eqn:?
  | |- context [match mapM ?f ?l with _ => _ end] => destruct (mapM f l) eqn:?
  | |- context [match stack ?a with _ => _ end] => destruct (stack a) eqn:?
  | |- context [match ?nb with Some _ => _ | None => _ end] =>
      is_var nb; destruct nb
  end.

Lemma squeeze0_unsqueeze0 {V : Type} (t : tensor V) : squeeze0 (unsqueeze0 t) = t.
Proof. by destruct t. Qed.

Lemma stack_same_shape {V : Type} (sh : list nat) (ts : list (tensor V)) :
  ts ≠ [] → Forall (fun u => shape u = sh) ts →
  stack ts = Ok (Tensor (length ts :: sh) (concat (map data ts))).
Proof.
  intros Hne Hsh. destruct ts as [|t ts]; [done|]. unfold stack.
  assert (Ht : shape t = sh) by (by inversion Hsh).
  replace (forallb _ (t :: ts)) with true; [by rewrite Ht|].
  symmetry. apply forallb_forall. intros u Hu.
  apply bool_decide_eq_true_2. rewrite Ht.
  rewrite Forall_forall in Hsh. apply Hsh. by apply list_elem_of_In.
Qed.

Lemma randint_in_range (rng : nat → nat → nat) (k n : nat) :
  (0 < n)%nat → forallb (fun i => i <? n)%nat (randint rng k n) = true.
Proof.
  intros Hn. apply forallb_forall. intros i Hi. unfold randint in Hi.
  apply in_map_iff in Hi as (j & <- & _).
  apply Nat.ltb_lt. apply Nat.mod_upper_bound. lia.
Qed.

Lemma last_map_seq {A : Type} (f : nat → A) (n : nat) :
  last (map f (seq 0 (S n))) = Some (f n).
Proof.
  rewrite seq_S, map_app. simpl. apply last_snoc.
Qed.

(** C10.  Without replicas the constructor reshapes the tensor it is given:
    with no bootstrap the caller's tensor is left with a new leading axis of
    size 1, whether the construction succeeds or raises after that point;
    with a bootstrap count, a construction that succeeds has removed that
    axis again.  With replicas the tensor is not touched. *)
Theorem _Observables_init_reshapes_samples (rng : nat → nat → nat)
    (func : tensor R → result (tensor R)) (samples : tensor R) :
  (_Observables_init rng func false None samples).1 = unsqueeze0 samples
  ∧ shape (unsqueeze0 samples) = 1 :: shape samples
  ∧ (∀ nb samples' obs,
       _Observables_init rng func false (Some nb) samples = (samples', Ok obs) →
       samples' = samples)
  ∧ (∀ nb, (_Observables_init rng func true nb samples).1 = samples).
Proof.
  split; [|split; [done|split]].
  - unfold _Observables_init. cbn [andb negb]. st_unfold.
    repeat case_step; reflexivity.
  - intros nb samples' obs. unfold _Observables_init. cbn [andb negb]. st_unfold.
    repeat case_step; intros H; inversion H; subst; try discriminate.
    apply squeeze0_unsqueeze0.
  - intros [z|]; unfold _Observables_init; cbn [andb negb].
    + by rewrite bool_decide_eq_true_2 by eauto.
    + rewrite bool_decide_eq_false_2 by (by intros [? ?]).
      st_unfold. repeat case_step; reflexivity.
Qed.

Lemma init_outcome (rng : nat → nat → nat) (func : tensor R → result (tensor R))
    (cr : bool) (nb : option Z) (samples : tensor R) :
  ¬ (cr = true ∧ is_Some nb) →
  (_Observables_init rng func cr nb samples).2
  = outcome_of rng func nb (if cr then samples else unsqueeze0 samples).
Proof.
  intros Hcheck. unfold _Observables_init, outcome_of.
  replace (cr && bool_decide (is_Some nb)) with false.
  2:{ symmetry. apply andb_false_iff. destruct cr; [right|by left].
      apply bool_decide_eq_false_2. tauto. }
  destruct cr; cbn [negb]; st_unfold; unfold result_bind, Py.bind;
    repeat case_step; try reflexivity; try congruence.
Qed.

Lemma unbind0_shape {V : Type} (t : tensor V) (a : nat) (sh : list nat) :
  shape t = a :: sh →
  unbind0 t = Ok (map (slice0 sh (data t)) (seq 0 a)).
Proof. intros H. unfold unbind0. by rewrite H. Qed.

Lemma _Observables_init_reshapes_samples_witness :
  (∃ self, _Observables_init (fun k i => (k + i)%nat) identity false (Some 2%Z)
             lattice_series = (lattice_series, Ok self))
  ∧ (_Observables_init (fun k i => (k + i)%nat) identity false None lattice_series).1
    = unsqueeze0 lattice_series
  ∧ shape (unsqueeze0 lattice_series) = [1; 5; 1; 1]%nat.
Proof.
  destruct (_Observables_init_reshapes_samples (fun k i => (k + i)%nat) identity
              lattice_series) as (Hnone & Hshape & Hsome & _).
  split; [|split; [exact Hnone | exact Hshape]].
  destruct (_Observables_init (fun k i => (k + i)%nat) identity false (Some 2%Z)
              lattice_series) as [samples' [self|e]] eqn:Hinit.
  - exists self. by rewrite (Hsome _ _ _ Hinit).
  - discriminate Hinit.
Defined.

(** C5, as the code has it.  The constructor raises [ValueError] with the
    message "Bootstrapping only supported for a single sample" when replicas
    and a bootstrap count are both given.  Otherwise it works on the samples
    with the replica axis in front, and raises [ValueError] when they have
    fewer than four axes, [AssertionError] when the sample count is not
    greater than 1, and a [RuntimeError] from [torch.stack] when there is no
    replica at all; and it succeeds whenever there is a replica, more than
    one sample, and the reducer returns a statistic of one shape on every
    sample batch it is given: the replicas, and with a bootstrap count the
    resamples drawn from the last of them. *)
Theorem _Observables_init_outcome (rng : nat → nat → nat)
    (func : tensor R → result (tensor R)) (cr : bool) (nb : option Z)
    (samples : tensor R) :
  let outcome := (_Observables_init rng func cr nb samples).2 in
  let seen := if cr then samples else unsqueeze0 samples in
  (cr = true → is_Some nb → outcome = Raise (ValueError bootstrapping_message))
  ∧ (¬ (cr = true ∧ is_Some nb) →
     ((dim seen < 4)%nat → outcome = Raise (ValueError not_enough))
     ∧ ∀ a n L T rest, shape seen = a :: n :: L :: T :: rest →
         ((n ≤ 1)%nat → outcome = Raise AssertionError)
         ∧ ((1 < n)%nat → a = 0%nat → outcome = Raise RuntimeError)
         ∧ ((1 < n)%nat → (0 < a)%nat →
            ∀ replicas out_shape,
              unbind0 seen = Ok replicas →
              (∀ t, t ∈ replicas → ∃ u, func t = Ok u ∧ shape u = out_shape) →
              (∀ k sample t,
                 (k < from_option Z.to_nat 0%nat nb)%nat →
                 last replicas = Some sample →
                 index0 sample (randint rng k n) = Ok t →
                 ∃ u, func t = Ok u ∧ shape u = out_shape) →
              ∃ obs, outcome = Ok obs
                     ∧ n_replica obs = a ∧ n_sample obs = n
                     ∧ lattice_shape obs = (L, T)
                     ∧ shape (_computed obs)
                       = (a + from_option Z.to_nat 0%nat nb)%nat :: out_shape)).
Proof.
  intros outcome seen. split.
  - intros -> [k ->]. reflexivity.
  - intros Hcheck. subst outcome. rewrite init_outcome by done. fold seen.
    unfold outcome_of. split.
    + unfold dim. intros Hdim.
      destruct (shape seen) as [|? [|? [|? [|? ?]]]]; simpl in *; try reflexivity; lia.
    + intros a n L T rest Hshape. rewrite Hshape. cbn [unpack4_star].
      rewrite bind_Ok_l. cbv beta iota.
      split; [|split].
      * intros Hn. apply Nat.ltb_ge in Hn. by rewrite Hn.
      * intros Hn ->. apply Nat.ltb_lt in Hn. rewrite Hn. cbn [assert].
        rewrite bind_Ok_l, (unbind0_shape _ _ _ Hshape). cbn [seq map].
        rewrite bind_Ok_l. cbn [mapM]. rewrite bind_Ok_l.
        destruct nb as [k|]; [|reflexivity].
        destruct cr; [destruct Hcheck; eauto|].
        subst seen. simpl in Hshape. discriminate.
      * intros Hn Ha replicas out_shape Hreplicas Hfunc Hboot.
        apply Nat.ltb_lt in Hn as Hn'. rewrite Hn'.
        cbn [assert]. rewrite bind_Ok_l.
        rewrite (unbind0_shape _ _ _ Hshape) in Hreplicas. injection Hreplicas as <-.
        rewrite (unbind0_shape _ _ _ Hshape), bind_Ok_l.
        set (slices := map _ (seq 0 a)) in *.
        destruct (mapM_total_in func (fun u => shape u = out_shape) slices)
          as (computed & -> & Hlen & Hsh); [exact Hfunc|].
        rewrite bind_Ok_l.
        assert (Hslices : length slices = a)
          by (unfold slices; by rewrite length_map, length_seq).
        assert (∃ resampled,
          match nb with
          | None => Ok []
          | Some k =>
              mapM (fun k => sample ← loop_variable "sample" slices;
                             x ← index0 sample (randint rng k n);
                             func x) (seq 0 (Z.to_nat k))
          end = Ok resampled
          ∧ length resampled = from_option Z.to_nat 0%nat nb
          ∧ Forall (fun u => shape u = out_shape) resampled)
          as (resampled & -> & Hlen' & Hsh').
        { destruct nb as [k|]; [|by exists []].
          destruct (mapM_total_in
            (fun k => sample ← loop_variable "sample" slices;
                      x ← index0 sample (randint rng k n);
                      func x)
            (fun u => shape u = out_shape) (seq 0 (Z.to_nat k)))
            as (ys & Hys & Hl & HP).
          - intros j Hj. apply elem_of_seq in Hj.
            assert (Hlast : ∃ sample, last slices = Some sample
                                      ∧ shape sample = n :: L :: T :: rest).
            { unfold slices. destruct a as [|a']; [lia|].
              rewrite last_map_seq. by eexists. }
            destruct Hlast as (sample & Hlast & Hsample).
            unfold loop_variable. rewrite Hlast, bind_Ok_l.
            assert (Hidx : ∃ x, index0 sample (randint rng j n) = Ok x).
            { unfold index0. rewrite Hsample.
              rewrite randint_in_range by lia. by eexists. }
            destruct Hidx as [x Hx]. rewrite Hx, bind_Ok_l.
            apply (Hboot j sample x); [simpl; lia | done | done].
          - exists ys. rewrite Hys. repeat split; [|done].
            by rewrite Hl, length_seq. }
        rewrite bind_Ok_l, (stack_same_shape out_shape), bind_Ok_l.
        -- eexists. split; [reflexivity|]. cbn.
           repeat split. by rewrite length_app, Hlen, Hlen', Hslices.
        -- destruct computed; [simpl in Hlen; lia | done].
        -- by apply Forall_app.
Qed.

Lemma _Observables_init_outcome_witness :
  ∃ self,
    (_Observables_init (fun k i => (k + i)%nat) identity false (Some 2%Z)
       lattice_series).2 = Ok self
    ∧ n_replica self = 1%nat ∧ n_sample self = 5%nat
    ∧ lattice_shape self = (1%nat, 1%nat)
    ∧ shape (_computed self) = [3; 5; 1; 1]%nat.
Proof.
  pose proof (_Observables_init_outcome (fun k i => (k + i)%nat) identity false
                (Some 2%Z) lattice_series) as H.
  cbv zeta in H. destruct H as [_ H].
  destruct H as [_ H]; [by intros [? _]|].
  destruct (H 1 5 1 1 []%nat eq_refl)%nat as (_ & _ & Hok).
  apply (Hok ltac:(lia) ltac:(lia) _ [5; 1; 1]%nat eq_refl).
  - intros t Ht. exists t. split; [reflexivity|].
    apply list_elem_of_fmap in Ht as (i & -> & _). reflexivity.
  - intros k sample t Hk [= <-] Hidx. exists t. split; [reflexivity|].
    destruct k as [|[|k]]; [| |simpl in Hk; lia];
      vm_compute in Hidx; injection Hidx as <-; reflexivity.
Defined.

(** C5 as first stated fails on the message, and on inputs that pass both
    of its checks: the message of the code is another one; with replicas, no
    bootstrap and five samples per replica, a batch of no replica at all is
    refused by [torch.stack]; and samples with fewer lattice axes than the
    constructor unpacks are refused before the sample count is looked at. *)
Lemma _Observables_init_other_failures :
  (_Observables_init (fun _ _ => 0%nat) (fun t => Ok t) true (Some 10%Z)
     (Tensor [2; 5; 4; 4] (replicate 160 0%R))).2
  = Raise (ValueError "Bootstrapping only supported for a single sample")
  ∧ "Bootstrapping only supported for a single sample"
    ≠ "bootstrapping is only supported for a single, non-replica sample set"
  ∧ (_Observables_init (fun _ _ => 0%nat) (fun t => Ok t) true None
       (Tensor [0; 5; 4; 4] [])).2
    = Raise RuntimeError
  ∧ (_Observables_init (fun _ _ => 0%nat) (fun t => Ok t) false None
       (Tensor [5; 4] (replicate 20 0%R))).2
    = Raise (ValueError not_enough).
Proof.
  split; [reflexivity|]. split; [discriminate|]. split; reflexivity.
Qed.

(** **** [OnePointObservables.value] *)

Section ValueFacts.
Open Scope R_scope.

Lemma sum_sq_dev_pow (xs : list R) :
  sum_sq_dev xs = sum_list (map (fun x => (x - mean xs) ^ 2) xs).
Proof.
  unfold sum_sq_dev. f_equal. apply map_ext. intros x. ring.
Qed.

(** [correction=1] is Bessel's correction: with at least two values the
    standard deviation of torch is the one of the spec, divisor [n - 1]; with
    fewer it is not a number. *)
Lemma std_correction_1 (xs : list R) :
  std 1 xs = if (2 <=? length xs)%nat then Finite (bessel_std xs) else NaN.
Proof.
  unfold std. destruct (2 <=? length xs)%nat eqn:Hn.
  - apply Nat.leb_le in Hn.
    replace (0 <? Z.of_nat (length xs) - 1)%Z with true
      by (symmetry; apply Z.ltb_lt; lia).
    unfold bessel_std. rewrite <- sum_sq_dev_pow.
    by rewrite minus_IZR, <- INR_IZR_INZ.
  - apply Nat.leb_gt in Hn.
    replace (0 <? Z.of_nat (length xs) - 1)%Z with false
      by (symmetry; apply Z.ltb_ge; lia).
    destruct (Req_dec_T (sum_sq_dev xs) 0) as [_|Hne]; [done|].
    destruct Hne. destruct xs as [|x [|y xs]]; [| |simpl in Hn; lia].
    + reflexivity.
    + unfold sum_sq_dev, mean. simpl. field.
Qed.

Lemma length_column (m n : nat) (entries : list R) (j : nat) :
  length (column m n entries j) = n.
Proof. unfold column. by rewrite length_map, length_seq. Qed.

(** [value] on a computed statistic of [n] rows: per entry of a row, the
    mean over the rows first, the Bessel-corrected deviation second. *)
Lemma value_rows (self : _Observables) (n : nat) (sh : list nat) :
  shape (_computed self) = n :: sh →
  value self
  = (Tensor sh (map (fun j => mean (column (numel_of sh) n (data (_computed self)) j))
                    (seq 0 (numel_of sh))),
     Tensor sh (map (fun j =>
                       if (2 <=? n)%nat
                       then Finite (bessel_std
                                      (column (numel_of sh) n (data (_computed self)) j))
                       else NaN)
                    (seq 0 (numel_of sh)))).
Proof.
  intros Hshape. unfold value, reversed, std_mean. rewrite Hshape. cbn [fst snd].
  do 2 f_equal. apply map_ext. intros j.
  by rewrite std_correction_1, length_column.
Qed.

Lemma stack_shape {V : Type} (ts : list (tensor V)) (t : tensor V) :
  stack ts = Ok t → ∃ n sh, shape t = S n :: sh.
Proof.
  unfold stack. destruct ts as [|u ts]; [discriminate|].
  destruct (forallb _ _); [|discriminate].
  intros H. injection H as <-. simpl. eauto.
Qed.

Lemma init_computed_shape (rng : nat → nat → nat) (func : tensor R → result (tensor R))
    (cr : bool) (nb : option Z) (samples samples' : tensor R) (self : _Observables) :
  _Observables_init rng func cr nb samples = (samples', Ok self) →
  ∃ n sh, shape (_computed self) = S n :: sh.
Proof.
  unfold _Observables_init.
  destruct (cr && bool_decide (is_Some nb))%bool; [discriminate|].
  destruct cr; cbn [negb]; st_unfold;
    repeat case_step; intros H; inversion H; subst; cbn [_computed];
    eapply stack_shape; eauto.
Qed.

Lemma sqrt_5_2_bounds : 158113 / 100000 < sqrt (5 / 2) < 158115 / 100000.
Proof.
  split.
  - rewrite <- (sqrt_square (158113 / 100000)) by lra.
    apply sqrt_lt_1_alt. lra.
  - rewrite <- (sqrt_square (158115 / 100000)) by lra.
    apply sqrt_lt_1_alt. lra.
Qed.

(** C7, as the code has it.  The value of a constructed sample set is the
    pair whose first member is the mean over the rows of the computed
    statistic and whose second member is the standard deviation with divisor
    [n - 1], not a number when there is one row only.  A sample set whose
    computed statistic has the rows 1, 2, 3, 4, 5 (five replicas, each
    reduced to its field value) has the value (3, sqrt (5/2)), and
    sqrt (5/2) lies between 1.58113 and 1.58115. *)
Theorem OnePointObservables_value :
  (∀ rng func cr nb samples samples' self,
     _Observables_init rng func cr nb samples = (samples', Ok self) →
     ∃ n sh,
       shape (_computed self) = S n :: sh
       ∧ value self
         = (Tensor sh
              (map (fun j => mean (column (numel_of sh) (S n) (data (_computed self)) j))
                   (seq 0 (numel_of sh))),
            Tensor sh
              (map (fun j =>
                      if (2 <=? S n)%nat
                      then Finite (bessel_std
                             (column (numel_of sh) (S n) (data (_computed self)) j))
                      else NaN)
                   (seq 0 (numel_of sh)))))
  ∧ (∃ self,
       _Observables_init no_rng first_value true None five_replicas
       = (five_replicas, Ok self)
       ∧ _computed self = literal_series
       ∧ value self = (Tensor [] [3], Tensor [] [Finite (sqrt (5 / 2))])
       ∧ 158113 / 100000 < sqrt (5 / 2) < 158115 / 100000).
Proof.
  split.
  - intros rng func cr nb samples samples' self Hinit.
    destruct (init_computed_shape _ _ _ _ _ _ _ Hinit) as (n & sh & Hshape).
    exists n, sh. split; [done|]. by apply value_rows.
  - exists {| n_replica := 5; n_sample := 2; n_bootstrap := None;
              lattice_shape := (1%nat, 1%nat); func := first_value;
              _computed := literal_series |}.
    split; [reflexivity|]. split; [reflexivity|].
    split; [|apply sqrt_5_2_bounds].
    rewrite (value_rows _ 5 []) by reflexivity.
    cbn [numel_of foldr seq map column data _computed literal_series
         Nat.leb Nat.mul Nat.add nth].
    assert (Hm : mean [1; 2; 3; 4; 5] = 3)
      by (unfold mean, sum_list; simpl; lra).
    assert (Hs : bessel_std [1; 2; 3; 4; 5] = sqrt (5 / 2)).
    { unfold bessel_std. rewrite Hm. f_equal. unfold sum_list. simpl. lra. }
    by rewrite Hm, Hs.
Qed.

(** The series 1..5 itself has no lattice axes and is refused by the
    constructor; given as five samples on a 1x1 lattice it is one replica, and
    the value is then the series itself with no deviation at all. *)
Lemma value_literal_series :
  (_Observables_init no_rng identity false None literal_series).2
  = Raise (ValueError not_enough)
  ∧ ∃ self,
      _Observables_init no_rng identity false None lattice_series
      = (unsqueeze0 lattice_series, Ok self)
      ∧ shape (value self).1 = [5; 1; 1]%nat
      ∧ (value self).2 = Tensor [5; 1; 1]%nat (replicate 5 NaN).
Proof.
  split; [reflexivity|].
  exists {| n_replica := 1; n_sample := 5; n_bootstrap := None;
            lattice_shape := (1%nat, 1%nat); func := identity;
            _computed := unsqueeze0 lattice_series |}.
  split; [reflexivity|].
  rewrite (value_rows _ 1 [5; 1; 1]%nat) by reflexivity. split; reflexivity.
Qed.

Lemma OnePointObservables_value_witness :
  _Observables_init no_rng first_value true None five_replicas
  = (five_replicas, Ok five_replicas_set)
  ∧ ∃ n sh,
      shape (_computed five_replicas_set) = S n :: sh
      ∧ value five_replicas_set
        = (Tensor sh
             (map (fun j => mean (column (numel_of sh) (S n)
                                    (data (_computed five_replicas_set)) j))
                  (seq 0 (numel_of sh))),
           Tensor sh
             (map (fun j =>
                     if (2 <=? S n)%nat
                     then Finite (bessel_std
                            (column (numel_of sh) (S n)
                               (data (_computed five_replicas_set)) j))
                     else NaN)
                  (seq 0 (numel_of sh)))).
Proof.
  split; [reflexivity|].
  apply (proj1 OnePointObservables_value no_rng first_value true None
           five_replicas five_replicas five_replicas_set).
  reflexivity.
Defined.

End ValueFacts.

End ObservablesFacts.

(** *** nflow/utils.py and scalar/flows/coupling.py *)

Module JacobianFacts.
Import NflowUtils.

Section WithJacobian.
Context (jacobian : (tensor R → result (tensor R)) → tensor R → result (tensor R)).

Lemma mapM_length {A B : Type} (f : A → result B) (l : list A) (ys : list B) :
  mapM f l = Ok ys → length ys = length l.
Proof.
  revert ys. induction l as [|x l IH]; intros ys H; simpl in H.
  - by injection H as <-.
  - inv_bind H. inv_bind H. injection H as <-. simpl. f_equal. by apply IH.
Qed.

Lemma mapM_aux (transform : tensor R → result (tensor R * tensor R))
    (l : list (tensor R)) (outs : list (tensor R * tensor R)) :
  mapM (jacrev_has_aux jacobian
          (fun input => out ← transform (unsqueeze0 input);
                        Ok (squeeze0 out.1, squeeze0 out.1))) l = Ok outs →
  mapM (per_sample transform) l = Ok (outs.*2).
Proof.
  revert outs. induction l as [|x l IH]; intros outs H; simpl in H.
  - by injection H as <-.
  - inv_bind H. inv_bind H. injection H as <-.
    unfold jacrev_has_aux in Ha. inv_bind Ha. inv_bind Ha. injection Ha as <-.
    inv_bind Ha1. injection Ha1 as <-.
    cbn [mapM]. unfold per_sample in *.
    rewrite Ha, !bind_Ok_l, (IH _ Ha0). reflexivity.
Qed.

(** What [get_jacobian] returns: the inputs it was given, the per-sample
    outputs of the transform stacked, and one Jacobian per sample. *)
Lemma get_jacobian_returns (transform : tensor R → result (tensor R * tensor R))
    (inputs jac inputs' outputs : tensor R) :
  get_jacobian jacobian transform inputs = Ok (jac, inputs', outputs) →
  inputs' = inputs
  ∧ ∃ slices outs jacs,
      unbind0 inputs = Ok slices
      ∧ mapM (per_sample transform) slices = Ok outs
      ∧ stack outs = Ok outputs
      ∧ length jacs = length slices
      ∧ stack jacs = Ok jac.
Proof.
  unfold get_jacobian, vmap. intros H.
  inv_bind H. destruct a as [jac0 outputs0]. injection H as <- <- <-.
  split; [done|].
  inv_bind Ha. inv_bind Ha. inv_bind Ha. inv_bind Ha. injection Ha as <- <-.
  exists a, (a0.*2), (a0.*1). repeat split; auto.
  - by apply mapM_aux.
  - rewrite length_fmap. by eapply mapM_length.
Qed.

Lemma stack_head {V : Type} (ts : list (tensor V)) (t : tensor V) :
  stack ts = Ok t → hd 0%nat (shape t) = length ts.
Proof.
  unfold stack. destruct ts as [|u ts]; [done|].
  destruct (forallb _ _); [|done]. by intros [= <-].
Qed.

(** [get_jacobian] keeps the batch: when it returns, the inputs come back as
    they were given, the outputs are the stack of the transform's first
    output on each sample, run as a batch of one with the batch axis removed
    again, and the Jacobians and the outputs both have one entry per sample
    along their leading axis. *)
Theorem get_jacobian_outputs (transform : tensor R → result (tensor R * tensor R))
    (inputs jac inputs' outputs : tensor R) :
  get_jacobian jacobian transform inputs = Ok (jac, inputs', outputs) →
  inputs' = inputs
  ∧ ∃ slices outs,
      unbind0 inputs = Ok slices
      ∧ length slices = hd 0%nat (shape inputs)
      ∧ mapM (per_sample transform) slices = Ok outs
      ∧ stack outs = Ok outputs
      ∧ hd 0%nat (shape outputs) = length slices
      ∧ hd 0%nat (shape jac) = length slices.
Proof.
  intros H.
  apply get_jacobian_returns in H
    as (-> & slices & outs & jacs & Hs & Hm & Ho & Hl & Hj).
  split; [done|]. exists slices, outs. split; [done|]. split.
  { unfold unbind0 in Hs. destruct (shape inputs) as [|n sh]; [done|].
    injection Hs as <-. by rewrite length_map, length_seq. }
  split; [done|]. split; [done|]. split.
  - rewrite (stack_head _ _ Ho). by eapply mapM_length.
  - by rewrite (stack_head _ _ Hj).
Qed.

(** For anything with the two methods: the action value that comes with the
    base samples plays no part in the result. *)
Lemma get_model_jacobian_any_model (m : model) (batch_size : nat) (z S_z : tensor R) :
  sample_base m batch_size = Ok (z, S_z) →
  get_model_jacobian jacobian m batch_size = get_jacobian jacobian (flow_forward m) z.
Proof. intros H. unfold get_model_jacobian. by rewrite H. Qed.

Lemma unbind0_length {V : Type} (t : tensor V) (n : nat) (sh : list nat)
    (slices : list (tensor V)) :
  shape t = n :: sh → unbind0 t = Ok slices → length slices = n.
Proof.
  intros Hsh. unfold unbind0. rewrite Hsh. intros H. injection H as <-.
  by rewrite length_map, length_seq.
Qed.

Lemma forward_per_sample (transform : tensor R → result (tensor R * tensor R)) :
  (fun x' => fst <$> (out ← transform (unsqueeze0 x');
                      Ok (squeeze0 out.1, squeeze0 out.1)))
  = per_sample transform.
Proof.
  apply functional_extensionality. intros x. unfold per_sample.
  by destruct (transform (unsqueeze0 x)).
Qed.

Lemma jacrev_forward (transform : tensor R → result (tensor R * tensor R))
    (x : tensor R) :
  jacrev_has_aux jacobian
    (fun input => out ← transform (unsqueeze0 input);
                  Ok (squeeze0 out.1, squeeze0 out.1)) x
  = (out ← per_sample transform x;
     jac ← jacobian (per_sample transform) x;
     Ok (jac, out)).
Proof.
  unfold jacrev_has_aux. rewrite forward_per_sample.
  change (per_sample transform x)
    with (out ← transform (unsqueeze0 x); Ok (squeeze0 out.1)).
  by destruct (transform (unsqueeze0 x)).
Qed.

Lemma mapM_pairs {A B C : Type} (f : A → result B) (g : A → result C) (l : list A) :
  ∀ ps, mapM (fun x => out ← f x; jac ← g x; Ok (jac, out)) l = Ok ps →
        mapM f l = Ok (ps.*2) ∧ mapM g l = Ok (ps.*1).
Proof.
  induction l as [|x l IH]; intros ps H; simpl in H.
  - by injection H as <-.
  - inv_bind H. inv_bind H. injection H as <-.
    inv_bind Ha. inv_bind Ha. injection Ha as <-.
    destruct (IH _ Ha0) as [Hf Hg]. simpl. by rewrite Ha1, Ha2, Hf, Hg.
Qed.

Lemma mapM_zip {A B C : Type} (f : A → result B) (g : A → result C) (l : list A) :
  ∀ outs jacs, mapM f l = Ok outs → mapM g l = Ok jacs →
    mapM (fun x => out ← f x; jac ← g x; Ok (jac, out)) l = Ok (zip jacs outs).
Proof.
  induction l as [|x l IH]; intros outs jacs Hf Hg; simpl in *.
  - injection Hf as <-. by injection Hg as <-.
  - inv_bind Hf. inv_bind Hf. injection Hf as <-.
    inv_bind Hg. inv_bind Hg. injection Hg as <-.
    rewrite Ha, Ha1. simpl. by rewrite (IH _ _ Ha0 Ha2).
Qed.

(** [get_jacobian], all of it: it returns exactly when the inputs can be
    iterated, the transform returns on every sample as a batch of one, the
    derivative of that per-sample map exists at every sample, and the two
    lists can be stacked; what it returns is the stack of these Jacobians,
    the inputs, and the stack of the per-sample outputs. *)
Lemma get_jacobian_iff (transform : tensor R → result (tensor R * tensor R))
    (inputs jac inputs' outputs : tensor R) :
  get_jacobian jacobian transform inputs = Ok (jac, inputs', outputs)
  ↔ inputs' = inputs
    ∧ ∃ slices outs jacs,
        unbind0 inputs = Ok slices
        ∧ mapM (per_sample transform) slices = Ok outs
        ∧ mapM (jacobian (per_sample transform)) slices = Ok jacs
        ∧ stack jacs = Ok jac
        ∧ stack outs = Ok outputs.
Proof.
  unfold get_jacobian, vmap. split.
  - intros H. inv_bind H. destruct a as [jac0 outputs0]. injection H as <- <- <-.
    split; [done|].
    inv_bind Ha. inv_bind Ha. inv_bind Ha. inv_bind Ha. injection Ha as <- <-.
    rewrite (mapM_ext _ _ _ (jacrev_forward transform)) in Ha1.
    apply mapM_pairs in Ha1 as [Hout Hjac].
    exists a, (a0.*2), (a0.*1). by repeat split.
  - intros (-> & slices & outs & jacs & Hs & Hout & Hjac & Hsj & Hso).
    rewrite Hs, bind_Ok_l.
    rewrite (mapM_ext _ _ _ (jacrev_forward transform)).
    rewrite (mapM_zip _ _ _ _ _ Hout Hjac), bind_Ok_l.
    assert (Hlen : length jacs = length outs).
    { apply mapM_length in Hout, Hjac. congruence. }
    rewrite fst_zip, snd_zip by lia. by rewrite Hsj, bind_Ok_l, Hso, !bind_Ok_l.
Qed.

(** C8.  For every model, that is, for anything with the two methods
    [sample_base] and [flow_forward], and every batch size:
    [get_model_jacobian] raises what [sample_base] raises; and when
    [sample_base] returns the samples [z] with their action, the action
    plays no part, and the call returns exactly when [z] can be iterated,
    the flow returns on every sample run as a batch of one, the derivative
    of that per-sample flow exists at every sample, and both lists can be
    stacked; it then returns the stack of these per-sample Jacobians, [z]
    itself, and the stack of the per-sample outputs of the flow.  For a
    [Model] of coupling.py, [z] is the draw of [base]: [batch_size] samples
    on the lattice of the model, shape (batch_size, L, L, 1), and the flow
    is the model's [flow]. *)
Theorem get_model_jacobian_of_Model (m : model) (batch_size : nat) :
  (∀ e, sample_base m batch_size = Raise e →
        get_model_jacobian jacobian m batch_size = Raise e)
  ∧ (∀ z S_z, sample_base m batch_size = Ok (z, S_z) →
       ∀ jac inputs outputs,
         get_model_jacobian jacobian m batch_size = Ok (jac, inputs, outputs)
         ↔ inputs = z
           ∧ ∃ slices outs jacs,
               unbind0 z = Ok slices
               ∧ mapM (per_sample (flow_forward m)) slices = Ok outs
               ∧ mapM (jacobian (per_sample (flow_forward m))) slices = Ok jacs
               ∧ stack jacs = Ok jac
               ∧ stack outs = Ok outputs)
  ∧ (∀ noise self, m = Flows.as_model noise self →
       let L := Flows.lattice_length self in
       let z := Tensor [batch_size; L; L; 1%nat]
                       (map noise (seq 0 (batch_size * (L * L)))) in
       ∃ S_z,
         sample_base m batch_size = Ok (z, S_z)
         ∧ (z, S_z) = Flows.base noise self batch_size
         ∧ flow_forward m = Flows.flow self
         ∧ well_formed z
         ∧ unbind0 z = Ok (map (slice0 [L; L; 1%nat] (data z)) (seq 0 batch_size))
         ∧ ∀ k, (k < batch_size)%nat →
             data (slice0 [L; L; 1%nat] (data z) k)
             = map noise (seq (k * (L * L)) (L * L))).
Proof.
  split; [|split].
  - intros e He. unfold get_model_jacobian. by rewrite He.
  - intros z S_z Hbase jac inputs outputs.
    rewrite (get_model_jacobian_any_model m batch_size z S_z Hbase).
    apply get_jacobian_iff.
  - intros noise self -> L z.
    assert (Hnum : numel_of [batch_size; L; L; 1%nat] = (batch_size * (L * L))%nat)
      by (simpl; lia).
    assert (Hm : numel_of [L; L; 1%nat] = (L * L)%nat) by (simpl; lia).
    exists (Flows.base noise self batch_size).2.
    assert (Hz : (Flows.base noise self batch_size).1 = z).
    { unfold Flows.base. fold L. cbn [fst]. by rewrite Hnum. }
    assert (Hpair : (z, (Flows.base noise self batch_size).2)
                    = Flows.base noise self batch_size).
    { rewrite <- Hz. by destruct (Flows.base noise self batch_size). }
    split.
    { change (sample_base (Flows.as_model noise self) batch_size)
        with (Flows.sample_base noise self batch_size).
      unfold Flows.sample_base. f_equal. by symmetry. }
    split; [done|]. split; [done|]. split.
    { unfold well_formed, z. cbn [data shape]. by rewrite length_map, length_seq. }
    split; [done|].
    intros k Hk. unfold slice0, z. cbn [data]. rewrite Hm.
    rewrite skipn_map, firstn_map, drop_seq, take_seq. do 2 f_equal. nia.
Qed.

End WithJacobian.

Lemma get_jacobian_outputs_witness :
  ∃ jac outputs,
    get_jacobian Flows.no_autodiff (Flows.flow_forward Flows.identity_model)
      (Flows.base INR Flows.identity_model 2).1
    = Ok (jac, (Flows.base INR Flows.identity_model 2).1, outputs)
    ∧ ∃ slices outs,
        unbind0 (Flows.base INR Flows.identity_model 2).1 = Ok slices
        ∧ length slices = hd 0%nat (shape (Flows.base INR Flows.identity_model 2).1)
        ∧ mapM (per_sample (Flows.flow_forward Flows.identity_model)) slices = Ok outs
        ∧ stack outs = Ok outputs
        ∧ hd 0%nat (shape outputs) = length slices
        ∧ hd 0%nat (shape jac) = length slices.
Proof.
  eexists _, _. split; [reflexivity|].
  eapply (get_jacobian_outputs Flows.no_autodiff
            (Flows.flow_forward Flows.identity_model)).
  reflexivity.
Defined.

Lemma get_model_jacobian_of_Model_witness :
  ∃ jac outputs,
    get_model_jacobian Flows.no_autodiff (Flows.as_model INR Flows.identity_model) 2
    = Ok (jac, (Flows.base INR Flows.identity_model 2).1, outputs)
    ∧ ∃ slices outs jacs,
        unbind0 (Flows.base INR Flows.identity_model 2).1 = Ok slices
        ∧ mapM (per_sample (Flows.flow_forward Flows.identity_model)) slices = Ok outs
        ∧ mapM (Flows.no_autodiff (per_sample (Flows.flow_forward Flows.identity_model)))
               slices = Ok jacs
        ∧ stack jacs = Ok jac
        ∧ stack outs = Ok outputs.
Proof.
  destruct (get_model_jacobian_of_Model Flows.no_autodiff
              (Flows.as_model INR Flows.identity_model) 2) as (_ & Hret & _).
  eexists _, _. split; [reflexivity|].
  eapply (Hret _ (Flows.base INR Flows.identity_model 2).2); reflexivity.
Defined.

End JacobianFacts.

(** *** layers.py: the dense coupling as a whole *)

Module DenseForwardFacts.
Import Layers.

Section WithTypes.
Context {V J C : Type}.
Local Abbreviation tensor2 := (@tensor2 V).
Local Abbreviation tensor3 := (@tensor3 V).
Local Abbreviation layer := (@DenseCouplingLayer V J C).

Lemma mapM_Forall2 {A B : Type} (f : A → result B) (R : A → B → Prop) (l : list A) :
  (∀ x y, f x = Ok y → R x y) →
  ∀ ys, mapM f l = Ok ys → Forall2 R l ys.
Proof.
  intros Hf. induction l as [|x l IH]; intros ys H; simpl in H.
  - injection H as <-. constructor.
  - inv_bind H. inv_bind H. injection H as <-. constructor; auto.
Qed.

Lemma mapM_only_length (r : list (list V)) (xs : list V) :
  mapM only r = Ok xs → length xs = length r.
Proof.
  intros H. apply (mapM_Forall2 _ (fun _ _ => True)) in H; [|done].
  symmetry. by eapply Forall2_length.
Qed.

(** [squeeze(-1)] keeps the batch size and the row lengths. *)
Lemma squeeze_last_shape (t : tensor3) (u : tensor2) (n d : nat) :
  squeeze_last t = Ok u →
  dims3 t = (n, d, 1) →
  length (entries3 t) = n →
  Forall (fun r => length r = d) (entries3 t) →
  ncol u = d ∧ length (rows u) = n ∧ well_formed2 u.
Proof.
  unfold squeeze_last. intros H Hdims Hn Hrows. rewrite Hdims in H.
  rewrite bool_decide_eq_true_2 in H by done.
  inv_bind H. injection H as <-. cbn [ncol rows]. unfold well_formed2. cbn [ncol rows].
  apply (mapM_Forall2 _ (fun r xs => length xs = length r)) in Ha;
    [|apply mapM_only_length].
  split; [done|]. split.
  - rewrite <- Hn. symmetry. by eapply Forall2_length.
  - clear Hn. induction Ha as [|r xs rs xss Hlen _ IH]; [constructor|].
    inversion Hrows; subst. constructor; [congruence | by apply IH].
Qed.

Lemma take_drop_zip_app (k : nat) (xs ys : list (list V)) :
  Forall (fun r => length r = k) xs →
  length xs = length ys →
  map (take k) (zip_with app xs ys) = xs ∧ map (drop k) (zip_with app xs ys) = ys.
Proof.
  intros Hk. revert ys. induction Hk as [|x xs Hx _ IH]; intros [|y ys] Hlen;
    simpl in *; try done.
  destruct (IH ys) as [-> ->]; [lia|].
  by rewrite take_app_length', drop_app_length' by done.
Qed.

(** Joining a new active half with the passive half of an input of even
    width, and splitting again, gives the two halves back. *)
Lemma split_join_halves (self : layer) (h : nat) (a' p : tensor2) :
  ncol a' = h → ncol p = h →
  well_formed2 a' → well_formed2 p →
  length (rows a') = length (rows p) →
  ∃ φ_out, join self a' p = Ok φ_out
           ∧ ncol φ_out = 2 * h
           ∧ split self φ_out = (a', p).
Proof.
  destruct a' as [wa ra], p as [wp rp]. unfold well_formed2. cbn [ncol rows].
  intros -> -> Ha Hp Hlen.
  assert (Hk : (h + h + 1) / 2 = h).
  { symmetry. apply (Nat.div_unique _ 2 h 1); lia. }
  unfold join, split, tensor_split2, cat1. cbn [ncol rows].
  destruct (is_odd (dense_layer_id self)).
  - rewrite bool_decide_eq_true_2 by done.
    eexists. split; [done|]. cbn [ncol rows]. split; [lia|]. rewrite Hk.
    destruct (take_drop_zip_app h rp ra) as [-> ->]; [done..|].
    do 2 f_equal. lia.
  - rewrite bool_decide_eq_true_2 by done.
    eexists. split; [done|]. cbn [ncol rows]. split; [lia|]. rewrite Hk.
    destruct (take_drop_zip_app h ra rp) as [-> ->]; [done..|].
    do 2 f_equal. lia.
Qed.

(** When [forward] returns and the transform it built has kept the shape of
    the active values it was given: the net was run on the passive half of
    the input, the context is the view of the net's output to the shape of
    the active half, the transform built from that context was applied to
    the active half, and the log-det is the one it returned; the output has
    the width of the input, its active half is what the transform returned,
    and its passive half is the passive half of the input, untouched and in
    place.  The transform is conditioned on the passive half only. *)
Theorem DenseCouplingLayer_forward_passive
    (view_context : tensor2 → nat * nat → result C) (self : layer)
    (φ_in φ_out : tensor2) (ldj : J) :
  well_formed2 φ_in →
  (∀ out c y l,
     dense_net self (split self φ_in).2 = Ok out →
     view_context out (length (rows (split self φ_in).1), ncol (split self φ_in).1)
     = Ok c →
     dense_transform self c (unsqueeze_last (split self φ_in).1) = Ok (y, l) →
     dims3 y = dims3 (unsqueeze_last (split self φ_in).1)
     ∧ length (entries3 y) = length (rows (split self φ_in).1)
     ∧ Forall (fun r => length r = ncol (split self φ_in).1) (entries3 y)) →
  DenseCouplingLayer_forward view_context self φ_in = Ok (φ_out, ldj) →
  ncol φ_out = ncol φ_in
  ∧ ∃ out c φ_a' a_new,
      dense_net self (split self φ_in).2 = Ok out
      ∧ view_context out (length (rows (split self φ_in).1), ncol (split self φ_in).1)
        = Ok c
      ∧ dense_transform self c (unsqueeze_last (split self φ_in).1) = Ok (φ_a', ldj)
      ∧ squeeze_last φ_a' = Ok a_new
      ∧ split self φ_out = (a_new, (split self φ_in).2).
Proof.
  intros Hwf Htr H. unfold DenseCouplingLayer_forward in H.
  inv_bind H. unfold assert in Ha.
  destruct (ncol φ_in mod 2 =? 0) eqn:Heven; [|discriminate]. clear Ha a.
  apply Nat.eqb_eq in Heven.
  destruct (split self φ_in) as [φ_a φ_p] eqn:Hsplit.
  inv_bind H. rename a into out. inv_bind H. rename a into c.
  inv_bind H. destruct a as [φ_a' ldj']. inv_bind H. rename a into a_new.
  inv_bind H. injection H as <- <-. cbn [fst snd].
  set (h := ncol φ_in / 2).
  assert (HD : ncol φ_in = 2 * h).
  { unfold h. pose proof (Nat.div_mod_eq (ncol φ_in) 2). lia. }
  assert (Hk : (2 * h + 1) / 2 = h).
  { symmetry. apply (Nat.div_unique _ 2 h 1); lia. }
  assert (Hhalves : ncol φ_a = h ∧ ncol φ_p = h
                    ∧ well_formed2 φ_a ∧ well_formed2 φ_p
                    ∧ length (rows φ_a) = length (rows φ_in)
                    ∧ length (rows φ_p) = length (rows φ_in)).
  { unfold split, tensor_split2 in Hsplit. rewrite HD, Hk in Hsplit.
    unfold well_formed2 in *. rewrite HD in Hwf.
    assert (Htake : Forall (fun r : list V => length r = h) (map (take h) (rows φ_in))).
    { apply Forall_map. eapply Forall_impl; [exact Hwf|]. intros r Hr. simpl in *.
      rewrite length_take. lia. }
    assert (Hdrop : Forall (fun r : list V => length r = 2 * h - h)
                           (map (drop h) (rows φ_in))).
    { apply Forall_map. eapply Forall_impl; [exact Hwf|]. intros r Hr. simpl in *.
      rewrite length_drop. lia. }
    destruct (is_odd (dense_layer_id self)); injection Hsplit as <- <-;
      cbn [ncol rows]; rewrite !length_map; repeat split; try done; try lia;
      (eapply Forall_impl; [eassumption|]); intros r Hr; simpl in *; lia. }
  destruct Hhalves as (Hna & Hnp & Hwa & Hwp & Hla & Hlp).
  cbn [fst snd] in Htr.
  destruct (Htr _ _ _ _ Ha Ha0 Ha1) as (Hdims & Hlen & Hrows).
  cbn [unsqueeze_last dims3] in Hdims.
  destruct (squeeze_last_shape φ_a' a_new (length (rows φ_a)) (ncol φ_a) Ha2)
    as (Hnew & Hlnew & Hwnew); [done..|].
  destruct (split_join_halves self h a_new φ_p) as (φ_out' & Hjoin & Hw & Hs);
    [congruence | done | done | done | congruence |].
  rewrite Ha3 in Hjoin. injection Hjoin as <-.
  split; [congruence|]. exists out, c, φ_a', a_new. by repeat split.
Qed.

End WithTypes.

Lemma DenseCouplingLayer_forward_passive_witness :
  DenseCouplingLayer_forward first_row dense_shift_1 features_4
  = Ok (T2 4 [[1; 2; 4; 5]]%Z, 0%Z)
  ∧ ncol (T2 4 [[1; 2; 4; 5]]%Z) = ncol features_4
  ∧ ∃ out c φ_a' a_new,
      dense_net dense_shift_1 (split dense_shift_1 features_4).2 = Ok out
      ∧ first_row out (length (rows (split dense_shift_1 features_4).1),
                       ncol (split dense_shift_1 features_4).1) = Ok c
      ∧ dense_transform dense_shift_1 c
          (unsqueeze_last (split dense_shift_1 features_4).1) = Ok (φ_a', 0%Z)
      ∧ squeeze_last φ_a' = Ok a_new
      ∧ split dense_shift_1 (T2 4 [[1; 2; 4; 5]]%Z)
        = (a_new, (split dense_shift_1 features_4).2).
Proof.
  split; [reflexivity|].
  apply (DenseCouplingLayer_forward_passive first_row dense_shift_1
           features_4 (T2 4 [[1; 2; 4; 5]]%Z) 0%Z).
  - repeat constructor.
  - intros out c y l Hout Hc H.
    injection Hout as <-. injection Hc as <-. injection H as <- <-.
    repeat split. repeat constructor.
  - reflexivity.
Defined.

End DenseForwardFacts.

(** *** layers.py: what the context of a coupling layer depends on *)

Module ContextFacts.
Import Layers.

Section WithTypes.
Context {V J : Type} (mask_mul : bool → V → V).
Local Abbreviation site := (list V).
Local Abbreviation grid := (list (list (list V))).
Local Abbreviation mask2 := (list (list bool)).
Local Abbreviation tensor4 := (@tensor4 V).
Local Abbreviation layer := (@coupling_layer V J).

(** [forward] computes the context of the input, and from there on uses the
    input only to clone it and to read its active values. *)
Lemma forward_context (l : layer) (s : list tensor4) (φ_in : nat) :
  forward mask_mul l s φ_in
  = match read s φ_in with
    | Raise e => (s, Raise e)
    | Ok t =>
      match context_of mask_mul l t with
      | Raise e => (s, Raise e)
      | Ok context =>
        match clone s φ_in with
        | Raise e => (s, Raise e)
        | Ok (s1, φ_out) =>
          match (x ← (t' ← read s1 φ_in;
                      select4 (active_mask_of l t) (entries4 t'));
                 transform_of l context x) with
          | Raise e => (s1, Raise e)
          | Ok (y, ldj) =>
            match setitem s1 φ_out (active_mask_of l t) y with
            | Raise e => (s1, Raise e)
            | Ok s2 => (s2, Ok (φ_out, ldj))
            end
          end
        end
      end
    end.
Proof.
  destruct l as [c|r]; simpl;
    [unfold ConvCouplingLayer_forward, ConvCouplingLayer_context
    |unfold CouplingLayer_forward, CouplingLayer_context];
    destruct (read s φ_in) as [t|]; try reflexivity;
    unfold active_mask_of; destruct (dims4 t) as [[[n L] T] ch].
  - by destruct (conv_partitioning c (L, T)).
  - by destruct (partitioning r (L, T)).
Qed.

Lemma map_const_eq {A B : Type} (f : A → B) (x y : list A) :
  (∀ a b, f a = f b) → length x = length y → map f x = map f y.
Proof.
  intros Hf. revert y. induction x as [|a x IH]; intros [|b y] Hlen; simpl in *;
    try done. f_equal; [apply Hf | apply IH; lia].
Qed.

(** Two grids of one shape that agree wherever the mask is on are equal
    once multiplied by the mask, when a site that is masked out no longer
    shows what it held. *)
Lemma mul_grid_agree (mask : mask2) :
  (∀ x y, mask_mul false x = mask_mul false y) →
  ∀ g g' : grid,
    Forall2 (Forall2 (fun a b : site => length a = length b)) g g' →
    (∀ i j, mask_at mask i j = Some true →
            (r ← g !! i; r !! j) = (r ← g' !! i; r !! j)) →
    mul_grid mask_mul mask g = mul_grid mask_mul mask g'.
Proof.
  intros Hzero. unfold mul_grid, mask_at.
  induction mask as [|m mask IH]; intros g g' Hshape Hagree; [done|].
  destruct Hshape as [|r r' g g' Hr Hg]; [done|]. simpl. f_equal.
  - specialize (Hagree 0). simpl in Hagree. clear IH Hg.
    revert r r' Hr Hagree. induction m as [|b m IHm]; intros r r' Hr Hagree; [done|].
    destruct Hr as [|a a' r r' Ha Hr]; [done|]. simpl. f_equal.
    + destruct b.
      * specialize (Hagree 0 eq_refl). simpl in Hagree. congruence.
      * by apply map_const_eq.
    + apply IHm; [done|]. intros j. apply (Hagree (S j)).
  - apply IH; [done|]. intros i j. apply (Hagree (S i) j).
Qed.

(** The context of both coupling layers is a function of the frozen sites
    alone: two inputs of one shape that agree at every site where the
    frozen mask is on get the same context, whatever their active values. *)
Theorem context_of_frozen_only (l : layer) (t t' : tensor4) :
  (∀ x y, mask_mul false x = mask_mul false y) →
  dims4 t = dims4 t' →
  Forall2 (Forall2 (Forall2 (fun a b : site => length a = length b)))
          (entries4 t) (entries4 t') →
  (∀ b i j, mask_at (frozen_mask_of l t) i j = Some true →
            site_at t b i j = site_at t' b i j) →
  context_of mask_mul l t = context_of mask_mul l t'.
Proof.
  intros Hzero Hdims Hshape Hagree.
  assert (Hmul : ∀ frozen,
    (∀ b i j, mask_at frozen i j = Some true → site_at t b i j = site_at t' b i j) →
    mul_mask4 mask_mul frozen t = mul_mask4 mask_mul frozen t').
  { intros frozen Hfr. unfold mul_mask4. rewrite <- Hdims.
    destruct (dims4 t) as [[[n L] T] ch].
    destruct (mask_shape_ok frozen L T); [|done]. do 2 f_equal.
    unfold site_at in Hfr. clear Hdims Hagree.
    revert Hfr. induction Hshape as [|g g' gs gs' Hg _ IH]; intros Hfr; [done|].
    simpl. f_equal.
    - apply mul_grid_agree; [done..|]. intros i j Hm. apply (Hfr 0 i j Hm).
    - apply IH. intros b i j Hm. apply (Hfr (S b) i j Hm). }
  unfold frozen_mask_of in Hagree.
  destruct l as [c|r]; simpl;
    [unfold ConvCouplingLayer_context | unfold CouplingLayer_context];
    rewrite <- Hdims; destruct (dims4 t) as [[[n L] T] ch].
  - destruct (conv_partitioning c (L, T)) as [active frozen]. simpl in Hagree.
    by rewrite (Hmul frozen Hagree).
  - destruct (partitioning r (L, T)) as [active frozen]. simpl in Hagree.
    by rewrite (Hmul frozen Hagree).
Qed.

End WithTypes.

Lemma context_of_frozen_only_witness :
  context_of mask_mul_Z (Radius radius_1_layer) lattice_2x2 = Ok [[[2; 3; 3; 2]; [3; 2; 2; 3]]]%Z
  ∧ context_of mask_mul_Z (Radius radius_1_layer) lattice_2x2
    = context_of mask_mul_Z (Radius radius_1_layer) lattice_2x2_other.
Proof.
  split; [reflexivity|].
  apply (context_of_frozen_only mask_mul_Z (Radius radius_1_layer)
           lattice_2x2 lattice_2x2_other).
  - reflexivity.
  - reflexivity.
  - repeat constructor.
  - intros [|b] [|[|i]] [|[|j]] H; try reflexivity; discriminate H.
Defined.

End ContextFacts.

(** *** layers.py: the store around [forward] *)

Module ForwardFacts.
Import Layers.

Section WithTypes.
Context {V J : Type} (mask_mul : bool → V → V).
Local Abbreviation site := (list V).
Local Abbreviation grid := (list (list (list V))).
Local Abbreviation mask2 := (list (list bool)).
Local Abbreviation tensor4 := (@tensor4 V).
Local Abbreviation layer := (@coupling_layer V J).

Lemma write_clone (s : list tensor4) (t t' : tensor4) :
  <[length s := t']> (s ++ [t]) = s ++ [t'].
Proof.
  rewrite insert_app_r_alt by lia. by rewrite Nat.sub_diag.
Qed.

Lemma setitem_clone (s : list tensor4) (t : tensor4) (mask : mask2)
    (y : list (list site)) :
  setitem (s ++ [t]) (length s) mask y
  = (gs ← scatter4 mask (entries4 t) y; Ok (s ++ [T4 (dims4 t) gs])).
Proof.
  unfold setitem, read. rewrite lookup_app_r by lia.
  rewrite Nat.sub_diag. simpl. destruct (scatter4 _ _ _); [|done]. simpl.
  by rewrite write_clone.
Qed.

(** [forward] step by step on an input that can be read. *)
Lemma forward_steps (l : layer) (s : list tensor4) (φ_in : nat) (t : tensor4) :
  s !! φ_in = Some t →
  forward mask_mul l s φ_in
  = match context_of mask_mul l t with
    | Raise e => (s, Raise e)
    | Ok context =>
      match (x ← select4 (active_mask_of l t) (entries4 t);
             transform_of l context x) with
      | Raise e => (s ++ [t], Raise e)
      | Ok (y, ldj) =>
        match scatter4 (active_mask_of l t) (entries4 t) y with
        | Raise e => (s ++ [t], Raise e)
        | Ok gs => (s ++ [T4 (dims4 t) gs], Ok (length s, ldj))
        end
      end
    end.
Proof.
  intros Hin. rewrite ContextFacts.forward_context. unfold read at 1. rewrite Hin.
  destruct (context_of mask_mul l t) as [context|]; [|done].
  unfold clone, read. rewrite Hin. simpl.
  rewrite lookup_app_l by (by eapply lookup_lt_Some). rewrite Hin. simpl.
  destruct (_ ≫= _) as [[y ldj]|]; [|done].
  rewrite setitem_clone. by destruct (scatter4 _ _ _).
Qed.

Lemma context_of_returns (l : layer) (t : tensor4) (N L T C : nat) :
  dims4 t = (N, L, T, C) →
  Forall (grid_shape L T) (entries4 t) →
  masks_fit l L T → net_fits mask_mul l L T t →
  ∃ context, context_of mask_mul l t = Ok context.
Proof.
  intros Hdims Ht Hmasks Hnet. unfold masks_fit in Hmasks.
  destruct l as [c|r]; simpl in *;
    [unfold ConvCouplingLayer_context | unfold CouplingLayer_context];
    unfold frozen_mask_of in *; rewrite Hdims in *.
  - destruct (conv_partitioning c (L, T)) as [active frozen].
    destruct Hmasks as [Hactive Hfrozen]. simpl in *.
    assert (Hmul : mul_mask4 mask_mul frozen t
                   = Ok (T4 (N, L, T, C) (map (mul_grid mask_mul frozen) (entries4 t)))).
    { unfold mul_mask4. by rewrite Hdims, (LayersFacts.mask_shape_ok_true _ _ _ Hfrozen). }
    destruct (Hnet _ Hmul) as (out & Hout & Hgrids).
    rewrite Hmul, bind_Ok_l, Hout, bind_Ok_l.
    apply (LayersFacts.select4_total L T); done.
  - destruct (partitioning r (L, T)) as [active frozen].
    destruct Hmasks as [Hactive Hfrozen]. destruct Hnet as [Hne Hshifts]. simpl in *.
    unfold mul_mask4.
    rewrite Hdims, (LayersFacts.mask_shape_ok_true _ _ _ Hfrozen), bind_Ok_l.
    set (context0 := T4 (N, L, T, C) (map (mul_grid mask_mul frozen) (entries4 t))).
    assert (Hctx0 : Forall (grid_shape L T) (entries4 context0)).
    { simpl. apply Forall_map. eapply Forall_impl; [exact Ht|].
      intros g Hg. by apply LayersFacts.grid_shape_zip_with. }
    destruct (LayersFacts.rolled_total L T context0 (shifts r) Hctx0 Hshifts)
      as (rolled & -> & Hlen & Hrolled).
    rewrite bind_Ok_l.
    destruct (LayersFacts.cat_last_total L T rolled) as (context1 & -> & Hctx1); [|done|].
    { intros ->. simpl in Hlen. destruct (shifts r); [done | discriminate]. }
    rewrite bind_Ok_l.
    apply (LayersFacts.select4_total L T); done.
Qed.



End WithTypes.



End ForwardFacts.

(** *** layers.py: the linear layers *)

Module LinearFacts.
Import Layers.

Section WithReals.
Open Scope R_scope.

Local Abbreviation matrix := (list (list R)).

Lemma below_S (i : nat) : below (S i) = (below i + i)%nat.
Proof.
  unfold below.
  replace (S i * S i - S i)%nat with ((i * i - i) + i * 2)%nat by nia.
  by rewrite Nat.div_add by lia.
Qed.

Lemma below_mono (a b : nat) : (a ≤ b)%nat → (below a ≤ below b)%nat.
Proof.
  induction 1 as [|b _ IH]; [done|]. rewrite (below_S b). lia.
Qed.

Lemma map_seq_const {A : Type} (f : nat → A) (c : A) (k n : nat) :
  (∀ i, (k ≤ i < k + n)%nat → f i = c) → map f (seq k n) = replicate n c.
Proof.
  revert k. induction n as [|n IH]; intros k H; [done|].
  simpl. rewrite H by lia. f_equal. apply IH. intros i Hi. apply H. lia.
Qed.

Lemma tril_mask_row (D i : nat) :
  (i ≤ D)%nat →
  map (fun j => bool_decide (j < i)%nat) (seq 0 D)
  = replicate i true ++ replicate (D - i) false.
Proof.
  intros Hi. replace D with (i + (D - i))%nat at 1 by lia.
  rewrite seq_app, map_app. f_equal; apply map_seq_const; intros j Hj.
  - apply bool_decide_eq_true_2. lia.
  - apply bool_decide_eq_false_2. lia.
Qed.

Lemma scatter_line_off {A : Type} (row src : list A) :
  scatter_line (replicate (length row) false) row src = Ok (row, src).
Proof.
  induction row as [|x row IH]; [done|]. simpl. by rewrite IH.
Qed.

Lemma scatter_line_prefix {A : Type} (i : nat) (row src : list A) :
  (i ≤ length row)%nat → (i ≤ length src)%nat →
  scatter_line (replicate i true ++ replicate (length row - i) false) row src
  = Ok (take i src ++ drop i row, drop i src).
Proof.
  revert row src. induction i as [|i IH]; intros row src Hr Hs.
  - simpl. rewrite Nat.sub_0_r. apply scatter_line_off.
  - destruct row as [|x row]; [simpl in Hr; lia|].
    destruct src as [|v src]; [simpl in Hs; lia|].
    simpl in *. rewrite IH by lia. done.
Qed.

Lemma scatter_lines_tril {A : Type} (D : nat) (t : list (list A)) :
  ∀ (k : nat) (src : list A),
  Forall (fun r => length r = D) t →
  (k + length t ≤ D)%nat →
  (below (k + length t) - below k ≤ length src)%nat →
  scatter_lines (map (fun i => map (fun j => bool_decide (j < i)%nat) (seq 0 D))
                     (seq k (length t))) t src
  = Ok (imap (fun i r => take (k + i) (drop (below (k + i) - below k) src)
                         ++ drop (k + i) r) t,
        drop (below (k + length t) - below k) src).
Proof.
  induction t as [|r t IH]; intros k src Hlen Hk Hsrc.
  - simpl. rewrite Nat.add_0_r, Nat.sub_diag. done.
  - apply Forall_cons in Hlen as [Hr Hlen]. simpl length in *.
    replace (k + S (length t))%nat with (S k + length t)%nat in * by lia.
    assert (Hb : (below (S k) ≤ below (S k + length t))%nat)
      by (apply below_mono; lia).
    pose proof (below_S k) as HS.
    cbn [seq map scatter_lines].
    rewrite tril_mask_row by lia. rewrite <- Hr.
    rewrite scatter_line_prefix by lia. rewrite bind_Ok_l. cbv beta iota.
    rewrite Hr, (IH (S k) (drop k src)); [|done|lia|rewrite length_drop; lia].
    rewrite bind_Ok_l. cbv beta iota. cbn [imap]. f_equal. f_equal.
    + f_equal.
      * rewrite Nat.add_0_r, Nat.sub_diag. done.
      * apply imap_ext. intros i x _. unfold compose.
        rewrite drop_drop.
        replace (k + S i)%nat with (S k + i)%nat by lia.
        assert ((below (S k) ≤ below (S k + i))%nat) by (apply below_mono; lia).
        do 3 f_equal. lia.
    + rewrite drop_drop. f_equal. lia.
Qed.

Lemma length_diag_embed (d : list R) : length (diag_embed d) = length d.
Proof. apply length_imap. Qed.

Lemma diag_embed_rows (d : list R) :
  Forall (fun r => length r = length d) (diag_embed d).
Proof.
  apply Forall_forall. intros r [i [x [-> _]]]%elem_of_lookup_imap.
  by rewrite length_insert, length_replicate.
Qed.

Lemma omap_seq_lookup {A : Type} (d : list A) :
  ∀ (k : nat) (f : nat → option A),
  (∀ i, (i < length d)%nat → f (k + i)%nat = d !! i) →
  omap f (seq k (length d)) = d.
Proof.
  induction d as [|x d IH]; intros k f H; [done|].
  simpl. specialize (H 0%nat) as H0. rewrite Nat.add_0_r in H0.
  rewrite H0 by (simpl; lia). simpl. f_equal. apply IH.
  intros i Hi. replace (S k + i)%nat with (k + S i)%nat by lia.
  apply H. simpl. lia.
Qed.

Lemma diagonal_diag_embed (d : list R) : diagonal (diag_embed d) = d.
Proof.
  unfold diagonal. rewrite length_diag_embed. apply omap_seq_lookup.
  intros i Hi. simpl. unfold diag_embed. rewrite list_lookup_imap.
  destruct (lookup_lt_is_Some_2 d i Hi) as [x Hx]. rewrite Hx. simpl.
  apply list_lookup_insert_eq. by rewrite length_replicate.
Qed.

Lemma get_weight_lower (self : TriangularLinearLayer) (D : nat) :
  built self D →
  TriangularLinearLayer_get_weight self = Ok (lower D (tri_diag self) (tri_tril self)).
Proof.
  intros (Hd & Ht & Hm).
  unfold TriangularLinearLayer_get_weight, masked_scatter. rewrite Hm.
  unfold tril_mask.
  set (d := map (softplus (ln 2)) (tri_diag self)).
  assert (Hlen : length d = D) by (subst d; by rewrite length_map).
  pose proof (scatter_lines_tril D (diag_embed d) 0 (tri_tril self)) as H.
  rewrite length_diag_embed, Hlen in H.
  rewrite H.
  - simpl. f_equal. unfold lower, diag_embed. subst d.
    apply list_eq. intros i. rewrite !list_lookup_imap, list_lookup_fmap.
    destruct (tri_diag self !! i) as [x|] eqn:Hx; [|done]. simpl. f_equal.
    apply lookup_lt_Some in Hx.
    rewrite Nat.sub_0_r. f_equal.
    rewrite length_map, Hd.
    rewrite drop_insert_ge by lia. rewrite Nat.sub_diag.
    rewrite drop_replicate.
    replace (D - i)%nat with (S (D - S i))%nat by lia. done.
  - rewrite <- Hlen. apply diag_embed_rows.
  - lia.
  - simpl. rewrite Ht. lia.
Qed.

Lemma lower_row (D : nat) (diag tril : list R) (i : nat) (d : R) :
  length tril = below D → length diag = D → diag !! i = Some d →
  ∃ row, lower D diag tril !! i = Some row
         ∧ length row = D
         ∧ (∀ j, (j < i)%nat → row !! j = tril !! (below i + j)%nat)
         ∧ row !! i = Some (softplus (ln 2) d)
         ∧ (∀ j, (i < j < D)%nat → row !! j = Some 0).
Proof.
  intros Ht Hd Hi. pose proof (lookup_lt_Some _ _ _ Hi) as Hlt.
  unfold lower. rewrite list_lookup_imap, Hi. simpl. eexists. split; [done|].
  assert (Hb : (below (S i) ≤ below D)%nat) by (apply below_mono; lia).
  rewrite below_S in Hb.
  assert (Hlen : length (take i (drop (below i) tril)) = i).
  { rewrite length_take, length_drop. lia. }
  split; [|split; [|split]].
  - rewrite length_app, Hlen. simpl. rewrite length_replicate. lia.
  - intros j Hj. rewrite lookup_app_l by lia.
    rewrite lookup_take_lt by lia. by rewrite lookup_drop.
  - rewrite lookup_app_r by lia. by rewrite Hlen, Nat.sub_diag.
  - intros j Hj. rewrite lookup_app_r by lia. rewrite Hlen.
    replace (j - i)%nat with (S (j - S i)) by lia. simpl.
    apply lookup_replicate_2. lia.
Qed.

Lemma diagonal_lower (D : nat) (diag tril : list R) :
  length tril = below D → length diag = D →
  diagonal (lower D diag tril) = map (softplus (ln 2)) diag.
Proof.
  intros Ht Hd. unfold diagonal.
  replace (length (lower D diag tril)) with (length (map (softplus (ln 2)) diag))
    by (unfold lower; by rewrite length_imap, length_map).
  apply omap_seq_lookup. intros i Hi. rewrite length_map in Hi. simpl.
  destruct (lookup_lt_is_Some_2 diag i Hi) as [d Hdi].
  destruct (lower_row D diag tril i d Ht Hd Hdi) as (row & -> & _ & _ & Hii & _).
  simpl. rewrite Hii. by rewrite list_lookup_fmap, Hdi.
Qed.

Lemma softplus_beta_pos (beta x : R) : 0 < beta → 0 < softplus beta x.
Proof.
  intros Hb. unfold softplus. destruct (Rlt_dec 20 (beta * x)) as [H|_].
  - destruct (Rle_or_lt x 0) as [Hx|Hx]; [|done]. nra.
  - apply Rdiv_lt_0_compat; [|done].
    rewrite <- ln_1. apply ln_increasing; [lra|].
    pose proof (exp_pos (beta * x)). lra.
Qed.

Lemma check_size_Ok (size : Z) (n : nat) :
  check_size size = Ok n → (0 ≤ size)%Z ∧ n = Z.to_nat size.
Proof.
  unfold check_size. destruct (Z.ltb_spec size 0); [done|].
  intros [= <-]. done.
Qed.

Lemma init_built (uniform : nat → R) (size : Z) (made : TriangularLinearLayer) :
  TriangularLinearLayer_init uniform size = Ok made →
  (0 ≤ size)%Z ∧ built made (Z.to_nat size).
Proof.
  unfold TriangularLinearLayer_init.
  destruct (check_size size) as [n|] eqn:Hn; [|done].
  apply check_size_Ok in Hn as [Hsize ->]. rewrite bind_Ok_l.
  destruct (check_size _) as [m|] eqn:Hm; [|done].
  apply check_size_Ok in Hm as [_ ->]. rewrite bind_Ok_l.
  intros [= <-]. split; [done|]. unfold built. cbn.
  rewrite !length_map, !length_seq. split; [done|]. split; [|done].
  unfold below. rewrite Z2Nat.inj_div by nia.
  rewrite Z2Nat.inj_sub by lia. rewrite Z.pow_2_r, Z2Nat.inj_mul by lia.
  done.
Qed.

Lemma init_returns (uniform : nat → R) (size : Z) :
  (0 ≤ size)%Z →
  TriangularLinearLayer_init uniform size
  = Ok {| tri_diag := map uniform (seq 0 (Z.to_nat size));
          tri_tril := map uniform (seq (Z.to_nat size)
                                       (Z.to_nat ((size ^ 2 - size) / 2)));
          tri_mask := tril_mask (Z.to_nat size) |}.
Proof.
  intros Hsize. unfold TriangularLinearLayer_init, check_size.
  replace (size <? 0)%Z with false by (symmetry; apply Z.ltb_ge; lia).
  rewrite bind_Ok_l.
  replace ((size ^ 2 - size) / 2 <? 0)%Z with false; [done|].
  symmetry. apply Z.ltb_ge. apply Z.div_pos; nia.
Qed.

(** What [__init__] and [get_weight] of [TriangularLinearLayer] build
    together.  [__init__] raises on a negative size and returns for every
    other size [D]: the layer then holds [D] draws as [diag], the next
    [(D ** 2 - D) // 2] draws as [tril], and the mask that is on strictly
    below the diagonal.  From then on, whatever values the two parameters
    take, [get_weight] returns a square matrix of size [D] whose row [i]
    holds, left of the diagonal, the entries of [tril] from position
    [(i * i - i) / 2] on, in order; on the diagonal the softplus of
    [diag[i]], which is positive; and zero right of the diagonal.  [tril] is
    used up exactly. *)
Theorem TriangularLinearLayer_get_weight_entries (uniform : nat → R) (size : Z) :
  ((size < 0)%Z → TriangularLinearLayer_init uniform size = Raise RuntimeError)
  ∧ ((0 ≤ size)%Z →
     ∃ made,
       TriangularLinearLayer_init uniform size = Ok made
       ∧ tri_diag made = map uniform (seq 0 (Z.to_nat size))
       ∧ tri_tril made
         = map uniform (seq (Z.to_nat size)
                            ((Z.to_nat size * Z.to_nat size - Z.to_nat size) / 2))
       ∧ tri_mask made = tril_mask (Z.to_nat size)
       ∧ ∀ self : TriangularLinearLayer,
           length (tri_diag self) = length (tri_diag made) →
           length (tri_tril self) = length (tri_tril made) →
           tri_mask self = tri_mask made →
           ∃ W, TriangularLinearLayer_get_weight self = Ok W
             ∧ length W = Z.to_nat size
             ∧ length (tri_tril self)
               = ((Z.to_nat size * Z.to_nat size - Z.to_nat size) / 2)%nat
             ∧ ∀ i, (i < Z.to_nat size)%nat →
                 ∃ row d, W !! i = Some row
                   ∧ length row = Z.to_nat size
                   ∧ tri_diag self !! i = Some d
                   ∧ row !! i = Some (softplus (ln 2) d)
                   ∧ 0 < softplus (ln 2) d
                   ∧ (∀ j, (j < i)%nat →
                        ∃ v, tri_tril self !! ((i * i - i) / 2 + j)%nat = Some v
                             ∧ row !! j = Some v)
                   ∧ (∀ j, (i < j < Z.to_nat size)%nat → row !! j = Some 0)).
Proof.
  split.
  { intros Hneg. unfold TriangularLinearLayer_init, check_size.
    by replace (size <? 0)%Z with true by (symmetry; apply Z.ltb_lt; lia). }
  intros Hsize. pose proof (init_returns uniform size Hsize) as Hinit.
  eexists. split; [exact Hinit|].
  pose proof (init_built _ _ _ Hinit) as [_ (Hd' & Ht' & Hm')].
  cbn [tri_diag tri_tril tri_mask] in *.
  split; [done|]. split.
  { f_equal. f_equal. rewrite length_map, length_seq in Ht'. exact Ht'. }
  split; [done|].
  intros self Hd Ht Hm.
  set (D := Z.to_nat size) in *.
  assert (Hb : built self D) by (unfold built; split; [|split]; congruence).
  destruct Hb as (HD & HT & _).
  exists (lower D (tri_diag self) (tri_tril self)).
  split; [apply get_weight_lower; unfold built; split; [|split]; congruence|].
  split; [unfold lower; by rewrite length_imap|].
  split; [exact HT|].
  intros i Hi.
  destruct (lookup_lt_is_Some_2 (tri_diag self) i) as [d Hdi]; [lia|].
  destruct (lower_row D _ _ i d HT HD Hdi) as (row & Hrow & Hlen & Hlow & Hii & Hup).
  exists row, d. repeat split; try done.
  - apply softplus_beta_pos, LayersFacts.ln_2_pos.
  - intros j Hj.
    assert (Hle : (below (S i) ≤ below D)%nat) by (apply below_mono; lia).
    rewrite below_S in Hle.
    destruct (lookup_lt_is_Some_2 (tri_tril self) (below i + j)) as [v Hv]; [lia|].
    exists v. split; [exact Hv|]. by rewrite Hlow.
Qed.

Section Forward.
Context (mv : matrix → tensor R → result (tensor R)).

Lemma assert_dim {V : Type} (z : tensor V) :
  (dim z ≠ 2%nat → assert (dim z =? 2)%nat = Raise AssertionError)
  ∧ (dim z = 2%nat → assert (dim z =? 2)%nat = Ok tt).
Proof.
  split; intros H.
  - apply Nat.eqb_neq in H. by rewrite H.
  - apply Nat.eqb_eq in H. by rewrite H.
Qed.

(** [forward] of [TriangularLinearLayer]: an input that is not of rank 2
    fails the assertion; on an input of rank 2 the method returns what [mv]
    returns on the weight matrix, and beside it a column with one row per
    row of that result, each holding the sum of [ln (softplus diag[i])]: the
    log-det does not depend on [tril], nor on the input.  An [mv] that
    raises makes [forward] raise the same, and a result of rank 0 raises an
    [IndexError]. *)
Theorem TriangularLinearLayer_forward_log_det (self : TriangularLinearLayer)
    (D : nat) (z : tensor R) :
  built self D →
  (dim z ≠ 2%nat → TriangularLinearLayer_forward mv self z = Raise AssertionError)
  ∧ (dim z = 2%nat →
     ∃ W, TriangularLinearLayer_get_weight self = Ok W
       ∧ (∀ e, mv W z = Raise e → TriangularLinearLayer_forward mv self z = Raise e)
       ∧ ∀ φ, mv W z = Ok φ →
           (shape φ = [] → TriangularLinearLayer_forward mv self z = Raise IndexError)
           ∧ ∀ n rest, shape φ = n :: rest →
               TriangularLinearLayer_forward mv self z
               = Ok (φ, Tensor [n; 1%nat]
                          (replicate n (sum_list (map (fun d => ln (softplus (ln 2) d))
                                                      (tri_diag self)))))).
Proof.
  intros Hb. pose proof (get_weight_lower self D Hb) as HW.
  destruct Hb as (HD & HT & _).
  unfold TriangularLinearLayer_forward.
  destruct (assert_dim z) as [Hno Hyes]. split.
  - intros H. by rewrite Hno.
  - intros H. rewrite Hyes, bind_Ok_l by done.
    eexists. split; [exact HW|]. rewrite HW, bind_Ok_l. split.
    + intros e ->. done.
    + intros φ ->. rewrite bind_Ok_l. unfold log_det_column.
      rewrite diagonal_lower by done. rewrite map_map. split.
      * intros ->. done.
      * intros n rest ->. done.
Qed.

(** [forward] of [DiagonalLinearLayer]: an input that is not of rank 2 fails
    the assertion; on an input of rank 2 on which [mv] returns, the log-det
    column holds, in every row, the sum of [ln (softplus weight[i])]; and the
    layer as [__init__] makes it has the identity matrix as its weight and
    the log-det zero. *)
Theorem DiagonalLinearLayer_forward_log_det (self : DiagonalLinearLayer) (z : tensor R) :
  (dim z ≠ 2%nat → DiagonalLinearLayer_forward mv self z = Raise AssertionError)
  ∧ (dim z = 2%nat →
     ∀ φ n rest, mv (DiagonalLinearLayer_get_weight self) z = Ok φ →
       shape φ = n :: rest →
       DiagonalLinearLayer_forward mv self z
       = Ok (φ, Tensor [n; 1%nat]
                  (replicate n (sum_list (map (fun w => ln (softplus (ln 2) w))
                                              (diag_weight self))))))
  ∧ (∀ size, DiagonalLinearLayer_init size = Ok self →
       DiagonalLinearLayer_get_weight self = diag_embed (replicate (Z.to_nat size) 1)
       ∧ sum_list (map (fun w => ln (softplus (ln 2) w)) (diag_weight self)) = 0).
Proof.
  unfold DiagonalLinearLayer_forward.
  destruct (assert_dim z) as [Hno Hyes]. split; [|split].
  - intros H. by rewrite Hno.
  - intros H φ n rest Hmv Hsh. rewrite Hyes, bind_Ok_l by done.
    rewrite Hmv, bind_Ok_l. unfold log_det_column, DiagonalLinearLayer_get_weight.
    rewrite diagonal_diag_embed, map_map, Hsh. done.
  - intros size. unfold DiagonalLinearLayer_init.
    destruct (check_size size) as [n|] eqn:Hn; [|done].
    apply check_size_Ok in Hn as [_ ->]. rewrite bind_Ok_l. intros [= <-].
    unfold DiagonalLinearLayer_get_weight. cbn [diag_weight].
    generalize (Z.to_nat size). intros n. split.
    + f_equal. induction n as [|n IH]; [done|]. simpl. by rewrite LayersFacts.softplus_ln2_0, IH.
    + induction n as [|n IH]; [done|]. simpl. rewrite LayersFacts.softplus_ln2_0, ln_1, IH. lra.
Qed.

End Forward.

End WithReals.

Lemma TriangularLinearLayer_get_weight_entries_witness :
  (∃ made, TriangularLinearLayer_init (fun _ => 0%R) 3 = Ok made
           ∧ length (tri_diag made) = 3%nat ∧ length (tri_tril made) = 3%nat)
  ∧ ∃ W, TriangularLinearLayer_get_weight triangular_3 = Ok W
       ∧ length W = 3%nat
       ∧ length (tri_tril triangular_3) = ((3 * 3 - 3) / 2)%nat
       ∧ ∀ i, (i < 3)%nat →
           ∃ row d, W !! i = Some row
             ∧ length row = 3%nat
             ∧ tri_diag triangular_3 !! i = Some d
             ∧ row !! i = Some (softplus (ln 2) d)
             ∧ (0 < softplus (ln 2) d)%R
             ∧ (∀ j, (j < i)%nat →
                  ∃ v, tri_tril triangular_3 !! ((i * i - i) / 2 + j)%nat = Some v
                       ∧ row !! j = Some v)
             ∧ (∀ j, (i < j < 3)%nat → row !! j = Some 0%R).
Proof.
  destruct (TriangularLinearLayer_get_weight_entries (fun _ => 0%R) 3) as [_ H].
  destruct (H ltac:(lia)) as (made & Hinit & Hdiag & Htril & Hmask & Hweight).
  split.
  - exists made. split; [exact Hinit|]. rewrite Hdiag, Htril. split; reflexivity.
  - apply (Hweight triangular_3).
    + rewrite Hdiag. reflexivity.
    + rewrite Htril. reflexivity.
    + rewrite Hmask. reflexivity.
Defined.

Lemma TriangularLinearLayer_forward_log_det_witness :
  TriangularLinearLayer_forward keep_input triangular_3 (Tensor [1; 3]%nat [1; 2; 3]%R)
  = Ok (Tensor [1; 3]%nat [1; 2; 3]%R,
        Tensor [1; 1]%nat
          [sum_list (map (fun d => ln (softplus (ln 2) d)) [0; 0; 0]%R)]).
Proof.
  assert (Hb : built triangular_3 3) by (repeat split).
  destruct (TriangularLinearLayer_forward_log_det keep_input triangular_3 3
              (Tensor [1; 3]%nat [1; 2; 3]%R) Hb) as [_ H].
  destruct (H eq_refl) as (W & _ & _ & Hret).
  destruct (Hret (Tensor [1; 3]%nat [1; 2; 3]%R) eq_refl) as [_ Hgo].
  exact (Hgo 1%nat [3%nat] eq_refl).
Defined.

Lemma DiagonalLinearLayer_forward_log_det_witness :
  DiagonalLinearLayer_forward keep_input {| diag_weight := [0; 0]%R |}
    (Tensor [1; 2]%nat [3; 4]%R)
  = Ok (Tensor [1; 2]%nat [3; 4]%R,
        Tensor [1; 1]%nat
          [sum_list (map (fun w => ln (softplus (ln 2) w)) [0; 0]%R)])
  ∧ sum_list (map (fun w => ln (softplus (ln 2) w)) [0; 0]%R) = 0%R.
Proof.
  destruct (DiagonalLinearLayer_forward_log_det keep_input {| diag_weight := [0; 0]%R |}
              (Tensor [1; 2]%nat [3; 4]%R)) as (_ & Hret & Hinit).
  split.
  - exact (Hret eq_refl (Tensor [1; 2]%nat [3; 4]%R) 1%nat [2%nat] eq_refl eq_refl).
  - exact (proj2 (Hinit 2%Z eq_refl)).
Defined.

End LinearFacts.

(** *** observables.py: [TwoPointObservables] *)

Module TwoPointFacts.
Import Observables.

Section WithReals.
Open Scope R_scope.

Lemma sum_list_zip_plus (a b : list R) :
  length a = length b →
  sum_list (zip_with Rplus a b) = sum_list a + sum_list b.
Proof.
  revert b. induction a as [|x a IH]; intros [|y b] Hlen; simpl in *; try done.
  - lra.
  - rewrite IH by lia. lra.
Qed.

Lemma sum_list_zeros (n : nat) : sum_list (replicate n 0) = 0.
Proof. induction n as [|n IH]; simpl; [done | rewrite IH; lra]. Qed.

Lemma sum_rows_length (T : nat) (g : list (list R)) :
  Forall (fun r => length r = T) g → length (sum_rows T g) = T.
Proof.
  induction 1 as [|r g Hr _ IH]; simpl.
  - by rewrite length_replicate.
  - rewrite length_zip_with. fold (sum_rows T g). simpl in *. lia.
Qed.

Lemma sum_rows_total (T : nat) (g : list (list R)) :
  Forall (fun r => length r = T) g →
  sum_list (sum_rows T g) = sum_list (map sum_list g).
Proof.
  induction 1 as [|r g Hr Hg IH]; simpl.
  - apply sum_list_zeros.
  - rewrite sum_list_zip_plus; [by rewrite IH|].
    rewrite Hr. symmetry. by apply sum_rows_length.
Qed.


(** [acosh] undoes [cosh] on masses that are not negative. *)
Lemma acosh_cosh (m : R) :
  0 <= m →
  1 <= (exp m + exp (- m)) / 2
  ∧ acosh ((exp m + exp (- m)) / 2) = m.
Proof.
  intros Hm.
  pose proof (exp_pos m) as Hx. pose proof (exp_pos (- m)) as Hy.
  assert (Hxy : exp m * exp (- m) = 1).
  { rewrite <- exp_plus. replace (m + - m) with 0 by lra. apply exp_0. }
  assert (Hge : exp (- m) <= exp m).
  { destruct (Req_dec m 0) as [->|Hne].
    - rewrite Ropp_0. lra.
    - left. apply exp_increasing. lra. }
  split; [nra|].
  unfold acosh.
  replace ((exp m + exp (- m)) / 2 * ((exp m + exp (- m)) / 2) - 1)
    with ((exp m - exp (- m)) / 2 * ((exp m - exp (- m)) / 2)) by nra.
  rewrite sqrt_square by lra.
  replace ((exp m + exp (- m)) / 2 + (exp m - exp (- m)) / 2) with (exp m) by lra.
  apply ln_exp.
Qed.

(** Three neighbouring values of a pure exponential give its mass. *)
Lemma pole_mass_exponential (A m : R) (t : nat) :
  A ≠ 0 → 0 <= m →
  pole_mass (A * exp (- (m * INR t))) (A * exp (- (m * INR (t + 2))))
            (A * exp (- (m * INR (t + 1))))
  = Finite m.
Proof.
  intros HA Hm. unfold pole_mass.
  pose proof (exp_pos (- (m * INR (t + 1)))) as Hc.
  destruct (Req_dec_T (A * exp (- (m * INR (t + 1)))) 0) as [H0|_]; [nra|].
  assert (Hq : (A * exp (- (m * INR t)) + A * exp (- (m * INR (t + 2))))
               / (2 * (A * exp (- (m * INR (t + 1)))))
               = (exp m + exp (- m)) / 2).
  { replace (- (m * INR t)) with (- (m * INR (t + 1)) + m)
      by (rewrite plus_INR; simpl; lra).
    replace (- (m * INR (t + 2))) with (- (m * INR (t + 1)) + - m)
      by (rewrite !plus_INR; simpl; lra).
    rewrite !exp_plus. field. split; lra. }
  rewrite Hq. destruct (acosh_cosh m Hm) as [Hge ->].
  by destruct (Rle_dec 1 ((exp m + exp (- m)) / 2)).
Qed.

Lemma pole_mass_row (A m : R) (k : nat) :
  A ≠ 0 → 0 <= m →
  ∀ s, zip_with3 pole_mass
         (map (fun t => A * exp (- (m * INR t))) (seq s k))
         (map (fun t => A * exp (- (m * INR t))) (seq (s + 2) k))
         (map (fun t => A * exp (- (m * INR t))) (seq (s + 1) k))
       = replicate k (Finite m).
Proof.
  intros HA Hm. unfold zip_with3.
  induction k as [|k IH]; intros s; simpl; [done|].
  rewrite pole_mass_exponential by done. f_equal. apply (IH (S s)).
Qed.

(** On a zero-momentum correlator whose rows are pure exponentials
    [A exp(-m t)], the effective pole mass is [m] at each of the [T - 2]
    interior times, and the result has no column at all when [T] is 2 or
    less. *)
Theorem effective_pole_mass_exponential (self : TwoPointObservables)
    (g : array2 R) (params : list (R * R)) :
  zero_momentum_correlator self = Ok g →
  lines g = map (fun p => map (fun t => p.1 * exp (- (p.2 * INR t)))
                              (seq 0 (width g))) params →
  Forall (fun p => p.1 ≠ 0 ∧ 0 <= p.2) params →
  effective_pole_mass self
  = Ok (A2 (width g - 2)
           (map (fun p => replicate (width g - 2) (Finite p.2)) params)).
Proof.
  intros Hg Hlines Hparams. unfold effective_pole_mass. rewrite Hg, bind_Ok_l.
  f_equal. f_equal. rewrite Hlines, map_map.
  apply Forall_fmap_ext_1. eapply Forall_impl; [exact Hparams|].
  intros [A m] [HA Hm]. cbn [fst snd].
  set (f := fun t => A * exp (- (m * INR t))).
  set (T := width g).
  rewrite <- (pole_mass_row A m (T - 2) HA Hm 0). fold f. f_equal.
  - by rewrite firstn_map, take_seq, Nat.min_l by lia.
  - by rewrite skipn_map, drop_seq.
  - rewrite skipn_map, drop_seq, firstn_map, take_seq. by rewrite Nat.min_l by lia.
Qed.

Lemma effective_pole_mass_exponential_witness :
  effective_pole_mass decaying = Ok (A2 2 [[Finite 1; Finite 1]]).
Proof.
  pose (g := A2 4 [zip_with Rplus (map (fun t => 1 * exp (- (1 * INR t))) (seq 0 4))
                                  (replicate 4 0)]).
  apply (effective_pole_mass_exponential decaying g [(1, 1)]).
  - reflexivity.
  - cbn. by rewrite !Rplus_0_r.
  - constructor; [|constructor]. cbn. split; lra.
Defined.

(** An object on which [_computed] was never set, which is every object the
    class itself creates, has none of the four observables: each raises
    [AttributeError]. *)
Theorem TwoPointObservables_unset (self : TwoPointObservables) :
  computed_attr self = None →
  correlator self = Raise AttributeError
  ∧ zero_momentum_correlator self = Raise AttributeError
  ∧ effective_pole_mass self = Raise AttributeError
  ∧ susceptibility self = Raise AttributeError
  ∧ energy_density self = Raise AttributeError.
Proof.
  intros H.
  unfold effective_pole_mass, zero_momentum_correlator, susceptibility,
    energy_density, correlator.
  rewrite H. by repeat split.
Qed.

Lemma TwoPointObservables_unset_witness :
  computed_attr TwoPointObservables_new = None
  ∧ correlator TwoPointObservables_new = Raise AttributeError
  ∧ zero_momentum_correlator TwoPointObservables_new = Raise AttributeError
  ∧ effective_pole_mass TwoPointObservables_new = Raise AttributeError
  ∧ susceptibility TwoPointObservables_new = Raise AttributeError
  ∧ energy_density TwoPointObservables_new = Raise AttributeError.
Proof.
  split; [reflexivity|].
  exact (TwoPointObservables_unset TwoPointObservables_new eq_refl).
Defined.

Lemma cell_well_formed (L T : nat) (g : list (list R)) (x t : nat) :
  length g = L → Forall (fun r => length r = T) g →
  (x < L)%nat → (t < T)%nat → ∃ v, cell g x t = Ok v.
Proof.
  intros HL HT Hx Ht. unfold cell.
  destruct (lookup_lt_is_Some_2 g x) as [r Hr]; [lia|]. rewrite Hr. simpl.
  assert (Hlen : length r = T).
  { rewrite Forall_forall in HT. apply HT. by eapply list_elem_of_lookup_2. }
  destruct (lookup_lt_is_Some_2 r t) as [v Hv]; [lia|]. rewrite Hv. eauto.
Qed.

(** On a well-formed stack of correlators the energy density exists exactly
    when the lattice has at least two sites along each axis; it is then one
    number per row of the stack, and an [IndexError] otherwise. *)
Theorem energy_density_bounds (self : TwoPointObservables) (c : array3) :
  computed_attr self = Some c →
  well_formed3 c →
  ((2 <= (dims c).1.2)%nat ∧ (2 <= (dims c).2)%nat →
     ∃ e, energy_density self = Ok e ∧ length e = (dims c).1.1)
  ∧ (((dims c).1.2 < 2)%nat ∨ ((dims c).2 < 2)%nat →
     energy_density self = Raise IndexError).
Proof.
  intros Hc Hwf. unfold energy_density, correlator. rewrite Hc, bind_Ok_l.
  unfold well_formed3 in Hwf. destruct (dims c) as [[n L] T]. cbn [fst snd].
  destruct Hwf as [Hn Hcells]. split.
  - intros [HL HT].
    replace ((L <? 2)%nat || (T <? 2)%nat) with false.
    2:{ symmetry. apply orb_false_iff. split; apply Nat.ltb_ge; lia. }
    destruct (mapM_total_in
                (fun g => a ← cell g 1 0; b ← cell g 0 1; Ok ((a + b) / 2))
                (fun _ => True) (cells c)) as (e & He & Hlen & _).
    + intros g Hg. rewrite Forall_forall in Hcells.
      destruct (Hcells g Hg) as [Hg1 Hg2].
      destruct (cell_well_formed L T g 1 0 Hg1 Hg2) as [a ->]; [lia..|].
      destruct (cell_well_formed L T g 0 1 Hg1 Hg2) as [b ->]; [lia..|].
      simpl. eauto.
    + exists e. split; [done | lia].
  - intros Hsmall.
    replace ((L <? 2)%nat || (T <? 2)%nat) with true; [done|].
    symmetry. apply orb_true_iff.
    destruct Hsmall; [left | right]; apply Nat.ltb_lt; lia.
Qed.

Lemma energy_density_bounds_witness :
  energy_density two_by_two = Ok [(3 + 1) / 2]
  ∧ ((2 <= 2)%nat ∧ (2 <= 2)%nat →
       ∃ e, energy_density two_by_two = Ok e ∧ length e = 1%nat)
  ∧ ((2 < 2)%nat ∨ (2 < 2)%nat → energy_density two_by_two = Raise IndexError).
Proof.
  split; [reflexivity|].
  apply (energy_density_bounds two_by_two (A3 (1, 2, 2)%nat [[[4; 1]; [3; 2]]])).
  - reflexivity.
  - split; [reflexivity|]. repeat constructor.
Defined.


End WithReals.

End TwoPointFacts.

(** *** observables.py: the bootstrap resamples *)

Module BootstrapFacts.
Import Observables.

Lemma concat_chunk {A : Type} (m : nat) (cs : list (list A)) :
  Forall (fun c => length c = m) cs →
  ∀ j c, cs !! j = Some c → take m (drop (j * m) (concat cs)) = c.
Proof.
  induction 1 as [|c0 cs Hc0 _ IH]; intros j c Hj; [done|].
  destruct j as [|j]; simpl in *.
  - injection Hj as <-. rewrite <- Hc0. apply take_app_length.
  - rewrite drop_app_ge by lia. rewrite Hc0.
    replace (m + j * m - m)%nat with (j * m)%nat by lia. by apply IH.
Qed.

Lemma length_concat_chunks {A : Type} (m : nat) (cs : list (list A)) :
  Forall (fun c => length c = m) cs → length (concat cs) = (length cs * m)%nat.
Proof.
  induction 1 as [|c cs Hc _ IH]; [done|].
  simpl. rewrite length_app, Hc, IH. done.
Qed.

Lemma length_chunk {A : Type} (m n i : nat) (entries : list A) :
  length entries = (n * m)%nat → (i < n)%nat →
  length (take m (drop (i * m) entries)) = m.
Proof.
  intros Hlen Hi. rewrite length_take, length_drop, Hlen. nia.
Qed.

Lemma slice0_whole {V : Type} (t : tensor V) :
  well_formed t → slice0 (shape t) (data t) 0 = t.
Proof.
  intros Hwf. unfold slice0. simpl. destruct t as [sh d]. simpl in *. f_equal.
  apply take_ge. unfold well_formed in Hwf. simpl in Hwf. lia.
Qed.

Lemma mapM_map {A B C : Type} (f : B → result C) (g : A → B) (l : list A) :
  mapM f (map g l) = mapM (fun x => f (g x)) l.
Proof.
  induction l as [|x l IH]; [done|]. simpl. by rewrite IH.
Qed.

(** The constructor with a bootstrap count, when it returns.  The samples
    are one batch of [n] slices.  The reducer ran once on the batch itself
    and once on each of [n_bootstrap] resamples; each resample is a batch of
    the shape of the samples whose slice [j] is slice [rng k j mod n] of the
    samples, an index below [n]: drawing with replacement never leaves the
    samples, and no index is out of range.  The computed statistic is the
    stack of these results, the one of the samples first. *)
Theorem bootstrap_resamples (rng : nat → nat → nat)
    (func : tensor R → result (tensor R)) (nb : Z)
    (samples samples' : tensor R) (n : nat) (sh : list nat) (obs : _Observables) :
  shape samples = n :: sh →
  well_formed samples →
  _Observables_init rng func false (Some nb) samples = (samples', Ok obs) →
  ∃ u xs us,
    func samples = Ok u
    ∧ length xs = Z.to_nat nb
    ∧ (∀ k x, xs !! k = Some x →
         index0 samples (randint rng k n) = Ok x
         ∧ shape x = shape samples
         ∧ well_formed x
         ∧ ∀ j, (j < n)%nat →
             (rng k j mod n < n)%nat
             ∧ slice0 sh (data x) j = slice0 sh (data samples) (rng k j mod n))
    ∧ mapM func xs = Ok us
    ∧ stack (u :: us) = Ok (_computed obs).
Proof.
  intros Hsh Hwf Hinit.
  pose proof (ObservablesFacts.init_outcome rng func false (Some nb) samples) as Hout.
  rewrite Hinit in Hout. simpl in Hout.
  specialize (Hout ltac:(intros [? _]; discriminate)). symmetry in Hout.
  unfold outcome_of in Hout. cbn [unsqueeze0 shape] in Hout. rewrite Hsh in Hout.
  destruct sh as [|L [|T rest]]; try discriminate Hout.
  cbn [unpack4_star] in Hout. rewrite bind_Ok_l in Hout. cbv beta iota in Hout.
  destruct (Nat.ltb_spec 1 n) as [Hn|Hn]; [|discriminate Hout].
  cbn [assert] in Hout. rewrite bind_Ok_l in Hout.
  unfold unbind0, unsqueeze0 in Hout. cbn [shape data seq map] in Hout.
  rewrite bind_Ok_l in Hout.
  rewrite (slice0_whole samples Hwf) in Hout.
  cbn [mapM] in Hout.
  destruct (func samples) as [u|] eqn:Hu; [|discriminate Hout].
  rewrite !bind_Ok_l in Hout.
  set (m := numel_of (L :: T :: rest)) in *.
  assert (Hlen : length (data samples) = (n * m)%nat).
  { unfold well_formed in Hwf. rewrite Hwf, Hsh. done. }
  set (chunk := fun i : nat => take m (drop (i * m) (data samples))).
  set (X := fun k : nat =>
              Tensor (n :: L :: T :: rest) (concat (map chunk (randint rng k n)))).
  assert (Hidx : ∀ k, index0 samples (randint rng k n) = Ok (X k)).
  { intros k. unfold index0. rewrite Hsh.
    rewrite ObservablesFacts.randint_in_range by lia.
    unfold X, randint. rewrite length_map, length_seq. done. }
  rewrite (mapM_ext _ (fun k => func (X k))) in Hout.
  2:{ intros k. unfold loop_variable. cbn [last]. rewrite bind_Ok_l.
      by rewrite Hidx, bind_Ok_l. }
  rewrite <- (mapM_map func X) in Hout.
  destruct (mapM func (map X (seq 0 (Z.to_nat nb)))) as [us|] eqn:Hus;
    [|discriminate Hout].
  rewrite bind_Ok_l in Hout.
  destruct (stack ([u] ++ us)) as [stacked|] eqn:Hst; [|discriminate Hout].
  rewrite bind_Ok_l in Hout. injection Hout as <-. cbn [_computed].
  exists u, (map X (seq 0 (Z.to_nat nb))), us.
  split; [done|]. split; [by rewrite length_map, length_seq|].
  split; [|split; [done | exact Hst]].
  intros k x Hk. rewrite list_lookup_fmap in Hk.
  destruct (seq 0 (Z.to_nat nb) !! k) as [k'|] eqn:Hk'; [|done].
  apply lookup_seq in Hk' as [-> _]. simpl in Hk. injection Hk as <-.
  assert (Hchunks : Forall (fun c => length c = m) (map chunk (randint rng k n))).
  { apply Forall_map, Forall_forall. intros i Hi. simpl.
    apply (length_chunk m n); [done|].
    unfold randint in Hi. apply list_elem_of_In, in_map_iff in Hi as (j & <- & _).
    apply Nat.mod_upper_bound. lia. }
  split; [apply Hidx|]. split; [by rewrite Hsh|]. split.
  - unfold well_formed, X. cbn [data shape].
    rewrite (length_concat_chunks m) by done.
    unfold randint. rewrite !length_map, length_seq. done.
  - intros j Hj. split; [apply Nat.mod_upper_bound; lia|].
    unfold slice0, X. cbn [data]. f_equal. fold m.
    apply (concat_chunk m); [done|].
    unfold randint. rewrite map_map, list_lookup_fmap.
    rewrite lookup_seq_lt by done. done.
Qed.

Lemma bootstrap_resamples_witness :
  ∃ u xs us,
    identity lattice_series = Ok u
    ∧ length xs = 2%nat
    ∧ (∀ k x, xs !! k = Some x →
         index0 lattice_series (randint (fun k i => (k + i)%nat) k 5) = Ok x
         ∧ shape x = shape lattice_series
         ∧ well_formed x
         ∧ ∀ j, (j < 5)%nat →
             ((k + j) mod 5 < 5)%nat
             ∧ slice0 [1; 1]%nat (data x) j
               = slice0 [1; 1]%nat (data lattice_series) ((k + j) mod 5))
    ∧ mapM identity xs = Ok us
    ∧ stack (u :: us)
      = Ok (Tensor [3; 5; 1; 1]%nat
              [1; 2; 3; 4; 5; 1; 2; 3; 4; 5; 2; 3; 4; 5; 1]%R).
Proof.
  eapply (bootstrap_resamples (fun k i => (k + i)%nat) identity 2 lattice_series
            lattice_series 5 [1; 1]%nat
            {| n_replica := 1; n_sample := 5; n_bootstrap := Some 2%Z;
               lattice_shape := (1, 1)%nat; func := identity;
               _computed := Tensor [3; 5; 1; 1]%nat
                              [1; 2; 3; 4; 5; 1; 2; 3; 4; 5; 2; 3; 4; 5; 1]%R |});
    reflexivity.
Defined.

End BootstrapFacts.

(** *** scalar/flows/coupling.py: the base distribution *)

Module BaseFacts.
Import Flows.

Section WithReals.
Open Scope R_scope.

Lemma sum_list_nonneg (xs : list R) :
  Forall (fun x => 0 <= x) xs →
  0 <= sum_list xs ∧ (sum_list xs = 0 → Forall (fun x => x = 0) xs).
Proof.
  induction 1 as [|x xs Hx _ [IH0 IH]]; [split; [simpl; lra | done]|].
  simpl. split; [lra|]. intros H. constructor; [lra|]. apply IH. lra.
Qed.

Lemma slice0_map_seq {V : Type} (f : nat → V) (sh : list nat) (B b : nat) :
  (b < B)%nat →
  data (slice0 sh (map f (seq 0 (B * numel_of sh))) b)
  = map f (seq (b * numel_of sh) (numel_of sh)).
Proof.
  intros Hb. unfold slice0. cbn [data].
  rewrite skipn_map, firstn_map, drop_seq, take_seq. do 2 f_equal. nia.
Qed.

(** [base]: the draw has shape (batch, L, L, 1) and the action shape
    (batch, 1), both with as many entries as their shapes announce; entry
    [b] of the action is half the sum of the squares of the [L * L] entries
    of sample [b], which are the entries of the draw from position
    [b * L * L] on.  It is never negative, and zero only for the sample that
    is zero everywhere. *)
Theorem base_action (noise : nat → R) (self : Model) (batch_size : nat) :
  let L := lattice_length self in
  let z := (base noise self batch_size).1 in
  let S_z := (base noise self batch_size).2 in
  shape z = [batch_size; L; L; 1%nat] ∧ well_formed z
  ∧ shape S_z = [batch_size; 1%nat] ∧ well_formed S_z
  ∧ ∀ b, (b < batch_size)%nat →
      ∃ s, data S_z !! b = Some s
           ∧ s = sum_list (map (fun i => 0.5 * noise i * noise i)
                               (seq (b * (L * L)) (L * L)))
           ∧ 0 <= s
           ∧ (s = 0 → ∀ i, (i < L * L)%nat → data z !! (b * (L * L) + i)%nat = Some 0).
Proof.
  intros L z S_z. subst z S_z. unfold base. fold L. cbn [fst snd shape data].
  assert (Hm : numel_of [L; L; 1%nat] = (L * L)%nat) by (simpl; lia).
  split; [done|]. split.
  { unfold well_formed. cbn [data shape]. by rewrite length_map, length_seq. }
  split; [done|]. split.
  { unfold well_formed. cbn [data shape]. rewrite length_map, length_seq.
    simpl. lia. }
  intros b Hb. eexists. split.
  { rewrite list_lookup_fmap, lookup_seq_lt by done. reflexivity. }
  cbn [numel_of foldr]. fold (numel_of [L; L; 1%nat]).
  rewrite slice0_map_seq by done. rewrite Hm, map_map.
  split; [done|].
  set (xs := map (fun i => 0.5 * noise i * noise i) (seq (b * (L * L)) (L * L))).
  assert (Hxs : Forall (fun x => 0 <= x) xs).
  { subst xs. apply Forall_map, Forall_forall. intros i _. simpl. nra. }
  destruct (sum_list_nonneg xs Hxs) as [H0 Hz]. split; [done|].
  intros Hs i Hi. specialize (Hz Hs).
  rewrite list_lookup_fmap, lookup_seq_lt by nia. simpl. f_equal.
  rewrite Forall_forall in Hz.
  assert (Hin : 0.5 * noise (b * (L * L) + i)%nat * noise (b * (L * L) + i)%nat ∈ xs).
  { subst xs. apply list_elem_of_fmap. exists (b * (L * L) + i)%nat.
    split; [done|]. apply elem_of_seq. lia. }
  specialize (Hz _ Hin). nra.
Qed.

End WithReals.

End BaseFacts.

(** *** layers.py: the neighbours in the context of [CouplingLayer] *)

Module NeighbourFacts.
Import Layers.

Section WithTypes.
Context {V J : Type} (mask_mul : bool → V → V).
Local Abbreviation site := (list V).
Local Abbreviation grid := (list (list (list V))).
Local Abbreviation mask2 := (list (list bool)).
Local Abbreviation tensor4 := (@tensor4 V).

Lemma roll_list_lookup {A : Type} (k : Z) (l : list A) (i : nat) :
  (i < length l)%nat →
  roll_list k l !! i = l !! wrap (length l) (Z.of_nat i - k).
Proof.
  intros Hi. unfold roll_list, wrap.
  set (n := length l) in *.
  assert (Hr : (0 ≤ k mod Z.of_nat n < Z.of_nat n)%Z) by (apply Z.mod_pos_bound; lia).
  set (r := (k mod Z.of_nat n)%Z) in *.
  assert (Hw : ((Z.of_nat i - k) mod Z.of_nat n
                = if decide (Z.of_nat i < r)%Z then Z.of_nat i - r + Z.of_nat n
                  else Z.of_nat i - r)%Z).
  { pose proof (Z.div_mod k (Z.of_nat n) ltac:(lia)) as Hk. fold r in Hk.
    destruct (decide _); symmetry.
    - apply (Z.mod_unique _ _ (- (k / Z.of_nat n) - 1)); [lia | nia].
    - apply (Z.mod_unique _ _ (- (k / Z.of_nat n))); [lia | nia]. }
  rewrite Hw. destruct (decide (Z.of_nat i < r)%Z) as [Hlt|Hge].
  - rewrite lookup_app_l by (rewrite length_drop; lia).
    rewrite lookup_drop. f_equal. lia.
  - rewrite lookup_app_r by (rewrite length_drop; lia).
    rewrite length_drop. rewrite lookup_take_lt by lia. f_equal. lia.
Qed.

Lemma wrap_lt (n : nat) (x : Z) : (0 < n)%nat → (wrap n x < n)%nat.
Proof.
  intros Hn. unfold wrap.
  pose proof (Z.mod_pos_bound x (Z.of_nat n) ltac:(lia)). lia.
Qed.

Lemma mask_shape_ok_grid (L T : nat) (mask : mask2) :
  mask_shape_ok mask L T = true → grid_shape L T mask.
Proof.
  unfold mask_shape_ok. intros [H1 H2]%andb_true_iff. split.
  - by apply bool_decide_eq_true in H1.
  - apply Forall_forall. intros r Hr.
    rewrite forallb_forall in H2. apply list_elem_of_In, H2 in Hr.
    by apply bool_decide_eq_true in Hr.
Qed.

Lemma grid_lookup {A : Type} (L T : nat) (g : list (list A)) (i j : nat) :
  grid_shape L T g → (i < L)%nat → (j < T)%nat →
  ∃ r x, g !! i = Some r ∧ length r = T ∧ r !! j = Some x.
Proof.
  intros [Hl Hr] Hi Hj.
  destruct (lookup_lt_is_Some_2 g i) as [r Hgi]; [lia|].
  assert (Hlen : length r = T).
  { rewrite Forall_forall in Hr. apply Hr. by eapply list_elem_of_lookup_2. }
  destruct (lookup_lt_is_Some_2 r j) as [x Hx]; [lia|]. eauto.
Qed.

Lemma site_at_mul (frozen : mask2) (t m : tensor4) (b i j : nat) (x : site) (on : bool) :
  mul_mask4 mask_mul frozen t = Ok m →
  site_at t b i j = Some x → mask_at frozen i j = Some on →
  site_at m b i j = Some (map (mask_mul on) x).
Proof.
  unfold mul_mask4. destruct (dims4 t) as [[[n L] T] c].
  destruct (mask_shape_ok frozen L T); [|done]. intros [= <-].
  unfold site_at, mask_at. cbn [entries4]. rewrite list_lookup_fmap.
  destruct (entries4 t !! b) as [g|]; [|done]. simpl.
  unfold mul_grid. rewrite lookup_zip_with.
  destruct (frozen !! i) as [mr|]; [|done]. simpl.
  destruct (g !! i) as [r|]; [|done]. simpl.
  rewrite lookup_zip_with. intros -> ->. done.
Qed.

Lemma site_at_roll (dx dy : Z) (L T : nat) (m : tensor4) (b i j : nat) (g : list (list site)) :
  entries4 m !! b = Some g → grid_shape L T g → (i < L)%nat → (j < T)%nat →
  site_at (T4 (dims4 m) (map (fun g => map (roll_list dy) (roll_list dx g)) (entries4 m)))
          b i j
  = site_at m b (wrap L (Z.of_nat i - dx)) (wrap T (Z.of_nat j - dy)).
Proof.
  intros Hg Hshape Hi Hj. unfold site_at. cbn [entries4].
  rewrite list_lookup_fmap, Hg. simpl.
  rewrite list_lookup_fmap. destruct Hshape as [Hl Hr].
  rewrite roll_list_lookup by lia. rewrite Hl.
  destruct (lookup_lt_is_Some_2 g (wrap L (Z.of_nat i - dx))) as [r Hrow].
  { rewrite Hl. apply wrap_lt. lia. }
  rewrite Hrow. simpl.
  assert (Hlen : length r = T).
  { rewrite Forall_forall in Hr. apply Hr. by eapply list_elem_of_lookup_2. }
  rewrite roll_list_lookup by lia. by rewrite Hlen.
Qed.

Lemma site_at_cat2 (a c : tensor4) (b i j : nat) (x y : site) :
  site_at a b i j = Some x → site_at c b i j = Some y →
  site_at (cat_last2 a c) b i j = Some (x ++ y).
Proof.
  unfold cat_last2, site_at. destruct (dims4 a) as [[[n L] T] ch]. cbn [entries4].
  rewrite lookup_zip_with.
  destruct (entries4 a !! b) as [ga|]; [|done].
  destruct (entries4 c !! b) as [gc|]; [|done]. simpl.
  rewrite lookup_zip_with.
  destruct (ga !! i) as [ra|]; [|done].
  destruct (gc !! i) as [rc|]; [|done]. simpl.
  rewrite lookup_zip_with. intros -> ->. done.
Qed.

Lemma site_at_cat (ts : list tensor4) (b i j : nat) :
  ∀ (t : tensor4) (x : site) (xs : list site),
  site_at t b i j = Some x →
  Forall2 (fun t' s => site_at t' b i j = Some s) ts xs →
  site_at (foldl cat_last2 t ts) b i j = Some (x ++ concat xs).
Proof.
  induction ts as [|t' ts IH]; intros t x xs Hx Hxs.
  - inversion Hxs; subst. simpl. by rewrite app_nil_r.
  - inversion Hxs as [|? s ? ss Hs Hss]; subst. simpl.
    rewrite app_assoc. apply IH; [|done]. by apply site_at_cat2.
Qed.

Lemma Forall2_sites {A : Type} (P : A → site → Prop) (Q : A → tensor4 → Prop)
    (b i j : nat) (shs : list A) (rolled : list tensor4) :
  Forall2 Q shs rolled →
  (∀ sh r, Q sh r → ∃ s, P sh s ∧ site_at r b i j = Some s) →
  ∃ sites, Forall2 P shs sites
           ∧ Forall2 (fun r s => site_at r b i j = Some s) rolled sites.
Proof.
  intros HQ Hstep. induction HQ as [|sh r shs rolled Hq _ (sites & HP & HS)].
  - exists []. split; constructor.
  - destruct (Hstep sh r Hq) as (s & Hp & Hs).
    exists (s :: sites). split; by constructor.
Qed.

(** What the conditioner of [CouplingLayer] sees.  On a lattice batch of
    [L] by [T] sites, the context at site [(i, j)], before the active sites
    are selected from it, holds one block of channels per offset
    [(dx, dy)] of [self.shifts], in their order: the entry of the input at
    site [((i - dx) mod L, (j - dy) mod T)], the lattice being periodic,
    multiplied by the bit of the frozen mask at that site.  Selecting the
    active sites from it gives the context the transform is built from. *)
Theorem CouplingLayer_context_neighbours (self : @CouplingLayer V J) (t ctx : tensor4)
    (N L T C : nat) :
  dims4 t = (N, L, T, C) →
  Forall (grid_shape L T) (entries4 t) →
  CouplingLayer_stacked mask_mul self t = Ok ctx →
  CouplingLayer_context mask_mul self t
  = select4 (partitioning self (L, T)).1 (entries4 ctx)
  ∧ ∀ b i j, (b < length (entries4 t))%nat → (i < L)%nat → (j < T)%nat →
      ∃ sites,
        site_at ctx b i j = Some (concat sites)
        ∧ Forall2 (fun shift s =>
             ∃ dx dy on x,
               shift = [dx; dy]
               ∧ mask_at (partitioning self (L, T)).2
                   (wrap L (Z.of_nat i - dx)) (wrap T (Z.of_nat j - dy)) = Some on
               ∧ site_at t b (wrap L (Z.of_nat i - dx)) (wrap T (Z.of_nat j - dy))
                 = Some x
               ∧ s = map (mask_mul on) x)
            (shifts self) sites.
Proof.
  intros Hdims Hgrids Hst.
  unfold CouplingLayer_stacked, CouplingLayer_context in *. rewrite Hdims in *.
  destruct (partitioning self (L, T)) as [active frozen]. cbn [fst snd].
  destruct (mul_mask4 mask_mul frozen t) as [m|] eqn:Hm; [|done].
  rewrite bind_Ok_l in Hst. rewrite bind_Ok_l.
  destruct (mapM (fun shift => roll4 shift m) (shifts self)) as [rolled|] eqn:Hroll;
    [|done].
  rewrite bind_Ok_l in Hst. rewrite bind_Ok_l, Hst, bind_Ok_l. split; [done|].
  intros b i j Hb Hi Hj.
  assert (Hfrozen : grid_shape L T frozen).
  { apply mask_shape_ok_grid. unfold mul_mask4 in Hm. rewrite Hdims in Hm.
    by destruct (mask_shape_ok frozen L T). }
  assert (Hentries : entries4 m = map (mul_grid mask_mul frozen) (entries4 t)
                     ∧ dims4 m = dims4 t).
  { unfold mul_mask4 in Hm. rewrite Hdims in Hm.
    destruct (mask_shape_ok frozen L T); [|done]. injection Hm as <-. by rewrite Hdims. }
  destruct Hentries as [Hentries _].
  destruct (lookup_lt_is_Some_2 (entries4 t) b Hb) as [g Hg].
  assert (Hgshape : grid_shape L T g).
  { rewrite Forall_forall in Hgrids. apply Hgrids. by eapply list_elem_of_lookup_2. }
  assert (Hmg : entries4 m !! b = Some (mul_grid mask_mul frozen g)).
  { by rewrite Hentries, list_lookup_fmap, Hg. }
  assert (Hmshape : grid_shape L T (mul_grid mask_mul frozen g)).
  { unfold mul_grid. by apply LayersFacts.grid_shape_zip_with. }
  pose proof (DenseForwardFacts.mapM_Forall2 (fun shift => roll4 shift m)
                (fun shift r => roll4 shift m = Ok r) (shifts self)
                ltac:(done) rolled Hroll) as HF.
  destruct (Forall2_sites
              (fun shift s =>
                 ∃ dx dy on x,
                   shift = [dx; dy]
                   ∧ mask_at frozen (wrap L (Z.of_nat i - dx)) (wrap T (Z.of_nat j - dy))
                     = Some on
                   ∧ site_at t b (wrap L (Z.of_nat i - dx)) (wrap T (Z.of_nat j - dy))
                     = Some x
                   ∧ s = map (mask_mul on) x)
              _ b i j _ _ HF) as (sites & HP & HS).
  { intros shift r Hr. unfold roll4 in Hr.
    destruct shift as [|dx [|dy [|? ?]]]; try done. injection Hr as <-.
    set (i' := wrap L (Z.of_nat i - dx)). set (j' := wrap T (Z.of_nat j - dy)).
    assert (Hi' : (i' < L)%nat) by (apply wrap_lt; lia).
    assert (Hj' : (j' < T)%nat) by (apply wrap_lt; lia).
    destruct (grid_lookup L T g i' j' Hgshape Hi' Hj') as (r & x & Hr & _ & Hx).
    destruct (grid_lookup L T frozen i' j' Hfrozen Hi' Hj') as (mr & on & Hmr & _ & Hon).
    exists (map (mask_mul on) x). split.
    - exists dx, dy, on, x. fold i' j'. repeat split.
      + unfold mask_at. by rewrite Hmr.
      + unfold site_at. rewrite Hg. simpl. by rewrite Hr.
    - rewrite (site_at_roll dx dy L T m b i j _ Hmg Hmshape Hi Hj). fold i' j'.
      apply (site_at_mul frozen t m b i' j' x on Hm).
      + unfold site_at. rewrite Hg. simpl. by rewrite Hr.
      + unfold mask_at. by rewrite Hmr. }
  exists sites. split; [|done].
  unfold cat_last in Hst. destruct rolled as [|r0 rs]; [done|].
  injection Hst as <-.
  inversion HS as [|? s0 ? ss Hs0 Hss]; subst.
  simpl. by apply site_at_cat.
Qed.

End WithTypes.

Lemma CouplingLayer_context_neighbours_witness :
  CouplingLayer_context mask_mul_Z radius_1_layer lattice_2x2
  = select4 (partitioning radius_1_layer (2, 2)%nat).1 (entries4 lattice_2x2_stacked)
  ∧ ∀ b i j, (b < 1)%nat → (i < 2)%nat → (j < 2)%nat →
      ∃ sites,
        site_at lattice_2x2_stacked b i j = Some (concat sites)
        ∧ Forall2 (fun shift s =>
             ∃ dx dy on x,
               shift = [dx; dy]
               ∧ mask_at (partitioning radius_1_layer (2, 2)%nat).2
                   (wrap 2 (Z.of_nat i - dx)) (wrap 2 (Z.of_nat j - dy)) = Some on
               ∧ site_at lattice_2x2 b (wrap 2 (Z.of_nat i - dx)) (wrap 2 (Z.of_nat j - dy))
                 = Some x
               ∧ s = map (mask_mul_Z on) x)
            (shifts radius_1_layer) sites.
Proof.
  apply (CouplingLayer_context_neighbours mask_mul_Z radius_1_layer lattice_2x2
           lattice_2x2_stacked 1 2 2 1).
  - reflexivity.
  - repeat constructor.
  - reflexivity.
Defined.

End NeighbourFacts.

(** *** layers.py: the kernels of [CouplingLayer] and its offsets *)

Module KernelFacts.
Import Layers.

Local Abbreviation at2 t i j := (t !! i ≫= (.!! j)).
Local Abbreviation b2n := (fun b : bool => if b then 1%nat else 0%nat).

Lemma select_scatter_row {A B : Type} (m : list bool) :
  ∀ (t : list A) (z src : list B) (sel : list A),
  select_row m t = Ok sel → length z = length m → length sel ≤ length src →
  ∃ E, scatter_line m z src = Ok (E, drop (length sel) src)
     ∧ length E = length z
     ∧ (∀ c x, sel !! c = Some x →
          ∃ p, m !! p = Some true ∧ t !! p = Some x ∧ E !! p = src !! c)
     ∧ (∀ p, m !! p = Some true →
          ∃ c x, sel !! c = Some x ∧ t !! p = Some x ∧ E !! p = src !! c)
     ∧ (∀ p, m !! p = Some false → E !! p = z !! p).
Proof.
  induction m as [|b m IH]; intros t z src sel Hsel Hz Hsrc.
  - destruct t; [|discriminate]. injection Hsel as <-.
    destruct z; [|discriminate]. exists []. simpl. repeat split; try done.
  - destruct t as [|y t]; [discriminate|]. simpl in Hsel.
    destruct (select_row m t) as [rest|] eqn:Hrest; [|discriminate].
    rewrite bind_Ok_l in Hsel. injection Hsel as <-.
    destruct z as [|z0 z]; [discriminate|]. simpl in Hz.
    destruct b.
    + destruct src as [|v src]; [simpl in Hsrc; lia|]. simpl in Hsrc.
      destruct (IH t z src rest Hrest ltac:(lia) ltac:(lia))
        as (E & HE & Hlen & Ha & Hb & Hc).
      exists (v :: E). simpl. rewrite HE. simpl.
      split; [done|]. split; [lia|]. split; [|split].
      * intros [|c] x Hx; simpl in Hx.
        -- injection Hx as <-. by exists 0.
        -- destruct (Ha c x Hx) as (p & ? & ? & ?). by exists (S p).
      * intros [|p] Hp; simpl in Hp.
        -- by exists 0, y.
        -- destruct (Hb p Hp) as (c & x & ? & ? & ?). by exists (S c), x.
      * intros [|p] Hp; simpl in Hp; [discriminate|]. by apply Hc.
    + destruct (IH t z src rest Hrest ltac:(lia) Hsrc)
        as (E & HE & Hlen & Ha & Hb & Hc).
      exists (z0 :: E). simpl. rewrite HE. simpl.
      split; [done|]. split; [lia|]. split; [|split].
      * intros c x Hx. destruct (Ha c x Hx) as (p & ? & ? & ?). by exists (S p).
      * intros [|p] Hp; simpl in Hp; [discriminate|]. by apply Hb.
      * intros [|p] Hp; simpl in Hp; [done|]. by apply Hc.
Qed.

Lemma select_scatter {A B : Type} (M : list (list bool)) :
  ∀ (t : list (list A)) (z : list (list B)) (src : list B) (sel : list A),
  masked_select M t = Ok sel →
  Forall2 (fun m r => length r = length m) M z →
  length sel ≤ length src →
  ∃ E, scatter_lines M z src = Ok (E, drop (length sel) src)
     ∧ Forall2 (fun r e => length e = length r) z E
     ∧ (∀ c x, sel !! c = Some x →
          ∃ i j, mask_at M i j = Some true ∧ at2 t i j = Some x
                 ∧ at2 E i j = src !! c)
     ∧ (∀ i j, mask_at M i j = Some true →
          ∃ c x, sel !! c = Some x ∧ at2 t i j = Some x ∧ at2 E i j = src !! c)
     ∧ (∀ i j, mask_at M i j = Some false → at2 E i j = at2 z i j).
Proof.
  induction M as [|m M IH]; intros t z src sel Hsel Hz Hsrc.
  - destruct t; [|discriminate]. injection Hsel as <-.
    inversion Hz; subst. exists []. simpl. repeat split; try done.
  - destruct t as [|r t]; [discriminate|]. simpl in Hsel.
    destruct (select_row m r) as [here|] eqn:Hhere; [|discriminate].
    rewrite bind_Ok_l in Hsel.
    destruct (masked_select M t) as [rest|] eqn:Hrest; [|discriminate].
    rewrite bind_Ok_l in Hsel. injection Hsel as <-.
    inversion Hz as [|? z0 ? z' Hz0 Hz']; subst.
    rewrite length_app in Hsrc.
    destruct (select_scatter_row m r z0 src here Hhere Hz0 ltac:(lia))
      as (E0 & HE0 & Hlen0 & Ha0 & Hb0 & Hc0).
    destruct (IH t z' (drop (length here) src) rest Hrest Hz'
                ltac:(rewrite length_drop; lia))
      as (E & HE & Hlen & Ha & Hb & Hc).
    exists (E0 :: E). cbn [scatter_lines]. rewrite HE0, bind_Ok_l. cbv beta iota.
    rewrite HE, bind_Ok_l. cbv beta iota.
    split; [by rewrite drop_drop, length_app|].
    split; [by constructor|]. unfold mask_at. split; [|split].
    + intros c x Hx. destruct (decide (c < length here)) as [Hlt|Hge].
      * rewrite lookup_app_l in Hx by done.
        destruct (Ha0 c x Hx) as (p & ? & ? & ?). by exists 0, p.
      * rewrite lookup_app_r in Hx by lia.
        destruct (Ha _ x Hx) as (i & j & ? & ? & HEij). exists (S i), j.
        split; [done|]. split; [done|]. simpl. rewrite HEij, lookup_drop.
        f_equal. lia.
    + intros [|i] j Hm; simpl in Hm.
      * destruct (Hb0 j Hm) as (c & x & Hc' & ? & ?). exists c, x.
        split; [|done]. by apply lookup_app_l_Some.
      * destruct (Hb i j Hm) as (c & x & Hc' & ? & HEij).
        exists (length here + c), x. split; [|split; [done|]].
        -- rewrite lookup_app_r by lia. rewrite <- Hc'. f_equal. lia.
        -- simpl. by rewrite HEij, lookup_drop.
    + intros [|i] j Hm; simpl in Hm; simpl; [by apply Hc0 | by apply Hc].
Qed.

Lemma select_row_length {A : Type} (m : list bool) :
  ∀ (t sel : list A), select_row m t = Ok sel → length sel = sum_list_with b2n m.
Proof.
  induction m as [|b m IH]; intros [|y t] sel H; try discriminate.
  - by injection H as <-.
  - simpl in H. destruct (select_row m t) as [rest|] eqn:Hrest; [|discriminate].
    rewrite bind_Ok_l in H. injection H as <-. specialize (IH _ _ Hrest).
    destruct b; simpl; lia.
Qed.

Lemma masked_select_length {A : Type} (M : list (list bool)) :
  ∀ (t : list (list A)) (sel : list A), masked_select M t = Ok sel →
    length sel = sum_list_with (sum_list_with b2n) M.
Proof.
  induction M as [|m M IH]; intros [|r t] sel H; try discriminate.
  - by injection H as <-.
  - simpl in H. destruct (select_row m r) as [here|] eqn:Hhere; [|discriminate].
    rewrite bind_Ok_l in H.
    destruct (masked_select M t) as [rest|] eqn:Hrest; [|discriminate].
    rewrite bind_Ok_l in H. injection H as <-.
    rewrite length_app, (select_row_length _ _ _ Hhere), (IH _ _ Hrest). done.
Qed.

(** How many of [K] consecutive numbers from [s] on are even. *)
Lemma count_even (K : nat) :
  ∀ s, sum_list_with b2n (map (fun j => Nat.even (s + j)) (seq 0 K))
       = ((K + b2n (Nat.even s)) / 2)%nat.
Proof.
  induction K as [|K IH]; intros s.
  - simpl. by destruct (Nat.even s).
  - cbn [seq map sum_list_with]. rewrite <- seq_shift, map_map.
    rewrite (map_ext _ (fun j => Nat.even (S s + j)))
      by (intros j; f_equal; lia).
    rewrite IH, Nat.add_0_r, Nat.even_succ, <- Nat.negb_even.
    destruct (Nat.even s); cbn [negb].
    + replace (S K + 1)%nat with (K + 0 + 1 * 2)%nat by lia.
      rewrite Nat.div_add by lia. lia.
    + by replace (S K + 0)%nat with (K + 1)%nat by lia.
Qed.

Lemma div2_add (q r : nat) : (r < 2)%nat → ((2 * q + r) / 2 = q)%nat.
Proof.
  intros Hr. replace (2 * q + r)%nat with (r + q * 2)%nat by lia.
  rewrite Nat.div_add by lia. rewrite Nat.div_small by done. done.
Qed.

Lemma count_checker_rows (K n : nat) :
  (2 * sum_list_with (fun i => (K + b2n (Nat.even (i + 1))) / 2) (seq 0 n)
   + b2n (Nat.odd K && Nat.odd n) = n * K)%nat.
Proof.
  induction n as [|n IH].
  - simpl. rewrite andb_false_r. done.
  - rewrite seq_S, sum_list_with_app. cbn [sum_list_with]. cbn [Nat.add] in *.
    set (rows := sum_list_with _ (seq 0 n)) in *.
    replace (n + 1)%nat with (S n) by lia.
    rewrite Nat.odd_succ, Nat.even_succ, <- (Nat.negb_odd n).
    destruct (Nat.Even_or_Odd K) as [[q ->]|[q ->]].
    + assert (HK : Nat.odd (2 * q) = false) by (by rewrite Nat.odd_mul).
      rewrite HK in *. cbn [andb] in *.
      destruct (Nat.odd n); cbn [negb] in *.
      * rewrite (div2_add q 1) by lia. nia.
      * rewrite (div2_add q 0) by lia. nia.
    + assert (HK : Nat.odd (2 * q + 1) = true)
        by (by rewrite Nat.odd_add, Nat.odd_mul).
      rewrite HK in *. cbn [andb] in *.
      destruct (Nat.odd n); cbn [negb] in *.
      * replace (2 * q + 1 + 1)%nat with (2 * (q + 1) + 0)%nat by lia.
        rewrite (div2_add (q + 1) 0) by lia. nia.
      * replace (2 * q + 1 + 0)%nat with (2 * q + 1)%nat by lia.
        rewrite (div2_add q 1) by lia. nia.
Qed.

Lemma count_checker (K : nat) :
  sum_list_with (sum_list_with b2n) (tabulate K K (fun i j => Nat.even (i + j + 1)))
  = (K * K / 2)%nat.
Proof.
  unfold tabulate.
  assert (H : ∀ n,
    sum_list_with (sum_list_with b2n)
      (map (fun i => map (fun j => Nat.even (i + j + 1)) (seq 0 K)) (seq 0 n))
    = sum_list_with (fun i => (K + b2n (Nat.even (i + 1))) / 2)%nat (seq 0 n)).
  { intros n. induction (seq 0 n) as [|i l IH]; [done|]. simpl. rewrite IH. f_equal.
    rewrite (map_ext _ (fun j => Nat.even (i + 1 + j)))
      by (intros j; f_equal; lia).
    apply count_even. }
  rewrite H. pose proof (count_checker_rows K K) as Hc.
  destruct (Nat.odd K && Nat.odd K); simpl b2n in Hc.
  - apply (Nat.div_unique _ _ _ 1); lia.
  - apply (Nat.div_unique _ _ _ 0); lia.
Qed.

Lemma shifts_select (radius : Z) :
  (0 ≤ radius)%Z →
  CouplingLayer_shifts radius
  = masked_select
      (tabulate (Z.to_nat (2 * radius + 1)) (Z.to_nat (2 * radius + 1))
                (fun i j => Nat.even (i + j + 1)))
      (tabulate (Z.to_nat (2 * radius + 1)) (Z.to_nat (2 * radius + 1))
                (fun i j => [- radius + Z.of_nat j; - radius + Z.of_nat i]%Z)).
Proof.
  intros Hr. unfold CouplingLayer_shifts, arange.
  replace (radius + 1 <? - radius)%Z with false by (symmetry; apply Z.ltb_ge; lia).
  rewrite !bind_Ok_l, LayersFacts.shifts_grid_tabulate, LayersFacts.checker_tabulate.
  by replace (radius + 1 - - radius)%Z with (2 * radius + 1)%Z by lia.
Qed.

Lemma at2_elem_concat {A : Type} (E : list (list A)) (i j : nat) (x : A) :
  at2 E i j = Some x → x ∈ concat E.
Proof.
  intros H. destruct (E !! i) as [r|] eqn:Hr; [|done]. simpl in H.
  apply list_elem_of_In, in_concat. exists r.
  split; apply list_elem_of_In; by eapply list_elem_of_lookup_2.
Qed.

Lemma elem_concat_at2 {A : Type} (E : list (list A)) (x : A) :
  x ∈ concat E → ∃ i j, at2 E i j = Some x.
Proof.
  intros (r & Hr & Hx)%list_elem_of_In%in_concat.
  apply list_elem_of_In, list_elem_of_lookup in Hr as [i Hi].
  apply list_elem_of_In, list_elem_of_lookup in Hx as [j Hj].
  exists i, j. by rewrite Hi.
Qed.

Lemma foldr_max (N : Z) (l : list Z) :
  (∀ x, x ∈ l → 0 ≤ x ≤ N)%Z → N = 0%Z ∨ N ∈ l → foldr Z.max 0%Z l = N.
Proof.
  intros Hb HN.
  assert (Hup : (0 ≤ N → 0 ≤ foldr Z.max 0 l ≤ N)%Z).
  { clear HN. intros H0. induction l as [|x l IH]; [simpl; lia|]. simpl.
    pose proof (Hb x ltac:(left)).
    specialize (IH ltac:(intros y Hy; apply Hb; by right)). lia. }
  assert (Hlow : ∀ x, x ∈ l → (x ≤ foldr Z.max 0 l)%Z).
  { clear. induction l as [|y l IH]; intros x Hx; [by apply elem_of_nil in Hx|].
    simpl. apply elem_of_cons in Hx as [->|Hx]; [lia|]. specialize (IH x Hx). lia. }
  destruct HN as [->|HN].
  - specialize (Hup ltac:(lia)). lia.
  - pose proof (Hb N HN). specialize (Hlow N HN). specialize (Hup ltac:(lia)). lia.
Qed.

Lemma tabulate_shape {A : Type} (n m : nat) (f : nat → nat → A) :
  length (tabulate n m f) = n ∧ Forall (fun r => length r = m) (tabulate n m f).
Proof.
  unfold tabulate. split; [by rewrite length_map, length_seq|].
  apply Forall_map, Forall_forall. intros i _. simpl.
  by rewrite length_map, length_seq.
Qed.

Lemma at2_lt {A : Type} (n m : nat) (E : list (list A)) (i j : nat) (x : A) :
  length E = n → Forall (fun r => length r = m) E →
  at2 E i j = Some x → (i < n)%nat ∧ (j < m)%nat.
Proof.
  intros Hn Hm H. destruct (E !! i) as [r|] eqn:Hr; [|done]. simpl in H.
  pose proof (lookup_lt_Some _ _ _ Hr). pose proof (lookup_lt_Some _ _ _ H).
  rewrite Forall_forall in Hm.
  rewrite (Hm r) in * by (by eapply list_elem_of_lookup_2). lia.
Qed.

(** [__init__] of [CouplingLayer], the offsets and the kernels together.
    For every radius that is not negative, with [K = 2 radius + 1]: the
    constructor keeps [K ** 2 // 2 = 2 radius (radius + 1)] offsets, which
    is also the number of integers it scatters into the window, so that
    [masked_scatter] uses them all; the kernels are a [K] by [K] window of
    vectors with one entry per offset; and the entry for offset number [c]
    at the window site [(i, j)] is one exactly when [self.shifts[c]] is the
    offset [(j - radius, i - radius)] of that site, and zero otherwise:
    kernel [c] marks the one site of the window that offset [c] points at. *)
Theorem CouplingLayer_kernels_match_shifts (radius : Z) :
  (0 ≤ radius)%Z →
  ∃ shifts kernels,
    CouplingLayer_shifts radius = Ok shifts
    ∧ CouplingLayer_kernels radius = Ok kernels
    ∧ Z.of_nat (length shifts) = ((2 * radius + 1) ^ 2 / 2)%Z
    ∧ ((2 * radius + 1) ^ 2 / 2 = 2 * radius * (radius + 1))%Z
    ∧ ∀ i j, (i < Z.to_nat (2 * radius + 1))%nat → (j < Z.to_nat (2 * radius + 1))%nat →
        ∃ v, at2 kernels i j = Some v
             ∧ length v = length shifts
             ∧ ∀ c, (c < length shifts)%nat →
                 v !! c
                 = Some (if decide (shifts !! c
                                    = Some [Z.of_nat j - radius; Z.of_nat i - radius]%Z)
                         then 1%R else 0%R).
Proof.
  intros Hr. rewrite (shifts_select radius Hr).
  unfold CouplingLayer_kernels. rewrite LayersFacts.checker_tabulate.
  set (K := (2 * radius + 1)%Z). set (n := Z.to_nat K).
  set (M := tabulate n n (fun i j => Nat.even (i + j + 1))).
  set (g := fun i j : nat => [- radius + Z.of_nat j; - radius + Z.of_nat i]%Z).
  set (z := tabulate n n (fun _ _ : nat => 0%Z)).
  assert (Hdiv : (K ^ 2 / 2 = 2 * radius * (radius + 1))%Z).
  { symmetry. apply (Z.div_unique _ _ _ 1); [lia|]. subst K. nia. }
  assert (HnK : (n * n / 2)%nat = Z.to_nat (K ^ 2 / 2)).
  { rewrite Z2Nat.inj_div by nia. rewrite Z.pow_2_r, Z2Nat.inj_mul by lia. done. }
  destruct (LayersFacts.masked_select_total M (tabulate n n g)) as [sel Hsel].
  { apply LayersFacts.Forall2_map_same. intros i. by rewrite !length_map. }
  assert (Hlen : length sel = (n * n / 2)%nat).
  { rewrite (masked_select_length _ _ _ Hsel). apply count_checker. }
  exists sel.
  unfold check_size. replace (K <? 0)%Z with false by (symmetry; apply Z.ltb_ge; lia).
  rewrite bind_Ok_l. fold n. unfold arange.
  replace (K ^ 2 / 2 + 1 <? 1)%Z with false by (symmetry; apply Z.ltb_ge; lia).
  rewrite bind_Ok_l.
  replace (K ^ 2 / 2 + 1 - 1)%Z with (K ^ 2 / 2)%Z by lia. rewrite <- HnK, <- Hlen.
  set (src := map (fun i => (1 + Z.of_nat i)%Z) (seq 0 (length sel))).
  assert (Hsrc : ∀ c, (c < length sel)%nat → src !! c = Some (1 + Z.of_nat c)%Z).
  { intros c Hc. unfold src. by rewrite LayersFacts.lookup_map_seq, decide_True. }
  assert (Hsrclen : length src = length sel)
    by (unfold src; by rewrite length_map, length_seq).
  assert (HzM : Forall2 (fun m r => length r = length m) M z).
  { unfold M, z, tabulate. apply LayersFacts.Forall2_map_same.
    intros i. by rewrite !length_map. }
  destruct (select_scatter M (tabulate n n g) z src sel Hsel HzM ltac:(lia))
    as (E & HE & HEz & Ha & Hb & Hc).
  fold z. unfold masked_scatter. rewrite HE. cbn [fmap result_fmap fst].
  rewrite bind_Ok_l.
  assert (HEshape : length E = n ∧ Forall (fun r => length r = n) E).
  { destruct (tabulate_shape n n (fun _ _ : nat => 0%Z)) as [Hz1 Hz2]. fold z in Hz1, Hz2.
    split; [by rewrite <- (Forall2_length _ _ _ HEz)|].
    clear -HEz Hz2. induction HEz as [|r e z E Hre _ IH]; [constructor|].
    apply Forall_cons in Hz2 as [Hr Hz2]. constructor; [lia | by apply IH]. }
  assert (Hgrid : ∀ i j x, at2 (tabulate n n g) i j = Some x →
                           (i < n)%nat ∧ (j < n)%nat ∧ x = g i j).
  { intros i j x. rewrite LayersFacts.tabulate_lookup.
    case_decide as Hij; [|done]. intros [= <-]. by destruct Hij. }
  assert (Hmask : ∀ i j b, mask_at M i j = Some b →
                           (i < n)%nat ∧ (j < n)%nat ∧ b = Nat.even (i + j + 1)).
  { intros i j b. unfold mask_at, M. rewrite LayersFacts.tabulate_lookup.
    case_decide as Hij; [|done]. intros [= <-]. by destruct Hij. }
  assert (Hginj : ∀ i j i' j', g i' j' = g i j → i' = i ∧ j' = j).
  { intros i j i' j'. unfold g. intros [= H1 H2]. lia. }
  assert (HF : ∀ i j, (i < n)%nat → (j < n)%nat →
    ∃ e, at2 E i j = Some e ∧ (0 ≤ e ≤ Z.of_nat (length sel))%Z
         ∧ ∀ c, (c < length sel)%nat →
             (Z.of_nat (S c) = e ↔ sel !! c = Some (g i j))).
  { intros i j Hi Hj.
    assert (Hm : mask_at M i j = Some (Nat.even (i + j + 1))).
    { unfold mask_at, M. rewrite LayersFacts.tabulate_lookup.
      by rewrite decide_True. }
    destruct (Nat.even (i + j + 1)) eqn:Hev.
    - destruct (Hb i j Hm) as (c0 & x & Hc0 & Hx & HEij).
      apply Hgrid in Hx as (_ & _ & ->).
      pose proof (lookup_lt_Some _ _ _ Hc0) as Hlt.
      rewrite (Hsrc c0 Hlt) in HEij.
      exists (1 + Z.of_nat c0)%Z. split; [done|]. split; [lia|].
      intros c Hclt. split.
      + intros Heq. by replace c with c0 by lia.
      + intros Hsc. destruct (Ha c _ Hsc) as (i' & j' & Hm' & Hg' & HE').
        apply Hgrid in Hg' as (_ & _ & Hg'). symmetry in Hg'.
        apply Hginj in Hg' as [-> ->].
        rewrite (Hsrc c Hclt), HEij in HE'. injection HE' as HE'. lia.
    - specialize (Hc i j Hm).
      assert (Hz : at2 z i j = Some 0%Z).
      { unfold z. rewrite LayersFacts.tabulate_lookup. by rewrite decide_True. }
      rewrite Hz in Hc. exists 0%Z. split; [done|]. split; [lia|].
      intros c Hclt. split; [lia|].
      intros Hsc. destruct (Ha c _ Hsc) as (i' & j' & Hm' & Hg' & _).
      apply Hgrid in Hg' as (_ & _ & Hg'). symmetry in Hg'.
      apply Hginj in Hg' as [-> ->]. congruence. }
  assert (Hn : (0 < n)%nat) by (subst n K; lia).
  assert (Hentries : ∀ e, e ∈ concat E → (0 ≤ e ≤ Z.of_nat (length sel))%Z).
  { intros e (i & j & He)%elem_concat_at2.
    destruct (at2_lt n n E i j e (proj1 HEshape) (proj2 HEshape) He) as [Hi Hj].
    destruct (HF i j Hi Hj) as (e' & He' & Hbound & _). congruence. }
  assert (Hmax : foldr Z.max 0%Z (concat E) = Z.of_nat (length sel)).
  { apply foldr_max; [done|].
    destruct (length sel) as [|N] eqn:HN; [by left|]. right.
    destruct (lookup_lt_is_Some_2 sel N ltac:(lia)) as [x Hx].
    destruct (Ha N x Hx) as (i & j & _ & _ & HEij).
    rewrite Hsrc in HEij by lia.
    apply (at2_elem_concat E i j). rewrite HEij. f_equal. lia. }
  unfold one_hot.
  destruct (HF 0%nat 0%nat Hn Hn) as (e0 & He0 & _).
  rewrite bool_decide_eq_false_2.
  2:{ intros Hnil. apply at2_elem_concat in He0. rewrite Hnil in He0.
      by apply elem_of_nil in He0. }
  replace (forallb _ (concat E)) with true.
  2:{ symmetry. apply forallb_forall. intros e He%list_elem_of_In.
      apply Z.leb_le. by apply Hentries. }
  rewrite Hmax, bind_Ok_l. eexists. split; [done|]. split; [reflexivity|].
  split; [lia|]. split; [done|].
  intros i j Hi Hj. destruct (HF i j Hi Hj) as (e & He & Hbound & Hiff).
  destruct (E !! i) as [row|] eqn:Hrow; [|done]. simpl in He.
  rewrite !list_lookup_fmap, Hrow. simpl.
  rewrite !list_lookup_fmap, He. simpl. eexists. split; [done|].
  replace (Z.to_nat (Z.of_nat (length sel) + 1)) with (S (length sel)) by lia.
  rewrite skipn_map, drop_seq.
  replace (S (length sel) - 1)%nat with (length sel) by lia.
  cbn [Nat.add]. rewrite <- seq_shift, !map_map.
  split; [by rewrite length_map, length_seq|].
  intros c Hc'. rewrite LayersFacts.lookup_map_seq, decide_True by done. f_equal.
  specialize (Hiff c Hc').
  replace [Z.of_nat j - radius; Z.of_nat i - radius]%Z with (g i j)
    by (unfold g; do 2 f_equal; [|f_equal]; lia).
  destruct (Z.eqb_spec (Z.of_nat (S c)) e) as [Heq|Hne].
  - rewrite decide_True by (by apply Hiff). done.
  - rewrite decide_False by (intros H; by apply Hiff in H). done.
Qed.

Lemma CouplingLayer_kernels_match_shifts_witness :
  (0 ≤ 1)%Z
  ∧ ∃ shifts kernels,
      CouplingLayer_shifts 1 = Ok shifts
      ∧ CouplingLayer_kernels 1 = Ok kernels
      ∧ Z.of_nat (length shifts) = ((2 * 1 + 1) ^ 2 / 2)%Z
      ∧ ((2 * 1 + 1) ^ 2 / 2 = 2 * 1 * (1 + 1))%Z
      ∧ ∀ i j, (i < Z.to_nat (2 * 1 + 1))%nat → (j < Z.to_nat (2 * 1 + 1))%nat →
          ∃ v, at2 kernels i j = Some v
               ∧ length v = length shifts
               ∧ ∀ c, (c < length shifts)%nat →
                   v !! c
                   = Some (if decide (shifts !! c
                                      = Some [Z.of_nat j - 1; Z.of_nat i - 1]%Z)
                           then 1%R else 0%R).
Proof.
  assert (H : (0 ≤ 1)%Z) by lia.
  split; [exact H|]. exact (CouplingLayer_kernels_match_shifts 1 H).
Defined.

End KernelFacts.

(** *** layers.py: the context after [forward] *)

Module InverseFacts.
Import Layers.

Section WithTypes.
Context {V J : Type} (mask_mul : bool → V → V).
Local Abbreviation site := (list V).
Local Abbreviation grid := (list (list (list V))).
Local Abbreviation mask2 := (list (list bool)).
Local Abbreviation tensor4 := (@tensor4 V).
Local Abbreviation layer := (@coupling_layer V J).
Local Abbreviation same_len := (fun a b : site => length a = length b).

Lemma scatter_row_shape (mask : list bool) :
  ∀ (row vals : list site) p,
    scatter_row mask row vals = Ok p → Forall2 same_len row p.1.
Proof.
  induction mask as [|b mask IH]; intros row vals p H.
  - destruct row; simpl in H; [|discriminate]. injection H as <-. constructor.
  - destruct row as [|x row]; [destruct b; discriminate|].
    destruct b; simpl in H.
    + destruct vals as [|v vals]; [discriminate|].
      case_bool_decide; [|discriminate].
      inv_bind H. injection H as <-. simpl. constructor; [done | by eapply IH].
    + inv_bind H. injection H as <-. simpl. constructor; [done | by eapply IH].
Qed.

Lemma scatter_grid_shape (mask : mask2) :
  ∀ (g : grid) vals p,
    scatter_grid mask g vals = Ok p → Forall2 (Forall2 same_len) g p.1.
Proof.
  induction mask as [|m mask IH]; intros g vals p H.
  - destruct g; simpl in H; [|discriminate]. injection H as <-. constructor.
  - destruct g as [|r g]; [discriminate|]. simpl in H.
    inv_bind H. inv_bind H. injection H as <-. simpl.
    constructor; [by eapply scatter_row_shape | by eapply IH].
Qed.

Lemma scatter4_shape (mask : mask2) :
  ∀ (gs : list grid) vals gs',
    scatter4 mask gs vals = Ok gs' → Forall2 (Forall2 (Forall2 same_len)) gs gs'.
Proof.
  induction gs as [|g gs IH]; intros vals gs' H.
  - destruct vals; simpl in H; [|discriminate]. injection H as <-. constructor.
  - destruct vals as [|v vals]; [discriminate|]. simpl in H.
    inv_bind H. destruct (a.2) eqn:Hrest; [|discriminate].
    inv_bind H. injection H as <-.
    constructor; [by eapply scatter_grid_shape | by eapply IH].
Qed.

Lemma mul_mask4_agree (frozen : mask2) (t t' : tensor4) :
  (∀ x y, mask_mul false x = mask_mul false y) →
  dims4 t = dims4 t' →
  Forall2 (Forall2 (Forall2 same_len)) (entries4 t) (entries4 t') →
  (∀ b i j, mask_at frozen i j = Some true → site_at t b i j = site_at t' b i j) →
  mul_mask4 mask_mul frozen t = mul_mask4 mask_mul frozen t'.
Proof.
  intros Hzero Hdims Hshape Hfr. unfold mul_mask4. rewrite <- Hdims.
  destruct (dims4 t) as [[[n L] T] ch].
  destruct (mask_shape_ok frozen L T); [|done]. do 2 f_equal.
  unfold site_at in Hfr. clear Hdims.
  revert Hfr. induction Hshape as [|g g' gs gs' Hg _ IH]; intros Hfr; [done|].
  simpl. f_equal.
  - apply ContextFacts.mul_grid_agree; [done..|]. intros i j Hm. apply (Hfr 0 i j Hm).
  - apply IH. intros b i j Hm. apply (Hfr (S b) i j Hm).
Qed.

(** What makes a coupling layer invertible.  When the two masks of the
    layer do not overlap, the tensor [forward] returns gives the same
    context as the input it was computed from: the transform that was
    applied to the active sites can be built again from the output alone. *)
Theorem coupling_forward_keeps_context (l : layer) (s s' : list tensor4)
    (φ_in φ_out : nat) (ldj : J) (t_in t_out : tensor4) :
  (∀ x y, mask_mul false x = mask_mul false y) →
  (∀ i j, mask_at (frozen_mask_of l t_in) i j = Some true →
          mask_at (active_mask_of l t_in) i j = Some false) →
  forward mask_mul l s φ_in = (s', Ok (φ_out, ldj)) →
  s !! φ_in = Some t_in →
  s' !! φ_out = Some t_out →
  context_of mask_mul l t_out = context_of mask_mul l t_in
  ∧ ∃ context, context_of mask_mul l t_in = Ok context.
Proof.
  intros Hzero Hmasks Hf Hin Hout.
  rewrite ContextFacts.forward_context in Hf.
  unfold read in Hf at 1. rewrite Hin in Hf.
  destruct (context_of mask_mul l t_in) as [context|] eqn:Hctx; [|by inversion Hf].
  destruct (clone s φ_in) as [[s1 φ_out']|] eqn:Hclone; [|by inversion Hf].
  destruct (_ ≫= _) as [[y ldj']|] eqn:Htr in Hf; [|by inversion Hf].
  destruct (setitem s1 φ_out' (active_mask_of l t_in) y) as [s2|] eqn:Hset;
    [|by inversion Hf].
  injection Hf as <- <- <-.
  split; [|by eexists].
  unfold clone, read in Hclone. rewrite Hin in Hclone. simpl in Hclone.
  injection Hclone as <- <-.
  unfold setitem, read in Hset. rewrite lookup_app_r in Hset by lia.
  replace (length s - length s) with 0 in Hset by lia. simpl in Hset.
  inv_bind Hset. injection Hset as <-.
  rewrite list_lookup_insert_eq in Hout by (rewrite length_app; simpl; lia).
  injection Hout as <-.
  pose proof (scatter4_shape _ _ _ _ Ha) as Hshape.
  destruct (LayersFacts.scatter4_frame _ _ _ _ Ha) as (_ & Hframe).
  assert (Hagree : ∀ b i j, mask_at (frozen_mask_of l t_in) i j = Some true →
            site_at t_in b i j = site_at (T4 (dims4 t_in) a) b i j).
  { intros b i j Hm. symmetry. unfold site_at. simpl. apply Hframe.
    rewrite (Hmasks i j Hm). done. }
  rewrite <- Hctx. symmetry.
  unfold frozen_mask_of in Hagree.
  destruct l as [c|r]; simpl;
    [unfold ConvCouplingLayer_context | unfold CouplingLayer_context];
    cbn [dims4]; destruct (dims4 t_in) as [[[n L] T] ch] eqn:Hdims.
  - destruct (conv_partitioning c (L, T)) as [active frozen]. simpl in Hagree.
    by rewrite (mul_mask4_agree frozen t_in (T4 (dims4 t_in) a) Hzero eq_refl Hshape Hagree),
         Hdims.
  - destruct (partitioning r (L, T)) as [active frozen]. simpl in Hagree.
    by rewrite (mul_mask4_agree frozen t_in (T4 (dims4 t_in) a) Hzero eq_refl Hshape Hagree),
         Hdims.
Qed.

End WithTypes.

Lemma coupling_forward_keeps_context_witness :
  context_of mask_mul_Z (Radius radius_1_layer) lattice_2x2_out
  = context_of mask_mul_Z (Radius radius_1_layer) lattice_2x2
  ∧ ∃ context, context_of mask_mul_Z (Radius radius_1_layer) lattice_2x2 = Ok context.
Proof.
  apply (coupling_forward_keeps_context mask_mul_Z (Radius radius_1_layer)
           [lattice_2x2] [lattice_2x2; lattice_2x2_out] 0 1 0%Z
           lattice_2x2 lattice_2x2_out).
  - reflexivity.
  - intros [|[|i]] [|[|j]]; vm_compute; congruence.
  - reflexivity.
  - reflexivity.
  - reflexivity.
Defined.

End InverseFacts.

(** *** layers.py: [GlobalRescalingLayer] with any scale *)

Module ScalingFacts.
Import Layers.

Section WithReals.
Open Scope R_scope.

Lemma map_div_mult (σ : R) (l : list R) :
  σ ≠ 0 → map (fun y => y / σ) (map (Rmult σ) l) = l.
Proof.
  intros Hσ. induction l as [|x l IH]; [done|]. simpl. rewrite IH. f_equal.
  by field.
Qed.

(** [forward] of [GlobalRescalingLayer] for every value of its parameter, on
    every batch that is not empty: the effective scale is positive, the
    output has the shape of the input and is the input times that scale, so
    that dividing the output by the scale gives the input back; and the
    log-det column holds, for each sample, the logarithm of the scale times
    the number of entries of one sample. *)
Theorem GlobalRescalingLayer_forward_invertible (self : GlobalRescalingLayer)
    (n : nat) (sample_shape : list nat) (entries : list R) :
  let σ := softplus (ln 2) (scale self) in
  0 < σ
  ∧ ∃ φ ldj,
      GlobalRescalingLayer_forward self (Tensor (S n :: sample_shape) entries)
      = Ok (φ, ldj)
      ∧ shape φ = S n :: sample_shape
      ∧ data φ = map (Rmult σ) entries
      ∧ map (fun y => y / σ) (data φ) = entries
      ∧ ldj = Tensor [S n; 1%nat]
                (replicate (S n) (ln σ * INR (numel_of sample_shape))).
Proof.
  intros σ.
  assert (Hσ : 0 < σ) by apply LinearFacts.softplus_beta_pos, LayersFacts.ln_2_pos.
  split; [done|]. unfold GlobalRescalingLayer_forward. cbn [shape data hd].
  fold σ. eexists _, _. split; [reflexivity|]. cbn [shape data].
  repeat split. apply map_div_mult. lra.
Qed.

End WithReals.

End ScalingFacts.
